(** * enviosextra: a shallow embedding of the client services

    The development follows the TypeScript sources:
    - [ipService] (ban markers kept in localStorage, sessionStorage and the
      cookie store, the remote ban checks, the device fingerprint);
    - [GeolocationService] (postal-code format validation, the Zipcodebase
      look-ups);
    - the [Municipios] page helpers (random delivery estimates, the three
      start dates).

    Strings are sequences of code units below 256, numbers that are used as
    integers are [Z], JSON numbers that are only compared are [Q].  The
    browser (storage, cookie store, network, clock, random source) is an
    explicit world that the effectful functions thread through a small
    state-and-exception monad. *)

From Stdlib Require Import ZArith QArith Lia Ascii Sorted.
From stdpp Require Import gmap strings list fin_maps.

(* ===================================================================== *)
(** * Part I: definitions                                                 *)
(* ===================================================================== *)

(** ** JavaScript string primitives used by the sources *)

Module JsString.

(** White space as removed by [String.prototype.trim] and matched by the
    regular-expression class [\s], restricted to code units below 256. *)
Definition is_white_space (c : ascii) : bool :=
  let n := N_of_ascii c in
  ((9 <=? n) && (n <=? 13) || (n =? 32) || (n =? 160))%N.

(** [s.startsWith(p)] *)
Fixpoint startsWith (s p : string) {struct p} : bool :=
  match p with
  | EmptyString => true
  | String b p' =>
      match s with
      | EmptyString => false
      | String a s' => Ascii.eqb a b && startsWith s' p'
      end
  end.

Fixpoint trimStart (s : string) : string :=
  match s with
  | EmptyString => EmptyString
  | String c s' => if is_white_space c then trimStart s' else s
  end.

Fixpoint trimEnd (s : string) : string :=
  match s with
  | EmptyString => EmptyString
  | String c s' =>
      match trimEnd s' with
      | EmptyString => if is_white_space c then EmptyString else String c EmptyString
      | t => String c t
      end
  end.

(** [s.trim()] *)
Definition trim (s : string) : string := trimEnd (trimStart s).

(** [s.split(sep)] for a one-character separator; the result is never
    empty: splitting the empty string gives one empty piece. *)
Fixpoint split (sep : ascii) (s : string) : list string :=
  match s with
  | EmptyString => [EmptyString]
  | String c s' =>
      if Ascii.eqb c sep then EmptyString :: split sep s'
      else match split sep s' with
           | [] => [String c EmptyString]
           | piece :: pieces => String c piece :: pieces
           end
  end.

(** [pieces.join(sep)] *)
Fixpoint join (sep : string) (pieces : list string) : string :=
  match pieces with
  | [] => EmptyString
  | [piece] => piece
  | piece :: rest => piece +:+ sep +:+ join sep rest
  end.

(** [s.includes(c)] for a single character. *)
Fixpoint contains_char (c : ascii) (s : string) : bool :=
  match s with
  | EmptyString => false
  | String a s' => Ascii.eqb a c || contains_char c s'
  end.

(** The text before the first [c], and the text after it when there is
    one ([indexOf] followed by two [substring]s). *)
Fixpoint cut_at (c : ascii) (s : string) : string * option string :=
  match s with
  | EmptyString => (EmptyString, None)
  | String a s' =>
      if Ascii.eqb a c then (EmptyString, Some s')
      else let '(before, after) := cut_at c s' in (String a before, after)
  end.

(** A string that may be absent, used as a condition ([if (s)], [s || t]):
    it is true unless it is null, undefined or empty. *)
Definition truthy (s : option string) : bool :=
  match s with
  | Some (String _ _) => true
  | _ => false
  end.

End JsString.

(** ** The browser's three local stores *)

Module Browser.
Import JsString.

(** The two storages and the cookie store as the page sees them.  The
    cookie store holds the visible cookies in order, each a name and a
    value.  These are the stores themselves; whether the browser lets
    the page reach them is a matter of [StorageState]. *)
Record stores : Type := Stores {
  localStorage : gmap string string;
  sessionStorage : gmap string string;
  cookie_jar : list (string * string)
}.

(** [storage.getItem(k)]: [None] is JavaScript's [null]. *)
Definition getItem (m : gmap string string) (k : string) : option string := m !! k.

(** [storage.setItem(k, v)] *)
Definition setItem (k v : string) (m : gmap string string) : gmap string string :=
  <[k := v]> m.

(** A cookie as [document.cookie] shows it: [name=value], and the bare
    value for a cookie without a name. *)
Definition cookie_text (c : string * string) : string :=
  match fst c with
  | EmptyString => snd c
  | name => name +:+ "=" +:+ snd c
  end.

(** Reading [document.cookie]: the visible cookies, joined by a semicolon
    and a space. *)
Definition document_cookie (jar : list (string * string)) : string :=
  join "; " (map cookie_text jar).

Fixpoint jar_put (name value : string) (jar : list (string * string))
  : list (string * string) :=
  match jar with
  | [] => [(name, value)]
  | (n, v) :: rest =>
      if String.eqb n name then (name, value) :: rest
      else (n, v) :: jar_put name value rest
  end.

(** Assigning to [document.cookie]: the text before the first semicolon
    is the name-value pair, cut at its first equals sign and trimmed; the
    attributes that follow (here always a far-future [expires] and
    [path=/]) keep the cookie persistent and visible to every page, so
    the cookie of that name is created or replaced. *)
Definition set_document_cookie (assigned : string) (jar : list (string * string))
  : list (string * string) :=
  let '(name_value, _) := cut_at ";" assigned in
  match cut_at "=" name_value with
  | (name, Some value) => jar_put (trim name) (trim value) jar
  | (value, None) => jar_put EmptyString (trim value) jar
  end.

(** A cookie that was set with a name: the name is not empty, starts
    with a visible character and has no equals sign; neither name nor
    value contains a semicolon.  (A cookie set without a name is kept
    with the empty name and is not of this kind.) *)
Definition cookie_ok (c : string * string) : bool :=
  match fst c with
  | EmptyString => false
  | String a _ => negb (is_white_space a)
  end
  && negb (contains_char "=" (fst c))
  && negb (contains_char ";" (fst c))
  && negb (contains_char ";" (snd c)).

Definition jar_ok (jar : list (string * string)) : bool := forallb cookie_ok jar.

End Browser.

(** ** ipService: the local ban markers *)

Module IpService.
Import JsString Browser.

Definition BANNED_KEY : string := "sp_access_blocked".
Definition BANNED_DEVICE_KEY : string := "sp_device_id".

Definition ban_cookie : string :=
  BANNED_KEY +:+ "=true; expires=Fri, 31 Dec 9999 23:59:59 GMT; path=/".

(** [markLocalBan] *)
Definition markLocalBan (st : stores) : stores :=
  {| localStorage := setItem BANNED_KEY "true" (localStorage st);
     sessionStorage := setItem BANNED_KEY "true" (sessionStorage st);
     cookie_jar := set_document_cookie ban_cookie (cookie_jar st) |}.

(** [isLocallyBanned] *)
Definition isLocallyBanned (st : stores) : bool :=
  let localBan := getItem (localStorage st) BANNED_KEY in
  if bool_decide (localBan = Some "true") then true
  else
    let sessionBan := getItem (sessionStorage st) BANNED_KEY in
    if bool_decide (sessionBan = Some "true") then true
    else
      existsb
        (fun cookie => startsWith (trim cookie) (BANNED_KEY +:+ "=true"))
        (split ";" (document_cookie (cookie_jar st))).

(** The marker as the specification words it: the store holds the value
    ['true'] under the key ['sp_access_blocked']. *)
Definition storage_marked (m : gmap string string) : Prop :=
  m !! BANNED_KEY = Some "true".

Definition jar_marked (jar : list (string * string)) : Prop :=
  (BANNED_KEY, "true") ∈ jar.

(** The cookie test of [isLocallyBanned] on one cookie of the store: the
    cookie as [document.cookie] shows it, cut at semicolons as the test
    cuts the whole text (a cookie the browser hands back holds none, so
    that its only piece is its text), has a piece that begins, once
    trimmed, with [sp_access_blocked=true]. *)
Definition cookie_reads_banned (c : string * string) : bool :=
  existsb (λ piece, startsWith (trim piece) (BANNED_KEY +:+ "=true"))
          (split ";" (cookie_text c)).

(** The cookie test of [isLocallyBanned], read on a cookie that has a
    name. *)
Definition cookie_banned (c : string * string) : bool :=
  String.eqb (fst c) BANNED_KEY && startsWith (snd c) "true".

(** Both storages empty, and one cookie whose value only begins with
    ['true']. *)
Definition prefix_cookie_state : stores :=
  {| localStorage := ∅; sessionStorage := ∅;
     cookie_jar := [("sp_access_blocked", "truex")] |}.

(** Both storages empty, and one cookie without a name whose value is
    the text of the marker, as [document.cookie = "=sp_access_blocked=true"]
    leaves it. *)
Definition nameless_cookie_state : stores :=
  {| localStorage := ∅; sessionStorage := ∅;
     cookie_jar := set_document_cookie "=sp_access_blocked=true" [] |}.

End IpService.

(** ** Effects: state passing with exceptions

    An [async] function of the sources is a computation over the browser
    world that either returns a value or throws; [await] is sequencing,
    a rejected promise is a throw, [try]/[catch] is [try_catch]. *)

Module Effects.

Inductive outcome (A : Type) : Type :=
| Returned (a : A)
| Thrown (error : string).
Arguments Returned {A} a.
Arguments Thrown {A} error.

Definition M (W A : Type) : Type := W → outcome A * W.

Definition run {W A} (c : M W A) (w : W) : outcome A * W := c w.

Definition ret {W A} (a : A) : M W A := λ w, (Returned a, w).

Definition bind {W A B} (c : M W A) (k : A → M W B) : M W B := λ w,
  match c w with
  | (Returned a, w') => k a w'
  | (Thrown e, w') => (Thrown e, w')
  end.

Declare Scope effect_scope.
Delimit Scope effect_scope with effect.
Notation "'let*' x ':=' c 'in' k" := (bind c (λ x, k))
  (at level 10, x pattern, c at level 100, k at level 200) : effect_scope.
Notation "c ';;' k" := (bind c (λ _, k))
  (at level 100, k at level 200, right associativity) : effect_scope.
Local Open Scope effect_scope.

Definition throw {W A} (error : string) : M W A := λ w, (Thrown error, w).

Definition try_catch {W A} (body : M W A) (handler : string → M W A) : M W A :=
  λ w, match body w with
       | (Returned a, w') => (Returned a, w')
       | (Thrown e, w') => handler e w'
       end.

Definition read {W A} (f : W → A) : M W A := λ w, (Returned (f w), w).

Definition modify {W} (f : W → W) : M W unit := λ w, (Returned tt, f w).

(** A statement inside a [try] block either falls through ([None]) or
    returns from the enclosing function ([Some r]); [or_else] continues
    with the next statement in the first case only. *)
Definition or_else {W A} (c : M W (option A)) (next : M W A) : M W A :=
  let* r := c in match r with Some a => ret a | None => next end.

(** Unfolds the operations of the monad, leaving the plain state passing. *)
Ltac run_effects := unfold run, or_else, try_catch, bind, modify, read, ret, throw.

End Effects.

(** ** Numbers rendered as text *)

Module JsNumber.
Local Open Scope Z_scope.

(** [hash | 0]: the signed 32-bit integer of a number. *)
Definition to_int32 (z : Z) : Z :=
  let m := z mod 2 ^ 32 in
  if 2 ^ 31 <=? m then m - 2 ^ 32 else m.

(** [x << k] on 32-bit integers. *)
Definition shl32 (x k : Z) : Z := to_int32 (Z.shiftl (to_int32 x) k).

Definition digit_char (d : Z) : ascii :=
  ascii_of_N (Z.to_N (if d <? 10 then 48 + d else 87 + d)).

(** The digits of a positive integer, least significant first. *)
Fixpoint digits (fuel : nat) (radix n : Z) : list Z :=
  match fuel with
  | O => []
  | S fuel' =>
      if n =? 0 then [] else (n mod radix) :: digits fuel' radix (n / radix)
  end.

Definition digits_of (radix n : Z) : list Z :=
  digits (S (Z.to_nat (Z.log2 n))) radix n.

Definition string_of_digits (ds : list Z) : string :=
  String.string_of_list_ascii (map digit_char ds).

(** [n.toString(radix)] for an integer [n]. *)
Definition toString (radix n : Z) : string :=
  if n =? 0 then "0"
  else if n <? 0 then String "-" (string_of_digits (rev (digits_of radix (- n))))
  else string_of_digits (rev (digits_of radix n)).

(** Reading a rendered integer back (what [parseInt(s, radix)] does on
    the output of [toString]); used to tell apart the texts of different
    numbers. *)
Definition digit_value (c : ascii) : Z :=
  let n := Z.of_N (N_of_ascii c) in
  if n <? 58 then n - 48 else n - 87.

Definition digits_value (radix : Z) (s : string) : Z :=
  fold_left (λ acc c, acc * radix + digit_value c) (String.list_ascii_of_string s) 0.

Definition parseInt (radix : Z) (s : string) : Z :=
  match s with
  | String "-" rest => - digits_value radix rest
  | _ => digits_value radix s
  end.

(** [str.charCodeAt(i)] of every position, in order. *)
Definition char_codes (s : string) : list Z :=
  map (λ c, Z.of_N (N_of_ascii c)) (String.list_ascii_of_string s).

End JsNumber.

(** ** ipService: fingerprint, report and remote checks *)

Module IpServiceEffects.
Import JsString JsNumber Browser IpService Effects.
Local Open Scope Z_scope.
Local Open Scope effect_scope.

(** The attributes read by [generateDeviceId]. *)
Record device : Type := Device {
  userAgent : string;
  language : string;
  timezoneOffset : Z;
  colorDepth : Z;
  screen_width : Z;
  screen_height : Z;
  hardwareConcurrency : option Z   (* [None]: the property is undefined *)
}.

(** [navigator.hardwareConcurrency || ''] as it is joined. *)
Definition hardwareConcurrency_text (d : device) : string :=
  match hardwareConcurrency d with
  | Some n => if n =? 0 then "" else toString 10 n
  | None => ""
  end.

Definition components (d : device) : list string :=
  [ userAgent d;
    language d;
    toString 10 (timezoneOffset d);
    toString 10 (colorDepth d);
    toString 10 (screen_width d) +:+ "x" +:+ toString 10 (screen_height d);
    hardwareConcurrency_text d ].

(** One turn of the loop:
    [hash = ((hash << 5) - hash) + str.charCodeAt(i); hash |= 0]. *)
Definition hash_step (hash code : Z) : Z :=
  to_int32 ((shl32 hash 5 - hash) + code).

Definition simple_hash (str : string) : Z :=
  fold_left hash_step (char_codes str) 0.

(** The part of the identifier computed from the attributes. *)
Definition fingerprint (d : device) : string :=
  "dev_" +:+ toString 16 (Z.abs (simple_hash (join "|||" (components d)))).

(** [generateDeviceId], with the reading of [Date.now()] as [now]. *)
Definition generateDeviceId (d : device) (now : Z) : string :=
  fingerprint d +:+ "_" +:+ toString 36 now.

(** A desktop browser, for the examples. *)
Definition sample_device : device :=
  {| userAgent := "Mozilla/5.0 (X11; Linux x86_64)";
     language := "en-US";
     timezoneOffset := -120;
     colorDepth := 24;
     screen_width := 1920;
     screen_height := 1080;
     hardwareConcurrency := Some 8 |}.

(** [s.includes(sub)] *)
Fixpoint includes (s sub : string) : bool :=
  startsWith s sub ||
  match s with
  | EmptyString => false
  | String _ s' => includes s' sub
  end.

(** *** The world of the effectful functions *)

Inductive payload : Type :=
| DesktopReport (deviceId userAgent : string) (isAboutBlank : bool)
                (width height : Z)
| DeviceRegistration (deviceId : string).

Inductive request : Type :=
| GET (url : string)
| POST (url : string) (data : payload).

Record world : Type := World {
  store : stores;
  requests : list request   (* the requests issued so far, oldest first *)
}.

(** The fields the sources read from a JSON answer of the ban
    endpoints: [status] (compared with ['banned']), [isBanned] (tested
    for truth) and [ip]; a field that is absent is [None], or false. *)
Record reply_fields : Type := Fields {
  data_status : option string;
  data_isBanned : bool;
  data_ip : option string
}.

(** A parsed body: the JSON value [null], or a value whose properties can
    be read. *)
Inductive reply : Type :=
| NullReply
| Object (fields : reply_fields).

Inductive fetched (B : Type) : Type :=
| Rejected                       (* [fetch] rejects: no answer *)
| Responded (ok : bool) (body : option B).
    (* [body = None]: [response.json()] rejects *)
Arguments Rejected {B}.
Arguments Responded {B} ok body.

Record ban_result : Type := BanResult {
  isBanned : bool;
  ip : option string
}.

Definition on_store (f : stores → stores) (w : world) : world :=
  {| store := f (store w); requests := requests w |}.

Definition issue (r : request) (w : world) : world :=
  {| store := store w; requests := requests w ++ [r] |}.

Definition localStorage_setItem (k v : string) : M world unit :=
  modify (on_store (λ st, {| localStorage := setItem k v (localStorage st);
                             sessionStorage := sessionStorage st;
                             cookie_jar := cookie_jar st |})).

Definition sessionStorage_setItem (k v : string) : M world unit :=
  modify (on_store (λ st, {| localStorage := localStorage st;
                             sessionStorage := setItem k v (sessionStorage st);
                             cookie_jar := cookie_jar st |})).

Definition assign_document_cookie (text : string) : M world unit :=
  modify (on_store (λ st, {| localStorage := localStorage st;
                             sessionStorage := sessionStorage st;
                             cookie_jar := set_document_cookie text (cookie_jar st) |})).

Definition localStorage_getItem (k : string) : M world (option string) :=
  read (λ w, getItem (localStorage (store w)) k).

(** [data.field]: reading a property throws on [null] only. *)
Definition property {A} (field : reply_fields → A) (data : reply) : M world A :=
  match data with
  | Object fields => ret (field fields)
  | NullReply => throw "TypeError: Cannot read properties of null"
  end.

Section Environment.

(** What the page cannot control: the device, the clock, the address
    of the page, the answers of the server to [fetch], and whether an
    [apiRequest] (imported from the query client) resolves. *)
Variable this_device : device.
Variable now : Z.
Variable location_href : string.
Variable server : string → fetched reply.
Variable apiRequest_resolves : request → bool.

(** [await fetch(url, { method: "GET", ... })] *)
Definition fetch (url : string) : M world (bool * option reply) :=
  modify (issue (GET url));;
  match server url with
  | Rejected => throw "TypeError: Failed to fetch"
  | Responded ok body => ret (ok, body)
  end.

(** [await response.json()] *)
Definition json (response : bool * option reply) : M world reply :=
  match snd response with
  | Some data => ret data
  | None => throw "SyntaxError: Unexpected token"
  end.

(** [await apiRequest("POST", url, data)] *)
Definition apiRequest (url : string) (data : payload) : M world unit :=
  modify (issue (POST url data));;
  if apiRequest_resolves (POST url data) then ret tt
  else throw "Error: request failed".

Definition markLocalBan_ : M world unit := modify (on_store markLocalBan).

Definition isLocallyBanned_ : M world bool := read (λ w, isLocallyBanned (store w)).

(** [registerDeviceId] *)
Definition registerDeviceId (deviceId : string) : M world unit :=
  try_catch
    (apiRequest "/api/admin/register-device" (DeviceRegistration deviceId))
    (λ error, ret tt).

(** [reportDesktopAccess] *)
Definition reportDesktopAccess : M world unit :=
  try_catch
    (let deviceId := generateDeviceId this_device now in
     localStorage_setItem BANNED_DEVICE_KEY deviceId;;
     localStorage_setItem BANNED_KEY "true";;
     sessionStorage_setItem BANNED_KEY "true";;
     assign_document_cookie ban_cookie;;
     apiRequest "/api/admin/report-desktop-access"
           (DesktopReport deviceId (userAgent this_device)
              (includes location_href "about:blank")
              (screen_width this_device) (screen_height this_device));;
     ret tt)
    (λ error,
     localStorage_setItem BANNED_KEY "true";;
     sessionStorage_setItem BANNED_KEY "true").

(** Step 2 of [checkIfBanned]: the stored device id. *)
Definition check_device (deviceId : option string) : M world (option ban_result) :=
  match deviceId with
  | Some id =>
      if truthy deviceId then
        try_catch
          (let* deviceResponse := fetch ("/api/check-device/" +:+ id) in
           if fst deviceResponse then
             let* deviceData := json deviceResponse in
             let* status := property data_status deviceData in
             if bool_decide (status = Some "banned") then
               markLocalBan_;;
               ret (Some {| isBanned := true; ip := None |})
             else ret None
           else ret None)
          (λ deviceError, ret None)
      else ret None
  | None => ret None
  end.

(** Step 3: the status of the current IP. *)
Definition check_ip_status (deviceId : option string) : M world (option ban_result) :=
  try_catch
    (let* ipResponse := fetch "/api/check-ip-status" in
     if fst ipResponse then
       let* ipData := json ipResponse in
       let* status := property data_status ipData in
       if bool_decide (status = Some "banned") then
         markLocalBan_;;
         match deviceId with
         | Some id => if truthy deviceId then registerDeviceId id else ret tt
         | None => ret tt
         end;;
         let* ip := property data_ip ipData in
         ret (Some {| isBanned := true; ip := ip |})
       else
         let* ip := property data_ip ipData in
         ret (Some {| isBanned := false; ip := ip |})
     else ret None)
    (λ ipError, ret None).

(** Step 4: the older endpoint, as a backup. *)
Definition check_legacy : M world (option ban_result) :=
  try_catch
    (let* legacyResponse := fetch "/api/admin/check-ip-banned" in
     if fst legacyResponse then
       let* data := json legacyResponse in
       let* banned := property data_isBanned data in
       if banned then
         markLocalBan_;;
         let* ip := property data_ip data in
         ret (Some {| isBanned := true; ip := ip |})
       else
         let* ip := property data_ip data in
         ret (Some {| isBanned := false; ip := ip |})
     else ret None)
    (λ legacyError, ret None).

(** The [catch] block of [checkIfBanned]. *)
Definition checkIfBanned_fallback (error : string) : M world ban_result :=
  let* isLocallyBanned := isLocallyBanned_ in
  if isLocallyBanned then ret {| isBanned := true; ip := None |}
  else ret {| isBanned := false; ip := None |}.

(** [checkIfBanned] *)
Definition checkIfBanned : M world ban_result :=
  try_catch
    (let* isLocallyBanned := isLocallyBanned_ in
     if isLocallyBanned then ret {| isBanned := true; ip := None |}
     else
       let* deviceId := localStorage_getItem BANNED_DEVICE_KEY in
       or_else (check_device deviceId)
         (or_else (check_ip_status deviceId)
            (or_else check_legacy
               (ret {| isBanned := false; ip := None |}))))
    checkIfBanned_fallback.

End Environment.

End IpServiceEffects.

(** ** The ban checks, told as a specification *)

Module BanChecks.
Import JsString Browser IpService Effects IpServiceEffects.

Definition device_url (id : string) : string := "/api/check-device/" +:+ id.
Definition ip_status_url : string := "/api/check-ip-status".
Definition legacy_url : string := "/api/admin/check-ip-banned".

(** An endpoint answers when the response is OK and its body can be
    read; anything else (no response, a status that is not OK, a body
    that is not JSON or is [null]) is no answer. *)
Definition answer (f : fetched reply) : option reply_fields :=
  match f with
  | Responded true (Some (Object data)) => Some data
  | _ => None
  end.

Definition status_banned (data : reply_fields) : bool :=
  bool_decide (data_status data = Some "banned").

(** The stored-device-id endpoint finds a ban. *)
Definition device_positive (server : string → fetched reply) (deviceId : option string) : bool :=
  match deviceId with
  | Some id =>
      truthy deviceId &&
      match answer (server (device_url id)) with
      | Some data => status_banned data
      | None => false
      end
  | None => false
  end.

(** The verdict of the IP checks: the IP-status endpoint decides when it
    answers; the legacy endpoint is asked only when it does not. *)
Definition ip_verdict (server : string → fetched reply) : ban_result :=
  match answer (server ip_status_url) with
  | Some ipData => {| isBanned := status_banned ipData; ip := data_ip ipData |}
  | None =>
      match answer (server legacy_url) with
      | Some data => {| isBanned := data_isBanned data; ip := data_ip data |}
      | None => {| isBanned := false; ip := None |}
      end
  end.

Definition remote_verdict (server : string → fetched reply) (deviceId : option string)
  : ban_result :=
  if device_positive server deviceId then {| isBanned := true; ip := None |}
  else ip_verdict server.

Definition is_GET (r : request) : bool :=
  match r with GET _ => true | POST _ _ => false end.

(** The order in which the endpoints are consulted. *)
Definition device_requests (deviceId : option string) : list request :=
  match deviceId with
  | Some id => if truthy deviceId then [GET (device_url id)] else []
  | None => []
  end.

Definition check_order (deviceId : option string) : list request :=
  device_requests deviceId ++ [GET ip_status_url; GET legacy_url].

Definition registration_requests (deviceId : option string) : list request :=
  match deviceId with
  | Some id =>
      if truthy deviceId
      then [POST "/api/admin/register-device" (DeviceRegistration id)] else []
  | None => []
  end.

(** The requests one call issues when the device is not locally banned. *)
Definition issued (server : string → fetched reply) (deviceId : option string)
  : list request :=
  if device_positive server deviceId then device_requests deviceId
  else
    device_requests deviceId ++ GET ip_status_url ::
    match answer (server ip_status_url) with
    | Some ipData =>
        if status_banned ipData then registration_requests deviceId else []
    | None => [GET legacy_url]
    end.

(** What a step leaves behind: the requests it issued, and the local
    ban when it found one. *)
Definition after (w : world) (sent : list request) (marked : bool) : world :=
  {| store := if marked then markLocalBan (store w) else store w;
     requests := requests w ++ sent |}.

(** A server whose IP-status endpoint reports no ban while its legacy
    endpoint reports one. *)
Definition split_server (url : string) : fetched reply :=
  if String.eqb url ip_status_url then
    Responded true (Some (Object {| data_status := Some "ok"; data_isBanned := false;
                                    data_ip := Some "203.0.113.7" |}))
  else if String.eqb url legacy_url then
    Responded true (Some (Object {| data_status := None; data_isBanned := true;
                                    data_ip := Some "203.0.113.7" |}))
  else Rejected.

Definition fresh_world : world :=
  {| store := {| localStorage := ∅; sessionStorage := ∅; cookie_jar := [] |};
     requests := [] |}.

End BanChecks.

(** ** The regular expressions of the postal-code table *)

Module Regex.
Import JsString.

(** The constructs that occur in the patterns; every pattern of the table
    is anchored at both ends. *)
Inductive re : Type :=
| Digit                          (* \d *)
| Chr (c : ascii)                (* a literal character *)
| Range (lo hi : ascii)          (* [lo-hi] *)
| Opt (r : re)                   (* r? *)
| Rep (n : nat) (r : re)         (* r{n} *)
| Seq (r1 r2 : re).

Definition is_digit (c : ascii) : bool :=
  let n := N_of_ascii c in ((48 <=? n) && (n <=? 57))%N.

Definition in_range (lo hi c : ascii) : bool :=
  ((N_of_ascii lo <=? N_of_ascii c) && (N_of_ascii c <=? N_of_ascii hi))%N.

Definition one_char (accepts : ascii → bool) (s : string) : list string :=
  match s with
  | String c rest => if accepts c then [rest] else []
  | EmptyString => []
  end.

(** Every way [r] can match a prefix of [s], as the text left over. *)
Fixpoint remainders (r : re) (s : string) : list string :=
  match r with
  | Digit => one_char is_digit s
  | Chr c => one_char (Ascii.eqb c) s
  | Range lo hi => one_char (in_range lo hi) s
  | Opt r' => remainders r' s ++ [s]
  | Rep n r' =>
      (fix times (n : nat) (s : string) : list string :=
         match n with
         | O => [s]
         | S n' => flat_map (times n') (remainders r' s)
         end) n s
  | Seq r1 r2 => flat_map (remainders r2) (remainders r1 s)
  end.

(** Stripping [n] digits from the front of a text, when it has them. *)
Fixpoint take_digits (n : nat) (s : string) : option string :=
  match n with
  | O => Some s
  | S n' =>
      match s with
      | String c rest => if is_digit c then take_digits n' rest else None
      | EmptyString => None
      end
  end.

(** [/^r$/.test(s)] *)
Definition test (r : re) (s : string) : bool :=
  existsb (String.eqb EmptyString) (remainders r s).

End Regex.

(** ** GeolocationService: the format of a postal code *)

Module PostalCodeFormat.
Import JsString Regex.

Definition to_upper_char (c : ascii) : ascii :=
  let n := N_of_ascii c in
  if ((97 <=? n) && (n <=? 122))%N then ascii_of_N (n - 32) else c.

(** [s.toUpperCase()] on the letters a to z, as the key of a table of
    country codes is made.  The engine also maps letters above 127; none
    of them becomes a text of the letters A to Z that is a key of the
    tables (the sharp s becomes [SS]), so that the look-up finds the same
    for every text of code units below 256. *)
Fixpoint toUpperCase (s : string) : string :=
  match s with
  | EmptyString => EmptyString
  | String c rest => String (to_upper_char c) (toUpperCase rest)
  end.

(** [code.replace(/\s/g, '')] *)
Fixpoint remove_white_space (s : string) : string :=
  match s with
  | EmptyString => EmptyString
  | String c rest =>
      if is_white_space c then remove_white_space rest
      else String c (remove_white_space rest)
  end.

Definition patterns : gmap string re :=
  list_to_map
    [ ("CL", Rep 7 Digit);
      ("AR", Seq (Range "A" "Z") (Seq (Rep 4 Digit) (Rep 3 (Range "A" "Z"))));
      ("MX", Rep 5 Digit);
      ("ES", Rep 5 Digit);
      ("BR", Seq (Rep 5 Digit) (Seq (Opt (Chr "-")) (Rep 3 Digit))) ].

(** [validatePostalCodeFormat] *)
Definition validatePostalCodeFormat (code country : string) : bool :=
  match patterns !! toUpperCase country with
  | Some pattern => test pattern (remove_white_space code)
  | None => true
  end.

(** *** The shapes as the specification words them *)

Definition all_digits (s : string) : Prop :=
  Forall (λ c, is_digit c = true) (String.list_ascii_of_string s).

(** Five digits, optionally a hyphen, and three digits. *)
Definition cep_shape (s : string) : Prop :=
  ∃ five three,
    String.length five = 5 ∧ all_digits five ∧
    String.length three = 3 ∧ all_digits three ∧
    (s = five +:+ three ∨ s = five +:+ "-" +:+ three).

Definition seven_digits (s : string) : Prop :=
  String.length s = 7 ∧ all_digits s.

(** The characters of the class [\s] among the code units below 256:
    tab, line feed, vertical tab, form feed, carriage return, space and
    the no-break space. *)
Definition white_space_characters : list ascii :=
  [ "009"%char; "010"%char; "011"%char; "012"%char; "013"%char; " "%char;
    "160"%char ].

(** A text without the characters of a list: the other characters, in
    their order. *)
Definition without (chars : list ascii) (s : string) : string :=
  String.string_of_list_ascii
    (List.filter (λ c, negb (existsb (Ascii.eqb c) chars))
                 (String.list_ascii_of_string s)).

(** Two texts that differ at most in the case of their letters. *)
Fixpoint eq_ignore_case (a b : string) : bool :=
  match a, b with
  | EmptyString, EmptyString => true
  | String x a', String y b' =>
      Ascii.eqb (to_upper_char x) (to_upper_char y) && eq_ignore_case a' b'
  | _, _ => false
  end.

Definition table_countries : list string := ["CL"; "AR"; "MX"; "ES"; "BR"].

Definition in_table (country : string) : Prop :=
  ∃ k, k ∈ table_countries ∧ eq_ignore_case country k = true.

End PostalCodeFormat.

(** ** Calendar dates as the Date object shows them *)

Module JsDate.
Local Open Scope Z_scope.

(** The local calendar fields of a Date: the year, the month counted from
    zero as [getMonth] returns it, and the day of the month. *)
Record date : Type := Date {
  year : Z;
  month : Z;
  day : Z
}.

Definition is_leap (y : Z) : bool :=
  (y mod 4 =? 0) && (negb (y mod 100 =? 0) || (y mod 400 =? 0)).

Definition days_in_month (y m : Z) : Z :=
  if m =? 1 then (if is_leap y then 29 else 28)
  else if (m =? 3) || (m =? 5) || (m =? 8) || (m =? 10) then 30
  else 31.

Definition valid_date (d : date) : Prop :=
  0 <= month d < 12 ∧ 1 <= day d <= days_in_month (year d) (month d).

Definition getDate (d : date) : Z := day d.
Definition getMonth (d : date) : Z := month d.

(** Days from the first of January 1970 to the first of January of [y]. *)
Definition day_from_year (y : Z) : Z :=
  365 * (y - 1970) + (y - 1969) / 4 - (y - 1901) / 100 + (y - 1601) / 400.

Fixpoint days_before_month (y : Z) (m : nat) : Z :=
  match m with
  | O => 0
  | S m' => days_before_month y m' + days_in_month y (Z.of_nat m')
  end.

Definition day_number (d : date) : Z :=
  day_from_year (year d) + days_before_month (year d) (Z.to_nat (month d)) + day d - 1.

(** [getDay]: 0 is Sunday; the first of January 1970 was a Thursday. *)
Definition getDay (d : date) : Z := (day_number d + 4) mod 7.

(** Carrying a day of the month that is past the end of its month into
    the months that follow, and one that is before the first into the
    months before. *)
Fixpoint carry_forward (fuel : nat) (y m n : Z) : date :=
  match fuel with
  | O => Date y m n
  | S fuel' =>
      if n <=? days_in_month y m then Date y m n
      else if m =? 11 then carry_forward fuel' (y + 1) 0 (n - days_in_month y m)
      else carry_forward fuel' y (m + 1) (n - days_in_month y m)
  end.

Fixpoint carry_backward (fuel : nat) (y m n : Z) : date :=
  match fuel with
  | O => Date y m n
  | S fuel' =>
      if 1 <=? n then Date y m n
      else if m =? 0 then carry_backward fuel' (y - 1) 11 (n + days_in_month (y - 1) 11)
      else carry_backward fuel' y (m - 1) (n + days_in_month y (m - 1))
  end.

(** [date.setDate(n)]: the day of the month becomes [n], counted from the
    month the date is in. *)
Definition setDate (n : Z) (d : date) : date :=
  if 1 <=? n then carry_forward (Z.to_nat n) (year d) (month d) n
  else carry_backward (S (Z.to_nat (- n))) (year d) (month d) n.

(** The calendar day after [d]. *)
Definition next_day (d : date) : date :=
  if day d <? days_in_month (year d) (month d)
  then Date (year d) (month d) (day d + 1)
  else if month d =? 11 then Date (year d + 1) 0 1
  else Date (year d) (month d + 1) 1.

End JsDate.

(** ** The Municipios page: the three start dates *)

Module StartDates.
Import JsString JsNumber JsDate.
Local Open Scope Z_scope.

Record entry : Type := Entry {
  full : string;
  value : string
}.

Definition days : list string :=
  [ "Domingo"; "Lunes"; "Martes";
    String "M" (String "i" (String "233" "rcoles"));
    "Jueves"; "Viernes";
    String "S" (String "225" "bado") ].

Definition months : list string :=
  ["01"; "02"; "03"; "04"; "05"; "06"; "07"; "08"; "09"; "10"; "11"; "12"].

(** [list[i]]; a position outside the list gives ['undefined'] once it is
    put into a template. *)
Definition item (l : list string) (i : Z) : string :=
  if i <? 0 then "undefined" else nth (Z.to_nat i) l "undefined".

(** The entry pushed for one [date]. *)
Definition entry_of (date : date) : entry :=
  let dayName := item days (getDay date) in
  let dayNumber := getDate date in
  let monthNumber := item months (getMonth date) in
  {| full := dayName +:+ " " +:+ toString 10 dayNumber +:+ "/" +:+ monthNumber;
     value := toString 10 dayNumber +:+ "/" +:+ monthNumber +:+ "/2025" |}.

(** [getNextThreeDays]: [today] is the first [new Date()]; [fresh] gives
    the [new Date()] of each turn of the loop. *)
Definition getNextThreeDays (today : date) (fresh : Z → date) : list entry :=
  map (λ i, entry_of (setDate (getDate today + i) (fresh i))) [1; 2; 3].

(** *** The entries as the specification words them *)

(** A number below 100 written with two digits. *)
Definition two_digits (n : Z) : string :=
  if n <? 10 then "0" +:+ toString 10 n else toString 10 n.

(** The Spanish name of a day of the week, 0 being Sunday. *)
Definition weekday_name (d : Z) : string :=
  if d =? 0 then "Domingo"
  else if d =? 1 then "Lunes"
  else if d =? 2 then "Martes"
  else if d =? 3 then String "M" (String "i" (String "233" "rcoles"))
  else if d =? 4 then "Jueves"
  else if d =? 5 then "Viernes"
  else String "S" (String "225" "bado").

(** The day of the month as it is counted, a slash, and the month of the
    calendar in two digits. *)
Definition day_month (d : date) : string :=
  toString 10 (day d) +:+ "/" +:+ two_digits (month d + 1).

(** The first of February has been read for the loop, the thirty-first
    of January before it: midnight has passed between the readings. *)
Definition last_of_january : date := Date 2025 0 31.
Definition first_of_february : date := Date 2025 1 1.

(** [s.endsWith(suffix)] *)
Definition endsWith (s suffix : string) : bool :=
  startsWith (String.string_of_list_ascii (rev (String.list_ascii_of_string s)))
             (String.string_of_list_ascii (rev (String.list_ascii_of_string suffix))).

End StartDates.

(** ** Double-precision numbers, as far as the random estimates need them *)

Module JsDouble.
Local Open Scope Z_scope.

(** A finite double that is not negative: [mantissa * 2 ^ exponent], the
    mantissa below [2 ^ 53]. *)
Record double : Type := Double {
  mantissa : Z;
  exponent : Z
}.

Definition of_Z (n : Z) : double := {| mantissa := n; exponent := 0 |}.

(** [m / 2 ^ k] rounded to the nearest integer, a tie to the even one. *)
Definition round_shift (m k : Z) : Z :=
  let q := m / 2 ^ k in
  let r := m mod 2 ^ k in
  let half := 2 ^ (k - 1) in
  if r <? half then q
  else if half <? r then q + 1
  else if Z.even q then q else q + 1.

(** Rounding an exact result to 53 significant bits, to nearest and a
    tie to even.  The products taken here are far from the ends of the
    exponent range, so no overflow or underflow is involved. *)
Definition round53 (m e : Z) : double :=
  if m <? 2 ^ 53 then {| mantissa := m; exponent := e |}
  else
    let k := Z.log2 m - 52 in
    {| mantissa := round_shift m k; exponent := e + k |}.

(** [a * b]: the exact product, rounded. *)
Definition mul (a b : double) : double :=
  round53 (mantissa a * mantissa b) (exponent a + exponent b).

(** [Math.floor(x)] *)
Definition floor (x : double) : Z := Z.shiftl (mantissa x) (exponent x).

(** What [Math.random()] may return: a double from 0 up to but not
    including 1. *)
Definition in_unit_interval (r : double) : Prop :=
  0 <= mantissa r < 2 ^ 53 ∧ -1074 <= exponent r ∧ mantissa r < 2 ^ (- exponent r).

End JsDouble.

(** ** The Municipios page: the random delivery estimate *)

Module Entregas.
Import JsDouble.
Local Open Scope Z_scope.

(** [getRandomEntregas], with the value [Math.random()] returned:
    [Math.floor(Math.random() * (48 - 32 + 1)) + 32].  The floor is a
    small integer, and adding 32 to it is exact. *)
Definition getRandomEntregas (random : double) : Z :=
  floor (mul random (of_Z (48 - 32 + 1))) + 32.

End Entregas.

(** ** Arrays: the methods the services use *)

Module JsArray.

(** [self.findIndex(p)]: the first position that satisfies [p], or -1. *)
Fixpoint findIndex {A} (p : A → bool) (l : list A) : Z :=
  match l with
  | [] => -1
  | x :: rest =>
      if p x then 0
      else match findIndex p rest with
           | Zneg _ => -1
           | i => Z.succ i
           end
  end%Z.

(** [self.filter((x, index) => p(index, x))], counting from [i]. *)
Fixpoint filter_from {A} (p : nat → A → bool) (i : nat) (l : list A) : list A :=
  match l with
  | [] => []
  | x :: rest =>
      if p i x then x :: filter_from p (S i) rest else filter_from p (S i) rest
  end.

(** Where [x] goes in a list that is already in order: before the first
    element it does not have to follow. *)
Fixpoint insert {A} (cmp : A → A → comparison) (x : A) (l : list A) : list A :=
  match l with
  | [] => [x]
  | y :: rest =>
      match cmp x y with
      | Gt => y :: insert cmp x rest
      | _ => x :: l
      end
  end.

(** [self.sort(cmp)], with [cmp] giving the sign of what the comparator
    returns.  The sort of the language is stable; for a comparator that
    is a consistent ordering every stable sort gives this result.  For a
    comparator that is not one the language leaves the order to the
    engine, and this definition then gives one of the orders an engine
    may give: what is proved of such a result is that it holds the same
    elements. *)
Definition sort {A} (cmp : A → A → comparison) (l : list A) : list A :=
  fold_right (insert cmp) [] l.

End JsArray.

(** ** GeolocationService: the Zipcodebase look-ups *)

Module Geolocation.
Import JsString JsNumber JsArray Effects.
Local Open Scope effect_scope.

Record Municipality : Type := {
  city : string;
  state : option string;
  postal_code : option string;
  distance : option Q
}.

Record PostalCodeValidationResult : Type := {
  isValid : bool;
  country : string;
  region : option string;
  result_city : option string;
  error : option string
}.

(** One element of the [results] array of the radius API, by the fields
    the two copies of the service read; a field that is absent is [None],
    a distance is a JSON number. *)
Record radius_item : Type := {
  item_code : option string;
  item_postal_code : option string;
  item_city : option string;
  item_city_name : option string;
  item_state : option string;
  item_state_name : option string;
  item_province : option string;
  item_distance : option Q
}.

(** One element of [results[code]] of the search API. *)
Record search_item : Type := {
  country_code : option string;
  search_state : option string;
  search_province : option string;
  search_city : option string
}.

(** The body of an answer once parsed: the JSON value [null]; or the
    radius API's [results], which is [None] when the field is missing or
    is not an array; or the search API's [results], an object from codes
    to arrays of objects, [None] when the field is missing. *)
Inductive body : Type :=
| NullBody
| RadiusBody (results : option (list radius_item))
| SearchBody (results : option (gmap string (list search_item))).

Definition radius_results (data : body) : option (list radius_item) :=
  match data with RadiusBody results => results | _ => None end.

Definition search_results (data : body) : option (gmap string (list search_item)) :=
  match data with SearchBody results => results | _ => None end.

(** What [fetch] gives: no response at all, or a response with its
    status and, when the body is JSON, the parsed body. *)
Inductive fetched : Type :=
| Rejected
| Responded (status : Z) (parsed : option body).

(** [response.ok] *)
Definition ok (status : Z) : bool := ((200 <=? status) && (status <=? 299))%Z.

(** The world of the service: the addresses fetched so far. *)
Definition fetch (network : string → fetched) (url : string)
  : M (list string) (Z * option body) :=
  modify (λ urls, urls ++ [url]);;
  match network url with
  | Rejected => throw "TypeError: Failed to fetch"
  | Responded status parsed => ret (status, parsed)
  end.

(** [await response.json()] *)
Definition json (response : Z * option body) : M (list string) body :=
  match snd response with
  | Some data => ret data
  | None => throw "SyntaxError: Unexpected token"
  end.

(** [data.results]: reading the property throws on [null] only. *)
Definition results_of {A} (view : body → option A) (data : body)
  : M (list string) (option A) :=
  match data with
  | NullBody => throw "TypeError: Cannot read properties of null"
  | _ => ret (view data)
  end.

Definition ZIPCODEBASE_API_KEY : string := "fc9584d0-4f0a-11f0-9a26-9f6dbeaee456".

(** [a || b] on strings that may be absent. *)
Definition or_else_text (a b : option string) : option string :=
  if truthy a then a else b.

Definition or_default (a : option string) (default : string) : string :=
  match or_else_text a (Some default) with
  | Some s => s
  | None => default
  end.

(** A number is true unless it is zero. *)
Definition nonzero (q : Q) : bool := negb (Qeq_bool q 0).

(** [parseFloat(x.toString())] and [parseFloat(x)] of a number give the
    number back. *)
Definition parseFloat (q : Q) : Q := q.

Definition radius_url (postalCode country : string) (radius : Z) : string :=
  "https://app.zipcodebase.com/api/v1/radius?apikey=" +:+ ZIPCODEBASE_API_KEY
  +:+ "&code=" +:+ postalCode +:+ "&country=" +:+ country
  +:+ "&radius=" +:+ toString 10 radius +:+ "&unit=" +:+ "km".

Definition search_url (code country : string) : string :=
  "https://app.zipcodebase.com/api/v1/search?apikey=" +:+ ZIPCODEBASE_API_KEY
  +:+ "&codes=" +:+ code +:+ "&country=" +:+ country.

(** Removing duplicates by city: an element stays when it is the first of
    its city. *)
Definition unique_by_city (municipalities : list Municipality) : list Municipality :=
  filter_from
    (λ index municipality,
       Z.eqb (Z.of_nat index)
             (findIndex (λ m, String.eqb (city m) (city municipality)) municipalities))
    0 municipalities.

(** The same, told as a walk through the list that remembers the cities
    already met. *)
Fixpoint first_of_each_city (seen : list string) (l : list Municipality)
  : list Municipality :=
  match l with
  | [] => []
  | m :: rest =>
      if existsb (String.eqb (city m)) seen then first_of_each_city seen rest
      else m :: first_of_each_city (seen ++ [city m]) rest
  end.

(** *** The service of [client/src/services/GeolocationService.ts] *)

Definition to_municipality (item : radius_item) : Municipality :=
  {| city := or_default (item_city item) "Ciudad Desconocida";
     state := Some (or_default (item_state item) "");
     postal_code := item_code item;
     distance := match item_distance item with
                 | Some d => if nonzero d then Some (parseFloat d) else Some 0%Q
                 | None => Some 0%Q
                 end |}.

(** [a.distance || 999] *)
Definition distance_or_999 (m : Municipality) : Q :=
  match distance m with
  | Some d => if nonzero d then d else 999%Q
  | None => 999%Q
  end.

(** The sign of [distA - distB]. *)
Definition by_distance (a b : Municipality) : comparison :=
  Qcompare (distance_or_999 a) (distance_or_999 b).

(** The distance of an item as the sort is meant to use it: an item
    without a distance is taken to be 999 away. *)
Definition item_sort_distance (item : radius_item) : Q :=
  match item_distance item with
  | Some d => d
  | None => 999%Q
  end.

(** The item has no distance, or one that is not zero. *)
Definition no_zero_distance (item : radius_item) : bool :=
  match item_distance item with
  | Some d => nonzero d
  | None => true
  end.

Definition non_decreasing (key : Municipality → Q) (l : list Municipality) : Prop :=
  Sorted (λ a b, (key a <= key b)%Q) l.

(** The distance as the field holds it; a field without a number counts
    as zero. *)
Definition distance_field (m : Municipality) : Q :=
  match distance m with Some d => d | None => 0%Q end.

Definition nearby (results : list radius_item) : list Municipality :=
  sort by_distance (unique_by_city (map to_municipality results)).

Definition getNearbyMunicipalities (network : string → fetched)
    (postalCode country : string) (radius : Z) : M (list string) (list Municipality) :=
  try_catch
    (let* response := fetch network (radius_url postalCode country radius) in
     if negb (ok (fst response)) then
       throw ("Error: HTTP error! status: " +:+ toString 10 (fst response))
     else
       let* data := json response in
       let* results := results_of radius_results data in
       match results with
       | None => ret []
       | Some results => ret (nearby results)
       end)
    (λ error, throw error).

(** The message for a code the API does not know; its accented letters
    are the code units 243 and 227. *)
Definition NOT_FOUND : string :=
  String "C" (String "243" "digo postal n") +:+ String "227" "o encontrado".

(** [validatePostalCodeWithZipcodebase].  [data.results[code]] is read
    from the table of the answer; a code that names a property every
    object inherits (['constructor'] and the like) finds that property
    in the source and nothing here: both end in the result that is not
    valid, the source with another message. *)
Definition validatePostalCodeWithZipcodebase (network : string → fetched)
    (code country : string) : M (list string) PostalCodeValidationResult :=
  try_catch
    (let* response := fetch network (search_url code country) in
     if negb (ok (fst response)) then
       throw ("Error: HTTP error! status: " +:+ toString 10 (fst response))
     else
       let* data := json response in
       let* results := results_of search_results data in
       match results ≫= (λ table, table !! code) with
       | Some (result :: _) =>
           ret {| isValid := true;
                  country := or_default (country_code result) country;
                  region := or_else_text (search_state result) (search_province result);
                  result_city := search_city result;
                  error := None |}
       | _ =>
           ret {| isValid := false; country := country; region := None;
                  result_city := None;
                  error := Some NOT_FOUND |}
       end)
    (λ error,
       ret {| isValid := false; country := country; region := None;
              result_city := None;
              error := Some "API returned invalid response" |}).

(** No usable answer: no response, a status that is not OK, or a body
    that is not JSON or is [null]. *)
Definition no_answer (f : fetched) : Prop :=
  match f with
  | Rejected => True
  | Responded status parsed =>
      ok status = false ∨ parsed = None ∨ parsed = Some NullBody
  end.

(** *** Sample answers of the radius API *)

Definition sample_item (code city : string) (km : option Q) : radius_item :=
  {| item_code := Some code; item_postal_code := None;
     item_city := Some city; item_city_name := None;
     item_state := Some "RM"; item_state_name := None; item_province := None;
     item_distance := km |}.

(** A first item that carries no distance, and a second at 2.5 km. *)
Definition sample_results : list radius_item :=
  [ sample_item "7500000" "Santiago" None;
    sample_item "7510000" "Providencia" (Some (5 # 2)) ].

Definition sample_network (results : list radius_item) (url : string) : fetched :=
  Responded 200 (Some (RadiusBody (Some results))).

Definition failing_network (url : string) : fetched := Responded 500 None.

(** The API answered OK with a result array for the code that is not
    empty; [first] is its first element. *)
Definition found (network : string → fetched) (code country : string)
    (first : search_item) : Prop :=
  ∃ status results rest,
    network (search_url code country) = Responded status (Some (SearchBody (Some results)))
    ∧ ok status = true
    ∧ results !! code = Some (first :: rest).

Definition valid_result (country : string) (first : search_item)
  : PostalCodeValidationResult :=
  {| isValid := true;
     country := or_default (country_code first) country;
     region := or_else_text (search_state first) (search_province first);
     result_city := search_city first;
     error := None |}.

(** *** The copy of the service kept beside the Municipios page *)

Section OtherCopy.

(** The sign of [a.localeCompare(b)], which the engine's collation
    decides. *)
Variable localeCompare : string → string → comparison.

Definition to_municipality' (item : radius_item) : Municipality :=
  {| city := or_default (or_else_text (item_city item) (item_city_name item))
                        "Ciudad Desconocida";
     state := or_else_text (or_else_text (item_state item) (item_state_name item))
                           (item_province item);
     postal_code := or_else_text (item_postal_code item) (item_code item);
     distance := match item_distance item with
                 | Some d => if nonzero d then Some (parseFloat d) else None
                 | None => None
                 end |}.

Definition by_distance_or_name (a b : Municipality) : comparison :=
  match distance a, distance b with
  | Some x, Some y => Qcompare x y
  | _, _ => localeCompare (city a) (city b)
  end.

Definition nearby' (results : list radius_item) : list Municipality :=
  sort by_distance_or_name (unique_by_city (map to_municipality' results)).

Definition getNearbyMunicipalities' (network : string → fetched)
    (postalCode country : string) (radius : Z) : M (list string) (list Municipality) :=
  try_catch
    (let* response := fetch network (radius_url postalCode country radius) in
     if negb (ok (fst response)) then
       throw ("Error: HTTP error! status: " +:+ toString 10 (fst response))
     else
       let* data := json response in
       let* results := results_of radius_results data in
       match results with
       | None => ret []
       | Some results => ret (nearby' results)
       end)
    (λ error, ret []).

End OtherCopy.

(** An item on which the two copies read the same fields: it has a city,
    a state and a distance that is not zero, and no [postal_code] of its
    own. *)
Definition complete_item (item : radius_item) : bool :=
  truthy (item_city item) && truthy (item_state item)
  && negb (truthy (item_postal_code item))
  && match item_distance item with Some d => nonzero d | None => false end.

Definition complete_results : list radius_item :=
  [ sample_item "7550000" "Las Condes" (Some (26 # 5));
    sample_item "7510000" "Providencia" (Some (5 # 2));
    sample_item "7510001" "Providencia" (Some (3 # 1)) ].

(** *** Sample answers of the search API *)

Definition sample_search_item : search_item :=
  {| country_code := Some "CL"; search_state := None;
     search_province := Some "Santiago"; search_city := Some "Providencia" |}.

Definition sample_search_network (url : string) : fetched :=
  Responded 200 (Some (SearchBody (Some {[ "7510000" := [sample_search_item] ]}))).

End Geolocation.

(** ** The Municipios page: the lists with their estimates *)

Module MunicipiosPage.
Import JsDouble Entregas Geolocation.
Local Open Scope Z_scope.

Record Municipio : Type := {
  nome : string;
  selecionado : bool;
  entregas : Z;
  municipio_distance : option Q;
  municipio_state : option string
}.

(** The static path, for Brazil: the names of the state's municipalities
    (a table the page imports), each with its own draw.  [random i] is
    what the call of [Math.random()] for the element at position [i]
    returns. *)
Definition municipiosDoEstado (names : list string) (random : nat → double)
  : list Municipio :=
  imap (λ i nome,
          {| nome := nome;
             selecionado := false;
             entregas := getRandomEntregas (random i);
             municipio_distance := None;
             municipio_state := None |})
       names.

(** The path backed by the API: the municipalities the service returned. *)
Definition municipiosFormatados (municipalities : list Municipality)
    (random : nat → double) : list Municipio :=
  imap (λ i municipality,
          {| nome := city municipality;
             selecionado := false;
             entregas := getRandomEntregas (random i);
             municipio_distance := distance municipality;
             municipio_state := state municipality |})
       municipalities.

(** What [handleSubmit] stores for the path backed by the API: every
    selected city with a fresh draw, and the distance and state of the
    municipality of that name when there is one. *)
Record MunicipioComEntregas : Type := {
  stored_nome : string;
  stored_entregas : Z;
  stored_distance : option Q;
  stored_state : option string
}.

Definition municipiosComEntregas (selectedMunicipios : list string)
    (nearbyMunicipalities : list Municipality) (random : nat → double)
  : list MunicipioComEntregas :=
  imap (λ i cityName,
          let municipality :=
            List.find (λ m, String.eqb (city m) cityName) nearbyMunicipalities in
          {| stored_nome := cityName;
             stored_entregas := getRandomEntregas (random i);
             stored_distance := municipality ≫= distance;
             stored_state := municipality ≫= state |})
       selectedMunicipios.

Definition in_range (m : Municipio) : Prop := 32 <= entregas m <= 48.

(** A source that always returns one half. *)
Definition one_half : double := {| mantissa := 1; exponent := -1 |}.

End MunicipiosPage.

(** ** Storage that refuses

    What the browser lets the page do with [localStorage] and
    [sessionStorage].  The stores of [Browser] are the data; whether an
    access reaches them is the state below, which the page cannot change:
    both areas are granted or refused together. *)

Module StorageState.

Inductive storage_state : Type :=
| Working   (* every [getItem] and [setItem] succeeds *)
| NoQuota   (* every [setItem] throws [QuotaExceededError]: the quota is
               zero, as in a private window that grants storage no room;
               [getItem] succeeds *)
| Blocked.  (* every access throws [SecurityError]: storage is disabled
               for the site, or the page is in a frame that is denied
               its origin *)

Definition reads_throw (storage : storage_state) : bool :=
  match storage with
  | Blocked => true
  | _ => false
  end.

Definition writes_throw (storage : storage_state) : bool :=
  match storage with
  | Working => false
  | _ => true
  end.

Definition SecurityError : string := "SecurityError: The operation is insecure.".

Definition QuotaExceededError : string :=
  "QuotaExceededError: The quota has been exceeded.".

(** The error of a refused [setItem]. *)
Definition write_error (storage : storage_state) : string :=
  if reads_throw storage then SecurityError else QuotaExceededError.

End StorageState.

(** ** ipService: the text of a device identifier *)

Module DeviceIdText.

(** The characters a device identifier is made of: the digits, the
    lower-case letters and the underscore.  None of them needs escaping
    in the path [/api/check-device/<id>] the identifier is put into. *)
Definition is_id_char (c : ascii) : bool :=
  let n := N_of_ascii c in
  ((48 <=? n) && (n <=? 57) || (97 <=? n) && (n <=? 122) || (n =? 95))%N.

Definition id_text (s : string) : Prop :=
  Forall (λ c, is_id_char c = true) (String.list_ascii_of_string s).

(** The value of the hash loop before it is cut to 32 bits: every turn
    multiplies by 31 and adds the code of the character. *)
Definition polynomial_31 (codes : list Z) : Z :=
  fold_left (λ hash code, 31 * hash + code)%Z codes 0%Z.

(** A server whose IP-status endpoint reports a ban. *)
Definition banning_server (url : string) : IpServiceEffects.fetched IpServiceEffects.reply :=
  if String.eqb url BanChecks.ip_status_url then
    IpServiceEffects.Responded true
      (Some (IpServiceEffects.Object
               {| IpServiceEffects.data_status := Some "banned";
                  IpServiceEffects.data_isBanned := true;
                  IpServiceEffects.data_ip := Some "203.0.113.7" |}))
  else IpServiceEffects.Rejected.

(** A browser that was reported before: the device identifier and the
    markers are stored, beside a cookie of the site. *)
Definition reported_stores : Browser.stores :=
  {| Browser.localStorage :=
       {[ "sp_device_id" := "dev_628529b8_mhisin40"; "sp_access_blocked" := "true" ]};
     Browser.sessionStorage := {[ "sp_access_blocked" := "true" ]};
     Browser.cookie_jar := [("session", "abc"); ("sp_access_blocked", "true")] |}.

End DeviceIdText.

(** ** Reading an integer from text *)

Module JsParse.
Import JsString.
Local Open Scope Z_scope.

(** The value of a character as a digit of the radix, when it is one:
    the digits, then the letters in either case. *)
Definition digit_of (radix : Z) (c : ascii) : option Z :=
  let n := Z.of_N (N_of_ascii c) in
  let v := if (48 <=? n) && (n <=? 57) then n - 48
           else if (97 <=? n) && (n <=? 122) then n - 87
           else if (65 <=? n) && (n <=? 90) then n - 55
           else radix in
  if v <? radix then Some v else None.

(** The digits a text begins with. *)
Fixpoint leading_digits (radix : Z) (s : string) : list Z :=
  match s with
  | EmptyString => []
  | String c rest =>
      match digit_of radix c with
      | Some d => d :: leading_digits radix rest
      | None => []
      end
  end.

Definition tail (s : string) : string :=
  match s with
  | EmptyString => EmptyString
  | String _ rest => rest
  end.

(** [parseInt(s)] without a radix: leading white space is skipped, a sign
    is read, the prefix [0x] or [0X] selects radix 16 and every other
    text radix 10, and the digits that follow are read up to the first
    character that is not one.  [None] is [NaN]: there was no digit.  The
    value is kept as an exact integer. *)
Definition parseInt (s : string) : option Z :=
  let trimmed := trimStart s in
  let negative := startsWith trimmed "-" in
  let unsigned := if negative || startsWith trimmed "+" then tail trimmed else trimmed in
  let hex := startsWith unsigned "0x" || startsWith unsigned "0X" in
  let radix := if hex then 16 else 10 in
  let numeral := if hex then tail (tail unsigned) else unsigned in
  match leading_digits radix numeral with
  | [] => None
  | ds => Some ((if negative then -1 else 1) * fold_left (λ acc d, acc * radix + d) ds 0)
  end.

(** [a - b > bound] where [b] may be [NaN]: a comparison with [NaN] is
    false. *)
Definition exceeds (a : Z) (b : option Z) (bound : Z) : bool :=
  match b with
  | Some b => bound <? a - b
  | None => false
  end.

End JsParse.

(** ** The desktop protection: the redirect and the hook that uses ipService *)

Module DesktopProtection.
Import JsString JsNumber JsParse Browser IpService Effects IpServiceEffects.
Local Open Scope Z_scope.
Local Open Scope effect_scope.

(** The callback [redirectToBlankPage] hands to [setTimeout]. *)
Inductive task : Type := RetryRedirect.

(** The page as the protection sees and changes it: the stores and the
    requests issued, the address of the window, the address assigned to
    the top window, the body of the document, the pending timeouts and
    the delay of the periodic check while it runs. *)
Record page : Type := Page {
  browser : world;
  href : string;
  top_href : option string;
  body_innerHTML : string;
  body_backgroundColor : string;
  timeouts : list (Z * task);
  intervalCheck : option Z
}.

Definition set_browser (w : world) (p : page) : page :=
  {| browser := w; href := href p; top_href := top_href p;
     body_innerHTML := body_innerHTML p;
     body_backgroundColor := body_backgroundColor p;
     timeouts := timeouts p; intervalCheck := intervalCheck p |}.

Definition set_href (url : string) (p : page) : page :=
  {| browser := browser p; href := url; top_href := top_href p;
     body_innerHTML := body_innerHTML p;
     body_backgroundColor := body_backgroundColor p;
     timeouts := timeouts p; intervalCheck := intervalCheck p |}.

Definition set_top_href (url : string) (p : page) : page :=
  {| browser := browser p; href := href p; top_href := Some url;
     body_innerHTML := body_innerHTML p;
     body_backgroundColor := body_backgroundColor p;
     timeouts := timeouts p; intervalCheck := intervalCheck p |}.

Definition set_body (innerHTML backgroundColor : string) (p : page) : page :=
  {| browser := browser p; href := href p; top_href := top_href p;
     body_innerHTML := innerHTML;
     body_backgroundColor := backgroundColor;
     timeouts := timeouts p; intervalCheck := intervalCheck p |}.

Definition add_timeout (callback : task) (delay : Z) (p : page) : page :=
  {| browser := browser p; href := href p; top_href := top_href p;
     body_innerHTML := body_innerHTML p;
     body_backgroundColor := body_backgroundColor p;
     timeouts := timeouts p ++ [(delay, callback)]; intervalCheck := intervalCheck p |}.

Definition set_intervalCheck (running : option Z) (p : page) : page :=
  {| browser := browser p; href := href p; top_href := top_href p;
     body_innerHTML := body_innerHTML p;
     body_backgroundColor := body_backgroundColor p;
     timeouts := timeouts p; intervalCheck := running |}.

(** A function of ipService run inside the page. *)
Definition lift {A} (c : M world A) : M page A := λ p,
  let '(r, w') := c (browser p) in (r, set_browser w' p).

(** [window.location.href = url]; the browser may refuse the assignment
    and throw. *)
Definition assign_location_href (refused : bool) (url : string) : M page unit :=
  if refused then throw "SecurityError: the operation is insecure"
  else modify (set_href url).

(** The callback of the timeout: a second attempt whose failure is only
    logged. *)
Definition retry_redirect (refused : bool) : M page unit :=
  try_catch (assign_location_href refused "about:blank") (λ innerError, ret tt).

(** [redirectToBlankPage] *)
Definition redirectToBlankPage (refused : bool) : M page unit :=
  lift (localStorage_setItem BANNED_KEY "true");;
  lift (sessionStorage_setItem BANNED_KEY "true");;
  lift (assign_document_cookie ban_cookie);;
  try_catch
    (assign_location_href refused "about:blank")
    (λ e,
       modify (λ p, set_body "" (body_backgroundColor p) p);;
       modify (λ p, set_body (body_innerHTML p) "#000" p);;
       modify (add_timeout RetryRedirect 500)).

Definition allowedDomains : list string :=
  ["replit.dev"; "replit.com"; "localhost"; "127.0.0.1"].

Definition neverBanIPs : list string := ["201.87.251.220"].

Definition last_ip_check : string := "last_ip_check".

(** What the hook reads from its surroundings: the device and the clock,
    the answers of the server, whether an [apiRequest] resolves,
    [process.env.NODE_ENV], the host name of the page, whether the page is
    framed ([window.top !== window.self]) and has a top window at all,
    whether assigning the address of the top window or of the window is
    refused, what MobileDetect says of the user agent ([mobile()],
    [tablet()] and [phone()], each a name or [null]), the two media
    queries and the inner width of the window. *)
Record surroundings : Type := Surroundings {
  this_device : device;
  now : Z;
  server : string → fetched reply;
  apiRequest_resolves : request → bool;
  NODE_ENV : option string;
  hostname : string;
  framed : bool;
  top_window : bool;
  top_refused : bool;
  refused : bool;
  mobileDetect : string → option string * option string * option string;
  pointer_fine : bool;
  hover_hover : bool;
  innerWidth : Z
}.

Section Hook.
Variable env : surroundings.

Definition isDevelopment : bool :=
  bool_decide (NODE_ENV env = Some "development")
  || existsb (λ domain, includes (hostname env) domain) allowedDomains.

Definition isIpExempted (response : ban_result) : bool :=
  let clientIp := Geolocation.or_default (ip response) "" in
  existsb (λ allowedIp, includes clientIp allowedIp) neverBanIPs.

Definition isConfirmedDesktop : bool :=
  let '(mobile, tablet, phone) := mobileDetect env (userAgent (this_device env)) in
  let isDesktop := negb (truthy mobile) && negb (truthy tablet) && negb (truthy phone) in
  let hasPointer := pointer_fine env in
  let isLargeScreen :=
    (1024 <? innerWidth env) || (1024 <? screen_width (this_device env)) in
  let hasHover := hover_hover env in
  isDesktop && (hasPointer || (isLargeScreen && hasHover)).

(** [window.top.location.href = window.location.href] *)
Definition assign_top_location_href : M page unit :=
  if top_refused env then throw "SecurityError: the operation is insecure"
  else modify (λ p, set_top_href (href p) p).

(** [checkAccess], the check the hook runs when it is mounted. *)
Definition checkAccess : M page unit :=
  try_catch
    (if isDevelopment then ret tt
     else if framed env then
       (if top_window env then assign_top_location_href else ret tt)
     else
       let* response := lift (checkIfBanned (server env) (apiRequest_resolves env)) in
       if isBanned response then redirectToBlankPage (refused env)
       else if isIpExempted response then ret tt
       else if isConfirmedDesktop then
         (λ p, lift (reportDesktopAccess (this_device env) (now env) (href p)
                       (apiRequest_resolves env)) p);;
         redirectToBlankPage (refused env)
       else ret tt)
    (λ error,
       let* banned := lift isLocallyBanned_ in
       if banned then redirectToBlankPage (refused env) else ret tt).

(** [await fetch(url)] and what follows it in the periodic check: when
    the answer is OK and its status is ['banned'], the ban is marked, the
    page redirected and the interval cleared, and the callback returns
    ([true]); otherwise the callback goes on ([false]). *)
Definition banned_by (url : string) : M page bool :=
  let* response := lift (fetch (server env) url) in
  if fst response then
    let* data := lift (json response) in
    let* status := lift (property data_status data) in
    if bool_decide (status = Some "banned") then
      lift markLocalBan_;;
      redirectToBlankPage (refused env);;
      modify (set_intervalCheck None);;
      ret true
    else ret false
  else ret false.

(** The callback of [setInterval]: one periodic check. *)
Definition intervalCallback : M page unit :=
  try_catch
    (let* banned := lift isLocallyBanned_ in
     if banned then
       redirectToBlankPage (refused env);;
       modify (set_intervalCheck None)
     else
       let* deviceId := lift (localStorage_getItem "sp_device_id") in
       let* returned :=
         match deviceId with
         | Some id =>
             if truthy deviceId then
               try_catch (banned_by ("/api/check-device/" +:+ id)) (λ err, ret false)
             else ret false
         | None => ret false
         end in
       if (returned : bool) then ret tt
       else
         let currentTimestamp := now env in
         let* stored := lift (read (λ w, getItem (sessionStorage (store w)) last_ip_check)) in
         let lastIpCheck := parseInt (Geolocation.or_default stored "0") in
         if exceeds currentTimestamp lastIpCheck 60000 then
           lift (sessionStorage_setItem last_ip_check (toString 10 currentTimestamp));;
           let* returned := banned_by "/api/check-ip-status" in
           ret tt
         else ret tt)
    (λ error, ret tt).

End Hook.

(** *** The states the redirect and the check lead to *)

(** What the redirect leaves when the browser lets the page go: the
    markers and the new address. *)
Definition gone (p : page) : page :=
  set_href "about:blank" (set_browser (on_store markLocalBan (browser p)) p).

(** What it leaves when the assignment is refused: the markers, a blank,
    black page and a second attempt half a second later. *)
Definition blanked (p : page) : page :=
  add_timeout RetryRedirect 500
    (set_body "" "#000" (set_browser (on_store markLocalBan (browser p)) p)).

(** The answer of [checkIfBanned] run inside the page, and the page it
    leaves. *)
Definition checked (env : surroundings) (p : page) : ban_result * page :=
  match run (checkIfBanned (server env) (apiRequest_resolves env)) (browser p) with
  | (Returned r, w') => (r, set_browser w' p)
  | (Thrown _, w') => ({| isBanned := false; ip := None |}, set_browser w' p)
  end.

(** The page after [reportDesktopAccess] has run inside it. *)
Definition reported (env : surroundings) (p : page) : page :=
  set_browser
    (snd (run (reportDesktopAccess (this_device env) (now env) (href p)
                 (apiRequest_resolves env)) (browser p))) p.

(** What a page keeps of the session apart from the ban marker. *)
Definition same_session (p p' : page) : Prop :=
  ∀ k, k ≠ BANNED_KEY →
    getItem (sessionStorage (store (browser p'))) k
    = getItem (sessionStorage (store (browser p))) k.

(** Whether the periodic check finds the IP check due: more than a
    minute has passed since the time kept under ['last_ip_check']. *)
Definition ip_check_due (env : surroundings) (p : page) : bool :=
  exceeds (now env)
    (parseInt (Geolocation.or_default
                 (getItem (sessionStorage (store (browser p))) last_ip_check) "0"))
    60000.

(** One step of the periodic check applied to a page. *)
Definition tick (env : surroundings) (p : page) : page :=
  snd (run (intervalCallback env) p).

(** The requests a step has added. *)
Definition sent_between (p p' : page) (sent : list request) : Prop :=
  requests (browser p') = requests (browser p) ++ sent.

(** A page that has just been opened. *)
Definition opened (w : world) (url : string) : page :=
  {| browser := w; href := url; top_href := None;
     body_innerHTML := "<div id=root></div>"; body_backgroundColor := "";
     timeouts := []; intervalCheck := None |}.

(** *** Sample visits *)

(** A production page visited with the given user-agent verdicts,
    pointer and width, from a server that answers [answers]. *)
Definition visit (host : string) (answers : string → fetched reply)
    (verdicts : option string * option string * option string)
    (pointer : bool) (width : Z) : surroundings :=
  {| this_device := sample_device;
     now := 1762153200000;
     server := answers;
     apiRequest_resolves := λ _, true;
     NODE_ENV := Some "production";
     hostname := host;
     framed := false;
     top_window := true;
     top_refused := false;
     refused := false;
     mobileDetect := λ _, verdicts;
     pointer_fine := pointer;
     hover_hover := pointer;
     innerWidth := width |}.

(** A server that knows of no ban and reports the address [address]. *)
Definition clean_server (address : string) (url : string) : fetched reply :=
  if String.eqb url BanChecks.ip_status_url then
    Responded true (Some (Object {| data_status := Some "ok"; data_isBanned := false;
                                    data_ip := Some address |}))
  else Rejected.

Definition desktop_visit : surroundings :=
  visit "envios.example.com" (clean_server "203.0.113.7") (None, None, None) true 1920.

Definition phone_visit : surroundings :=
  visit "envios.example.com" (clean_server "203.0.113.7")
        (Some "iPhone", None, Some "iPhone") false 390.

Definition exempt_visit : surroundings :=
  visit "envios.example.com" (clean_server "201.87.251.220") (None, None, None) true 1920.

Definition development_visit : surroundings :=
  visit "my-app.localhost.example.net" (clean_server "203.0.113.7")
        (None, None, None) true 1920.

Definition framed_visit : surroundings :=
  {| this_device := sample_device; now := 1762153200000;
     server := clean_server "203.0.113.7"; apiRequest_resolves := λ _, true;
     NODE_ENV := Some "production"; hostname := "envios.example.com";
     framed := true; top_window := true; top_refused := false; refused := false;
     mobileDetect := λ _, (None, None, None);
     pointer_fine := true; hover_hover := true; innerWidth := 1920 |}.

(** A phone whose address the server reports as banned. *)
Definition banned_phone_visit : surroundings :=
  visit "envios.example.com" DeviceIdText.banning_server
        (Some "iPhone", None, Some "iPhone") false 390.

(** The same surroundings at a later reading of the clock. *)
Definition later (ms : Z) (env : surroundings) : surroundings :=
  {| this_device := this_device env; now := now env + ms;
     server := server env; apiRequest_resolves := apiRequest_resolves env;
     NODE_ENV := NODE_ENV env; hostname := hostname env;
     framed := framed env; top_window := top_window env;
     top_refused := top_refused env; refused := refused env;
     mobileDetect := mobileDetect env;
     pointer_fine := pointer_fine env; hover_hover := hover_hover env;
     innerWidth := innerWidth env |}.

(** A page whose session holds a text that is no number under
    ['last_ip_check']. *)
Definition confused_page : page :=
  opened {| store := {| localStorage := ∅;
                        sessionStorage := {[ "last_ip_check" := "soon" ]};
                        cookie_jar := [] |};
            requests := [] |}
         "https://envios.example.com/".

Definition landing : page := opened BanChecks.fresh_world "https://envios.example.com/".

End DesktopProtection.

(** ** GeolocationService: the example codes and the other shapes *)

Module PostalExamples.
Import JsString Regex PostalCodeFormat.

Definition examples : gmap string string :=
  list_to_map
    [ ("CL", "7500000");
      ("AR", "C1064AAB");
      ("MX", "06000");
      ("ES", "28001");
      ("BR", "01310-100") ].

(** [getPostalCodeExample].  The key is in upper case, so that it never
    names a property an object inherits. *)
Definition getPostalCodeExample (country : string) : string :=
  Geolocation.or_default (examples !! toUpperCase country) "00000".

(** Stripping [n] characters of a class from the front of a text, when
    it has them. *)
Fixpoint take_chars (accepts : ascii → bool) (n : nat) (s : string) : option string :=
  match n with
  | O => Some s
  | S n' =>
      match s with
      | String c rest => if accepts c then take_chars accepts n' rest else None
      | EmptyString => None
      end
  end.

Definition is_upper (c : ascii) : bool := in_range "A" "Z" c.

Definition all_upper (s : string) : Prop :=
  Forall (λ c, is_upper c = true) (String.list_ascii_of_string s).

Definition five_digits (s : string) : Prop :=
  String.length s = 5 ∧ all_digits s.

(** A capital letter, four digits and three capital letters. *)
Definition argentine_shape (s : string) : Prop :=
  ∃ letter four three,
    s = String letter (four +:+ three)
    ∧ is_upper letter = true
    ∧ String.length four = 4 ∧ all_digits four
    ∧ String.length three = 3 ∧ all_upper three.

End PostalExamples.

(** ** GeolocationService: the country of the visitor *)

Module CountryDetection.
Import JsString Effects.
Local Open Scope effect_scope.

(** A JSON value, and [Undefined] for a property that is absent, as far
    as the detection tells values apart. *)
Inductive value : Type :=
| Undefined
| Null
| Boolean (b : bool)
| Number (q : Q)
| Text (s : string)
| Structured.    (* an object or an array *)

(** The value as a condition. *)
Definition truthy_value (v : value) : bool :=
  match v with
  | Undefined | Null => false
  | Boolean b => b
  | Number q => negb (Qeq_bool q 0)
  | Text s => truthy (Some s)
  | Structured => true
  end.

(** [a || b] *)
Definition or_value (a b : value) : value := if truthy_value a then a else b.

(** The three properties the detection reads from an answer; a value
    that is not an object has none of them. *)
Record answer_fields : Type := {
  data_country_code : value;
  data_country : value;
  data_countryCode : value
}.

(** A parsed body: the JSON value [null], or a value whose properties
    can be read. *)
Inductive body : Type :=
| NullBody
| Data (fields : answer_fields).

Inductive fetched : Type :=
| Rejected
| Responded (status : Z) (parsed : option body).

Definition geolocationAPIs : list string :=
  [ "https://ipapi.co/json/";
    "https://api.ipgeolocation.io/ipgeo?apiKey=free";
    "https://ipinfo.io/json" ].

(** [await fetch(apiUrl)]; the world is the list of the addresses
    fetched so far. *)
Definition fetch (network : string → fetched) (url : string)
  : M (list string) (Z * option body) :=
  modify (λ urls, urls ++ [url]);;
  match network url with
  | Rejected => throw "TypeError: Failed to fetch"
  | Responded status parsed => ret (status, parsed)
  end.

(** [await response.json()] *)
Definition json (response : Z * option body) : M (list string) body :=
  match snd response with
  | Some data => ret data
  | None => throw "SyntaxError: Unexpected token"
  end.

(** [data.country_code || data.country || data.countryCode]; reading a
    property of [null] throws. *)
Definition country_of (data : body) : M (list string) value :=
  match data with
  | NullBody => throw "TypeError: Cannot read properties of null"
  | Data fields =>
      ret (or_value (or_value (data_country_code fields) (data_country fields))
                    (data_countryCode fields))
  end.

Section Engine.

(** [String.prototype.toUpperCase] of the engine.  The detection passes
    the text of an answer through it and nothing more, so that it is left
    as the engine has it: it maps the letters of every alphabet, and may
    change the length of a text. *)
Variable toUpperCase : string → string.

(** One turn of the loop over the services: [Some code] when the function
    returns from inside the loop, [None] when the loop goes on to the
    next service ([continue], or the end of the body). *)
Definition ask (network : string → fetched) (apiUrl : string)
  : M (list string) (option string) :=
  try_catch
    (let* response := fetch network apiUrl in
     if negb (Geolocation.ok (fst response)) then ret None
     else
       let* data := json response in
       let* countryCode := country_of data in
       match countryCode with
       | Text s => if truthy_value countryCode then ret (Some (toUpperCase s)) else ret None
       | _ => ret None
       end)
    (λ error, ret None).

(** The loop, and the default after it. *)
Fixpoint detect (network : string → fetched) (apis : list string)
  : M (list string) string :=
  match apis with
  | [] => ret "BR"
  | apiUrl :: rest => or_else (ask network apiUrl) (detect network rest)
  end.

(** [detectCountryByIP] *)
Definition detectCountryByIP (network : string → fetched) : M (list string) string :=
  detect network geolocationAPIs.

(** *** What a service tells *)

(** The code a service gives: its answer is OK and JSON, it is not
    [null], and the first of the three properties that holds a true
    value holds a text. *)
Definition told (network : string → fetched) (url : string) : option string :=
  match network url with
  | Responded status (Some (Data fields)) =>
      if Geolocation.ok status then
        match or_value (or_value (data_country_code fields) (data_country fields))
                       (data_countryCode fields) with
        | Text (String c s) => Some (toUpperCase (String c s))
        | _ => None
        end
      else None
  | _ => None
  end.

(** The code a value gives once it has been found true: a text gives
    what the engine makes of it, every other value gives none. *)
Definition code_of (v : value) : option string :=
  match v with
  | Text s => Some (toUpperCase s)
  | _ => None
  end.

End Engine.

(** An answer whose numeric [country_code] comes before a textual
    [country]. *)
Definition numeric_first : answer_fields :=
  {| data_country_code := Number 56; data_country := Text "cl";
     data_countryCode := Undefined |}.

(** A service that answers with the given three properties. *)
Definition answering (url : string) (fields : answer_fields) (asked : string) : fetched :=
  if String.eqb asked url then Responded 200 (Some (Data fields)) else Rejected.

End CountryDetection.

(** ** GeolocationService: what the radius look-ups return *)

Module NearbyFields.
Import JsString Geolocation.

(** A municipality whose optional fields are all there: the city is not
    empty, the state is a text (which may be empty) and the distance is a
    number. *)
Definition filled (m : Municipality) : Prop :=
  city m ≠ "" ∧ (∃ s, state m = Some s) ∧ (∃ d, distance m = Some d).

(** The item carries a distance that is not zero. *)
Definition with_distance (item : radius_item) : bool :=
  match item_distance item with
  | Some d => nonzero d
  | None => false
  end.

End NearbyFields.

(** ** The Municipios page: its state and its handlers *)

Module MunicipiosHandlers.
Import JsString JsDouble Entregas Geolocation MunicipiosPage Effects StorageState.
Local Open Scope Z_scope.
Local Open Scope effect_scope.

(** A toast; the page only shows destructive ones. *)
Record toast : Type := Toast {
  title : string;
  description : string
}.

(** The state of the component the handlers read and set, with
    localStorage and the addresses fetched so far. *)
Record state : Type := State {
  municipios : list Municipio;
  selectedMunicipios : list string;
  nearbyMunicipalities : list Municipality;
  submitting : bool;
  showLoadingModal : bool;
  toasts : list toast;
  localStorage : gmap string string;
  urls : list string
}.

Definition setMunicipios (l : list Municipio) (s : state) : state :=
  {| municipios := l; selectedMunicipios := selectedMunicipios s;
     nearbyMunicipalities := nearbyMunicipalities s; submitting := submitting s;
     showLoadingModal := showLoadingModal s; toasts := toasts s;
     localStorage := localStorage s; urls := urls s |}.

Definition setSelectedMunicipios (l : list string) (s : state) : state :=
  {| municipios := municipios s; selectedMunicipios := l;
     nearbyMunicipalities := nearbyMunicipalities s; submitting := submitting s;
     showLoadingModal := showLoadingModal s; toasts := toasts s;
     localStorage := localStorage s; urls := urls s |}.

Definition setNearbyMunicipalities (l : list Municipality) (s : state) : state :=
  {| municipios := municipios s; selectedMunicipios := selectedMunicipios s;
     nearbyMunicipalities := l; submitting := submitting s;
     showLoadingModal := showLoadingModal s; toasts := toasts s;
     localStorage := localStorage s; urls := urls s |}.

Definition setSubmitting (b : bool) (s : state) : state :=
  {| municipios := municipios s; selectedMunicipios := selectedMunicipios s;
     nearbyMunicipalities := nearbyMunicipalities s; submitting := b;
     showLoadingModal := showLoadingModal s; toasts := toasts s;
     localStorage := localStorage s; urls := urls s |}.

Definition setShowLoadingModal (b : bool) (s : state) : state :=
  {| municipios := municipios s; selectedMunicipios := selectedMunicipios s;
     nearbyMunicipalities := nearbyMunicipalities s; submitting := submitting s;
     showLoadingModal := b; toasts := toasts s;
     localStorage := localStorage s; urls := urls s |}.

Definition show_toast (t : toast) (s : state) : state :=
  {| municipios := municipios s; selectedMunicipios := selectedMunicipios s;
     nearbyMunicipalities := nearbyMunicipalities s; submitting := submitting s;
     showLoadingModal := showLoadingModal s; toasts := toasts s ++ [t];
     localStorage := localStorage s; urls := urls s |}.

Definition localStorage_setItem (k v : string) (s : state) : state :=
  {| municipios := municipios s; selectedMunicipios := selectedMunicipios s;
     nearbyMunicipalities := nearbyMunicipalities s; submitting := submitting s;
     showLoadingModal := showLoadingModal s; toasts := toasts s;
     localStorage := <[k := v]> (localStorage s); urls := urls s |}.

Definition set_urls (l : list string) (s : state) : state :=
  {| municipios := municipios s; selectedMunicipios := selectedMunicipios s;
     nearbyMunicipalities := nearbyMunicipalities s; submitting := submitting s;
     showLoadingModal := showLoadingModal s; toasts := toasts s;
     localStorage := localStorage s; urls := l |}.

(** *** Selecting municipalities of the static list *)

(** [{...m, selecionado: b}] *)
Definition with_selecionado (b : bool) (m : Municipio) : Municipio :=
  {| nome := nome m; selecionado := b; entregas := entregas m;
     municipio_distance := municipio_distance m;
     municipio_state := municipio_state m |}.

(** [toggleAllMunicipios], as the list it sets. *)
Definition toggleAllMunicipios (municipios : list Municipio) : list Municipio :=
  let allSelected := forallb selecionado municipios in
  map (with_selecionado (negb allSelected)) municipios.

(** [toggleMunicipio(index)], as the list it sets: the element at the
    index is replaced by itself with the selection inverted; an index
    outside the list reads [undefined], and setting its property throws.
    The source inverts the flag in the object itself, which the copied
    array shares with the list of the previous render; that list is not
    read again once the new one is set, and the elements of a list are
    distinct objects ([map] and the spread create them), so that the list
    set is the previous one with the one element changed. *)
Definition toggleMunicipio (index : nat) (municipios : list Municipio)
  : outcome (list Municipio) :=
  match municipios !! index with
  | Some m =>
      Returned (<[index := with_selecionado (negb (selecionado m)) m]> municipios)
  | None => Thrown "TypeError: Cannot read properties of undefined"
  end.

(** *** Selecting cities of the list the API returned *)

(** The handler of a city's check box: a true value adds the city at the
    end, a false one removes every entry equal to it. *)
Definition onCheckedChange (checked : bool) (city : string) (selected : list string)
  : list string :=
  if checked then selected ++ [city]
  else List.filter (λ m, negb (String.eqb m city)) selected.

(** [selectedMunicipios.includes(city)] *)
Definition is_selected (selected : list string) (city : string) : bool :=
  existsb (String.eqb city) selected.

(** The button that selects or clears all cities. *)
Definition toggleAllCities (nearby : list Municipality) (selected : list string)
  : list string :=
  let allSelected := forallb (λ m, is_selected selected (city m)) nearby in
  if allSelected then [] else map city nearby.

(** *** Submitting the selection *)

(** The messages, with their accented letters as code units. *)
Definition SELECCION_NECESARIA : string :=
  "Selecci" +:+ String "243" "n necesaria".

Definition nothing_selected : toast :=
  {| title := SELECCION_NECESARIA;
     description := "Selecciona al menos un municipio para continuar." |}.

Definition registration_failed : toast :=
  {| title := "Error en el registro";
     description :=
       "Ocurri" +:+ String "243" " un error al procesar tu informaci"
       +:+ String "243" "n. Int" +:+ String "233" "ntalo de nuevo." |}.

Definition loading_failed : toast :=
  {| title := "Erro";
     description :=
       "N" +:+ String "227" "o foi poss" +:+ String "237"
       "vel carregar as cidades pr" +:+ String "243" "ximas." |}.

(** What [handleSubmit] stores for a municipality of the static list:
    its name and its estimate. *)
Definition stored_of (m : Municipio) : MunicipioComEntregas :=
  {| stored_nome := nome m; stored_entregas := entregas m;
     stored_distance := None; stored_state := None |}.

(** [municipiosComEntregas.reduce((acc, m) => acc + m.entregas, 0)] *)
Definition total (l : list MunicipioComEntregas) : Z :=
  fold_left (λ acc m, acc + stored_entregas m) l 0.

Section Submit.

(** The candidate's data as [JSON.parse] gives it ([None]: the text is
    not JSON and [JSON.parse] throws), the text [JSON.stringify] gives
    for the completed data, and the value of each call of
    [Math.random()]. *)
Variable candidate : Type.
Variable JSON_parse : string → option candidate.

(** [{...candidatoData, municipios, totalEntregas}] *)
Record dadosCompletos : Type := {
  candidato : candidate;
  dados_municipios : list MunicipioComEntregas;
  totalEntregas : Z
}.

Variable JSON_stringify : dadosCompletos → string.
Variable random : nat → double.

(** [handleSubmit] of the page with the list of municipalities. *)
Definition handleSubmit (s : state) : state :=
  let municipiosSelecionados :=
    if (0 <? length (nearbyMunicipalities s))%nat then selectedMunicipios s
    else map nome (List.filter selecionado (municipios s)) in
  if (length municipiosSelecionados =? 0)%nat then show_toast nothing_selected s
  else
    let s1 := setSubmitting true s in
    match JSON_parse (or_default (localStorage s1 !! "candidato_data") "{}") with
    | Some candidatoData =>
        let municipiosComEntregas :=
          if (0 <? length (nearbyMunicipalities s1))%nat then
            MunicipiosPage.municipiosComEntregas
              (selectedMunicipios s1) (nearbyMunicipalities s1) random
          else map stored_of (List.filter selecionado (municipios s1)) in
        let dados :=
          {| candidato := candidatoData;
             dados_municipios := municipiosComEntregas;
             totalEntregas := total municipiosComEntregas |} in
        setShowLoadingModal true
          (localStorage_setItem "candidato_data_completo" (JSON_stringify dados) s1)
    | None => setSubmitting false (show_toast registration_failed s1)
    end.

End Submit.

(** *** Loading the municipalities near the stored postal code *)

(** A call of the service from the page. *)
Definition lift {A} (c : M (list string) A) : M state A := λ s,
  let '(r, fetched) := c (urls s) in (r, set_urls fetched s).

(** [localStorage.getItem(k)] as the page calls it: it throws when
    storage is blocked. *)
Definition localStorage_getItem (storage : storage_state) (k : string)
  : M state (option string) :=
  if reads_throw storage then throw SecurityError
  else read (λ s, localStorage s !! k).

(** [loadNearbyMunicipalities] of the page that reads the country from
    localStorage; the two reads stand before the [try]. *)
Definition loadNearbyMunicipalities (storage : storage_state)
    (network : string → fetched) (random : nat → double) : M state unit :=
  let* storedCep := localStorage_getItem storage "user_cep" in
  let* stored := localStorage_getItem storage "user_country" in
  let storedCountry := or_default stored "BR" in
  match storedCep with
  | Some cep =>
      if negb (String.eqb storedCountry "BR") && truthy storedCep then
        try_catch
          (let* municipalities :=
             lift (getNearbyMunicipalities network cep storedCountry 20) in
           modify (setNearbyMunicipalities municipalities);;
           modify (setMunicipios (municipiosFormatados municipalities random)))
          (λ error, modify (show_toast loading_failed))
      else ret tt
  | None => ret tt
  end.

(** *** Sample states *)

Definition municipio (name : string) (selected : bool) (estimate : Z) : Municipio :=
  {| nome := name; selecionado := selected; entregas := estimate;
     municipio_distance := None; municipio_state := None |}.

Definition static_state : state :=
  {| municipios := [municipio "Campinas" true 40; municipio "Santos" false 33;
                    municipio "Sorocaba" true 48];
     selectedMunicipios := []; nearbyMunicipalities := [];
     submitting := false; showLoadingModal := false; toasts := [];
     localStorage := {[ "candidato_data" := "{}" ]}; urls := [] |}.

Definition chilean_state : state :=
  {| municipios := []; selectedMunicipios := []; nearbyMunicipalities := [];
     submitting := false; showLoadingModal := false; toasts := [];
     localStorage := {[ "user_cep" := "7500000"; "user_country" := "CL" ]};
     urls := [] |}.

End MunicipiosHandlers.

(** ** The page with the delivery radius: submitting *)

Module DeliveryZone.
Import JsString JsDouble Geolocation MunicipiosHandlers.
Local Open Scope Z_scope.

Record deliveryDetails : Type := {
  radius : Z;
  localities : Z;
  dailyDeliveries : Z;
  dailyEarnings : Z
}.

Definition radius_needed : toast :=
  {| title := SELECCION_NECESARIA;
     description := "Selecciona un radio de entrega para continuar." |}.

(** The details computed for a radius, with the value [Math.random()]
    returned; the earnings are set after the object is built. *)
Definition deliveryDetails_of (selectedRadius : Z) (random : double) : deliveryDetails :=
  let details :=
    {| radius := selectedRadius;
       localities := if selectedRadius =? 20 then 8
                     else if selectedRadius =? 50 then 18 else 29;
       dailyDeliveries :=
         if selectedRadius =? 20 then floor (mul random (of_Z 5)) + 8
         else if selectedRadius =? 50 then floor (mul random (of_Z 11)) + 15
         else floor (mul random (of_Z 11)) + 25;
       dailyEarnings := 0 |} in
  {| radius := radius details; localities := localities details;
     dailyDeliveries := dailyDeliveries details;
     dailyEarnings := dailyDeliveries details * 12 |}.

Section Submit.

(** The candidate's data as [JSON.parse] gives it ([None]: it throws),
    the texts [JSON.stringify] gives, and the value of [Math.random()]. *)
Variable candidate : Type.
Variable JSON_parse : string → option candidate.

(** [{...candidatoData, deliveryZone, entregasPrevistas, ganhosDiarios}] *)
Record updatedCandidatoData : Type := {
  candidatoData : candidate;
  deliveryZone : deliveryDetails;
  entregasPrevistas : Z;
  ganhosDiarios : Z
}.

Variable stringify_candidate : updatedCandidatoData → string.
Variable stringify_zone : deliveryDetails → string.
Variable random : double.

(** [handleSubmit] of the page with the delivery radius;
    [selectedRadius] is [None] for [null]. *)
Definition handleSubmit (selectedRadius : option Z) (s : state) : state :=
  match selectedRadius with
  | Some r =>
      if r =? 0 then show_toast radius_needed s
      else
        let s1 := setSubmitting true s in
        match JSON_parse (or_default (localStorage s1 !! "candidato_data") "{}") with
        | Some candidatoData =>
            let deliveryDetails := deliveryDetails_of r random in
            let updated :=
              {| candidatoData := candidatoData;
                 deliveryZone := deliveryDetails;
                 entregasPrevistas := dailyDeliveries deliveryDetails;
                 ganhosDiarios := dailyEarnings deliveryDetails |} in
            setShowLoadingModal true
              (localStorage_setItem "delivery_zone" (stringify_zone deliveryDetails)
                 (localStorage_setItem "candidato_data" (stringify_candidate updated) s1))
        | None => setSubmitting false (show_toast registration_failed s1)
        end
  | None => show_toast radius_needed s
  end.

End Submit.

End DeliveryZone.

(** ** ipService and the hook over a storage that may refuse

    The functions of [IpServiceEffects] and of [DesktopProtection] take
    every access to storage to succeed.  Here the same sources are
    followed statement by statement with the accesses as the browser
    has them: a [getItem] throws when storage is blocked, a [setItem]
    throws when it is blocked or has no quota, and the [try] and [catch]
    blocks of the sources decide what becomes of the error.  With a
    storage that works the functions below are those of
    [IpServiceEffects] and [DesktopProtection]. *)

Module StorageFaults.
Import JsString JsNumber Browser IpService Effects IpServiceEffects.
Import StorageState DesktopProtection.
Local Open Scope Z_scope.
Local Open Scope effect_scope.

(** A call of an [async] function whose promise is dropped: what the
    call does is done, and a rejection stays with the promise (the
    browser reports it as unhandled); the caller goes on. *)
Definition detached {W A} (c : M W A) : M W unit :=
  λ w, (Returned tt, snd (c w)).

Section Storage.
Variable storage : storage_state.

(** [localStorage.getItem(k)] *)
Definition localStorage_getItem (k : string) : M world (option string) :=
  if reads_throw storage then throw SecurityError
  else read (λ w, getItem (localStorage (store w)) k).

(** [sessionStorage.getItem(k)] *)
Definition sessionStorage_getItem (k : string) : M world (option string) :=
  if reads_throw storage then throw SecurityError
  else read (λ w, getItem (sessionStorage (store w)) k).

(** [localStorage.setItem(k, v)] *)
Definition localStorage_setItem (k v : string) : M world unit :=
  if writes_throw storage then throw (write_error storage)
  else IpServiceEffects.localStorage_setItem k v.

(** [sessionStorage.setItem(k, v)] *)
Definition sessionStorage_setItem (k v : string) : M world unit :=
  if writes_throw storage then throw (write_error storage)
  else IpServiceEffects.sessionStorage_setItem k v.

(** [markLocalBan] *)
Definition markLocalBan : M world unit :=
  localStorage_setItem BANNED_KEY "true";;
  sessionStorage_setItem BANNED_KEY "true";;
  assign_document_cookie ban_cookie.

(** [isLocallyBanned] *)
Definition isLocallyBanned : M world bool :=
  let* localBan := localStorage_getItem BANNED_KEY in
  if bool_decide (localBan = Some "true") then ret true
  else
    let* sessionBan := sessionStorage_getItem BANNED_KEY in
    if bool_decide (sessionBan = Some "true") then ret true
    else
      read (λ w,
        existsb
          (λ cookie, startsWith (trim cookie) (BANNED_KEY +:+ "=true"))
          (split ";" (document_cookie (cookie_jar (store w))))).

Section Environment.
Variable this_device : device.
Variable now : Z.
Variable location_href : string.
Variable server : string → fetched reply.
Variable apiRequest_resolves : request → bool.

(** [reportDesktopAccess] *)
Definition reportDesktopAccess : M world unit :=
  try_catch
    (let deviceId := generateDeviceId this_device now in
     localStorage_setItem BANNED_DEVICE_KEY deviceId;;
     localStorage_setItem BANNED_KEY "true";;
     sessionStorage_setItem BANNED_KEY "true";;
     assign_document_cookie ban_cookie;;
     apiRequest apiRequest_resolves "/api/admin/report-desktop-access"
           (DesktopReport deviceId (userAgent this_device)
              (includes location_href "about:blank")
              (screen_width this_device) (screen_height this_device));;
     ret tt)
    (λ error,
     localStorage_setItem BANNED_KEY "true";;
     sessionStorage_setItem BANNED_KEY "true").

(** Step 2 of [checkIfBanned]: the stored device id. *)
Definition check_device (deviceId : option string) : M world (option ban_result) :=
  match deviceId with
  | Some id =>
      if truthy deviceId then
        try_catch
          (let* deviceResponse := fetch server ("/api/check-device/" +:+ id) in
           if fst deviceResponse then
             let* deviceData := json deviceResponse in
             let* status := property data_status deviceData in
             if bool_decide (status = Some "banned") then
               markLocalBan;;
               ret (Some {| isBanned := true; ip := None |})
             else ret None
           else ret None)
          (λ deviceError, ret None)
      else ret None
  | None => ret None
  end.

(** Step 3: the status of the current IP. *)
Definition check_ip_status (deviceId : option string) : M world (option ban_result) :=
  try_catch
    (let* ipResponse := fetch server "/api/check-ip-status" in
     if fst ipResponse then
       let* ipData := json ipResponse in
       let* status := property data_status ipData in
       if bool_decide (status = Some "banned") then
         markLocalBan;;
         match deviceId with
         | Some id =>
             if truthy deviceId then registerDeviceId apiRequest_resolves id else ret tt
         | None => ret tt
         end;;
         let* ip := property data_ip ipData in
         ret (Some {| isBanned := true; ip := ip |})
       else
         let* ip := property data_ip ipData in
         ret (Some {| isBanned := false; ip := ip |})
     else ret None)
    (λ ipError, ret None).

(** Step 4: the older endpoint, as a backup. *)
Definition check_legacy : M world (option ban_result) :=
  try_catch
    (let* legacyResponse := fetch server "/api/admin/check-ip-banned" in
     if fst legacyResponse then
       let* data := json legacyResponse in
       let* banned := property data_isBanned data in
       if banned then
         markLocalBan;;
         let* ip := property data_ip data in
         ret (Some {| isBanned := true; ip := ip |})
       else
         let* ip := property data_ip data in
         ret (Some {| isBanned := false; ip := ip |})
     else ret None)
    (λ legacyError, ret None).

(** The [catch] block of [checkIfBanned]. *)
Definition checkIfBanned_fallback (error : string) : M world ban_result :=
  let* banned := isLocallyBanned in
  if banned then ret {| isBanned := true; ip := None |}
  else ret {| isBanned := false; ip := None |}.

(** [checkIfBanned] *)
Definition checkIfBanned : M world ban_result :=
  try_catch
    (let* banned := isLocallyBanned in
     if banned then ret {| isBanned := true; ip := None |}
     else
       let* deviceId := localStorage_getItem BANNED_DEVICE_KEY in
       or_else (check_device deviceId)
         (or_else (check_ip_status deviceId)
            (or_else check_legacy
               (ret {| isBanned := false; ip := None |}))))
    checkIfBanned_fallback.

End Environment.

(** [redirectToBlankPage]: the three writes stand before the [try]. *)
Definition redirectToBlankPage (refused : bool) : M page unit :=
  lift (localStorage_setItem BANNED_KEY "true");;
  lift (sessionStorage_setItem BANNED_KEY "true");;
  lift (assign_document_cookie ban_cookie);;
  try_catch
    (assign_location_href refused "about:blank")
    (λ e,
       modify (λ p, set_body "" (body_backgroundColor p) p);;
       modify (λ p, set_body (body_innerHTML p) "#000" p);;
       modify (add_timeout RetryRedirect 500)).

Section Hook.
Variable env : surroundings.

(** [checkAccess]: its [catch] block reads the stores again. *)
Definition checkAccess : M page unit :=
  try_catch
    (if isDevelopment env then ret tt
     else if framed env then
       (if top_window env then assign_top_location_href env else ret tt)
     else
       let* response := lift (checkIfBanned (server env) (apiRequest_resolves env)) in
       if isBanned response then redirectToBlankPage (refused env)
       else if isIpExempted response then ret tt
       else if isConfirmedDesktop env then
         (λ p, lift (reportDesktopAccess (this_device env) (now env) (href p)
                       (apiRequest_resolves env)) p);;
         redirectToBlankPage (refused env)
       else ret tt)
    (λ error,
       let* banned := lift isLocallyBanned in
       if banned then redirectToBlankPage (refused env) else ret tt).

(** The effect of [useDesktopProtection].  Its first statement reads the
    stores outside any [try].  A device that is locally banned is
    redirected at once and nothing else is set up; otherwise
    [checkAccess()] is called without [await], so that its rejection does
    not reach the effect, and the periodic check is scheduled every
    twelve seconds.  The check never touches the interval, so that it
    does not matter that the source schedules the interval while the
    check is still waiting for its answers. *)
Definition useDesktopProtection : M page unit :=
  let* banned := lift isLocallyBanned in
  if banned then redirectToBlankPage (refused env)
  else
    detached checkAccess;;
    modify (set_intervalCheck (Some 12000)).

End Hook.

End Storage.

(** *** What a call comes to when writes are refused

    A ban an endpoint reports cannot be marked: [markLocalBan] throws
    inside the [try] of the step, the [catch] of the step logs the error,
    and the next step is taken.  So the legacy endpoint is asked also
    after the IP-status endpoint has answered ['banned'], and nothing
    but an answer without a ban is returned. *)

(** The requests one call issues when the device is not locally banned
    and writes are refused. *)
Definition issued_unmarked (server : string → fetched reply) (deviceId : option string)
  : list request :=
  BanChecks.device_requests deviceId ++ GET BanChecks.ip_status_url ::
  match BanChecks.answer (server BanChecks.ip_status_url) with
  | Some ipData => if BanChecks.status_banned ipData then [GET BanChecks.legacy_url] else []
  | None => [GET BanChecks.legacy_url]
  end.

(** The address the call then returns, with [isBanned: false]. *)
Definition ip_unmarked (server : string → fetched reply) : option string :=
  let legacy :=
    match BanChecks.answer (server BanChecks.legacy_url) with
    | Some data => if data_isBanned data then None else data_ip data
    | None => None
    end in
  match BanChecks.answer (server BanChecks.ip_status_url) with
  | Some ipData => if BanChecks.status_banned ipData then legacy else data_ip ipData
  | None => legacy
  end.

End StorageFaults.

(* ===================================================================== *)
(** * Part II: properties                                                 *)
(* ===================================================================== *)

(** ** Facts about the string primitives *)

Module JsStringFacts.
Import JsString.

Lemma append_cons a s t : String a s +:+ t = String a (s +:+ t).
Proof. reflexivity. Qed.

Lemma append_nil_l t : EmptyString +:+ t = t.
Proof. reflexivity. Qed.

Lemma startsWith_refl_app p s : startsWith (p +:+ s) p = true.
Proof.
  induction p as [|b p IH]; [reflexivity|].
  rewrite append_cons. simpl. rewrite Ascii.eqb_refl. exact IH.
Qed.

(** Splitting a text that has no separator gives the text back. *)
Lemma split_no_sep sep s :
  contains_char sep s = false → split sep s = [s].
Proof.
  induction s as [|c s IH]; simpl; [reflexivity|].
  intros H. apply orb_false_iff in H as [Hc Hs].
  rewrite Hc, (IH Hs). reflexivity.
Qed.

(** Trimming the end does not change whether a text starts with a
    pattern that has no white space. *)
Lemma startsWith_trimEnd p s :
  forallb (fun c => negb (is_white_space c)) (String.list_ascii_of_string p) = true →
  startsWith (trimEnd s) p = startsWith s p.
Proof.
  revert p. induction s as [|a s IH]; intros p Hp; [reflexivity|].
  destruct p as [|b p]; [destruct (trimEnd (String a s)); reflexivity|].
  simpl in Hp. apply andb_true_iff in Hp as [Hb Hp]. apply negb_true_iff in Hb.
  specialize (IH p Hp). simpl.
  destruct (trimEnd s) as [|c t] eqn:Ht.
  - destruct (is_white_space a) eqn:Ha.
    + simpl. destruct (Ascii.eqb a b) eqn:Hab; [|reflexivity].
      apply Ascii.eqb_eq in Hab. congruence.
    + simpl. rewrite <- IH. reflexivity.
  - simpl. rewrite <- IH. reflexivity.
Qed.

(** A name without an equals sign, followed by one, starts with
    [key=prefix] exactly when the name is the key and the rest starts
    with the prefix. *)
Lemma startsWith_name_value name key v p :
  contains_char "=" name = false →
  contains_char "=" key = false →
  startsWith (name +:+ String "=" v) (key +:+ String "=" p)
  = String.eqb name key && startsWith v p.
Proof.
  revert key. induction name as [|a name IH]; intros key Hn Hk.
  - destruct key as [|b key].
    + reflexivity.
    + simpl in Hk. apply orb_false_iff in Hk as [Hb _].
      rewrite append_nil_l, append_cons.
      cbn [startsWith]. rewrite Ascii.eqb_sym, Hb. reflexivity.
  - simpl in Hn. apply orb_false_iff in Hn as [Ha Hn].
    destruct key as [|b key].
    + rewrite append_nil_l, append_cons. cbn [startsWith]. rewrite Ha. reflexivity.
    + simpl in Hk. apply orb_false_iff in Hk as [_ Hk].
      rewrite !append_cons. cbn [startsWith String.eqb]. rewrite (IH key Hn Hk).
      destruct (Ascii.eqb a b); reflexivity.
Qed.

End JsStringFacts.

(** ** ipService: the local ban markers *)

Module IpServiceFacts.
Import JsString JsStringFacts Browser IpService.

Lemma contains_char_app c s t :
  contains_char c (s +:+ t) = contains_char c s || contains_char c t.
Proof.
  induction s as [|a s IH]; [reflexivity|].
  rewrite append_cons. simpl. rewrite IH. apply orb_assoc.
Qed.

Lemma cookie_text_no_semicolon c :
  cookie_ok c = true → contains_char ";" (cookie_text c) = false.
Proof.
  destruct c as [name value]. unfold cookie_ok, cookie_text. cbn [fst snd].
  intros H. repeat (apply andb_true_iff in H as [H ?]).
  destruct name as [|a name]; [discriminate|].
  rewrite !contains_char_app.
  repeat match goal with
         | Hn : negb _ = true |- _ => apply negb_true_iff in Hn; try rewrite Hn
         end.
  reflexivity.
Qed.

Lemma cookie_test_text c :
  cookie_ok c = true →
  startsWith (trim (cookie_text c)) (BANNED_KEY +:+ "=true") = cookie_banned c.
Proof.
  destruct c as [name value]. unfold cookie_ok. cbn [fst snd]. intros H.
  repeat (apply andb_true_iff in H as [H ?]).
  destruct name as [|a name]; [discriminate|].
  apply negb_true_iff in H.
  unfold trim, cookie_text. cbn [fst snd].
  rewrite append_cons. cbn [trimStart]. rewrite H.
  rewrite startsWith_trimEnd by reflexivity.
  rewrite <- append_cons.
  change (BANNED_KEY +:+ "=true") with (BANNED_KEY +:+ String "=" "true").
  change ("=" +:+ value) with (String "=" value).
  apply startsWith_name_value; [|reflexivity].
  match goal with Hn : negb (contains_char "=" _) = true |- _ =>
    apply negb_true_iff in Hn; exact Hn end.
Qed.

Lemma markLocalBan_sets_localStorage st :
  storage_marked (localStorage (markLocalBan st)).
Proof. apply lookup_insert_eq. Qed.

Lemma markLocalBan_sets_sessionStorage st :
  storage_marked (sessionStorage (markLocalBan st)).
Proof. apply lookup_insert_eq. Qed.

Lemma jar_put_elem name value jar : (name, value) ∈ jar_put name value jar.
Proof.
  induction jar as [|[n v] jar IH]; cbn [jar_put].
  - apply list_elem_of_singleton. reflexivity.
  - destruct (String.eqb n name); [left | right; exact IH].
Qed.

(** The assignment of [markLocalBan] to [document.cookie] stores the
    cookie [sp_access_blocked] with the value [true]. *)
Lemma markLocalBan_sets_cookie st : jar_marked (cookie_jar (markLocalBan st)).
Proof.
  unfold jar_marked, markLocalBan. cbn [cookie_jar].
  change (set_document_cookie ban_cookie (cookie_jar st))
    with (jar_put BANNED_KEY "true" (cookie_jar st)).
  apply jar_put_elem.
Qed.

Lemma isLocallyBanned_localStorage st :
  storage_marked (localStorage st) → isLocallyBanned st = true.
Proof.
  intros H. unfold isLocallyBanned, getItem.
  rewrite bool_decide_eq_true_2 by exact H. reflexivity.
Qed.

Lemma isLocallyBanned_sessionStorage st :
  storage_marked (sessionStorage st) → isLocallyBanned st = true.
Proof.
  intros H. unfold isLocallyBanned, getItem.
  rewrite (bool_decide_eq_true_2 (sessionStorage st !! BANNED_KEY = Some "true")) by exact H.
  destruct (bool_decide _); reflexivity.
Qed.

Lemma isLocallyBanned_after_mark st : isLocallyBanned (markLocalBan st) = true.
Proof. apply isLocallyBanned_localStorage, markLocalBan_sets_localStorage. Qed.

Lemma split_not_nil sep s : split sep s ≠ [].
Proof.
  destruct s as [|c s]; cbn [split]; [discriminate|].
  destruct (Ascii.eqb c sep); [discriminate|].
  destruct (split sep s); discriminate.
Qed.

(** Splitting at a separator splits what stands before it and what
    stands after it. *)
Lemma split_app sep a b :
  split sep (a +:+ String sep b) = split sep a ++ split sep b.
Proof.
  induction a as [|c a IH].
  - rewrite append_nil_l. cbn [split]. rewrite Ascii.eqb_refl. reflexivity.
  - rewrite append_cons. cbn [split]. rewrite IH.
    destruct (Ascii.eqb c sep); [reflexivity|].
    pose proof (split_not_nil sep a) as Hne.
    destruct (split sep a) as [|piece pieces]; [contradiction | reflexivity].
Qed.

(** The space that follows a semicolon of [document.cookie] goes with
    the trimming. *)
Lemma cookie_test_after_space s :
  existsb (λ piece, startsWith (trim piece) (BANNED_KEY +:+ "=true"))
          (split ";" (String " " s))
  = existsb (λ piece, startsWith (trim piece) (BANNED_KEY +:+ "=true")) (split ";" s).
Proof.
  change (split ";" (String " " s))
    with (match split ";" s with
          | [] => [String " " EmptyString]
          | piece :: pieces => String " " piece :: pieces
          end).
  pose proof (split_not_nil ";" s) as Hne.
  destruct (split ";" s) as [|piece pieces]; [contradiction | reflexivity].
Qed.

(** The scan of [document.cookie] is the test of every cookie of the
    store, whatever the cookies are. *)
Lemma cookie_scan_every jar :
  existsb (λ cookie, startsWith (trim cookie) (BANNED_KEY +:+ "=true"))
          (split ";" (document_cookie jar))
  = existsb cookie_reads_banned jar.
Proof.
  unfold document_cookie.
  induction jar as [|c rest IH]; [reflexivity|].
  destruct rest as [|d rest].
  - cbn [map join existsb]. rewrite orb_false_r. reflexivity.
  - change (join "; " (map cookie_text (c :: d :: rest)))
      with (cookie_text c +:+ String ";" (String " " (join "; " (map cookie_text (d :: rest))))).
    rewrite split_app, existsb_app, cookie_test_after_space, IH. reflexivity.
Qed.

Lemma cookie_reads_text c :
  contains_char ";" (cookie_text c) = false →
  cookie_reads_banned c = startsWith (trim (cookie_text c)) (BANNED_KEY +:+ "=true").
Proof.
  intros H. unfold cookie_reads_banned. rewrite (split_no_sep _ _ H).
  cbn [existsb]. apply orb_false_r.
Qed.

Lemma cookie_reads_named name value :
  cookie_ok (name, value) = true →
  cookie_reads_banned (name, value) = true
  ↔ name = BANNED_KEY ∧ startsWith value "true" = true.
Proof.
  intros Hok.
  rewrite cookie_reads_text by (apply cookie_text_no_semicolon, Hok).
  rewrite (cookie_test_text _ Hok). unfold cookie_banned. cbn [fst snd].
  rewrite andb_true_iff, String.eqb_eq. reflexivity.
Qed.

Lemma isLocallyBanned_iff st :
  isLocallyBanned st = true ↔
    storage_marked (localStorage st) ∨ storage_marked (sessionStorage st)
    ∨ ∃ c, c ∈ cookie_jar st ∧ cookie_reads_banned c = true.
Proof.
  unfold isLocallyBanned, getItem, storage_marked.
  rewrite cookie_scan_every.
  assert (Hjar : existsb cookie_reads_banned (cookie_jar st) = true
                 ↔ ∃ c, c ∈ cookie_jar st ∧ cookie_reads_banned c = true).
  { rewrite existsb_exists. split; intros (c & Hin & Hc); exists c;
      (split; [apply list_elem_of_In, Hin | exact Hc]). }
  repeat case_bool_decide.
  - tauto.
  - tauto.
  - rewrite Hjar. tauto.
Qed.

(** C1 (amended).  From every initial state of the three stores,
    [markLocalBan] leaves the marker ['sp_access_blocked' = 'true'] in all
    three, and [isLocallyBanned] then answers true.  In every state of
    the stores [isLocallyBanned] answers true exactly when localStorage
    or sessionStorage holds ['sp_access_blocked' = 'true'], or some
    cookie of the store passes the cookie test.  A cookie without a
    semicolon passes the test exactly when its text as [document.cookie]
    shows it ([name=value], and the bare value for a cookie without a
    name) begins, once trimmed, with [sp_access_blocked=true].  For a
    cookie that has a name this is a cookie named ['sp_access_blocked']
    whose value begins with ['true'], the test being a prefix match; a
    cookie without a name passes with a value that begins with
    [sp_access_blocked=true]. *)
Theorem isLocallyBanned_markers :
  (∀ st,
     storage_marked (localStorage (markLocalBan st))
     ∧ storage_marked (sessionStorage (markLocalBan st))
     ∧ jar_marked (cookie_jar (markLocalBan st))
     ∧ isLocallyBanned (markLocalBan st) = true)
  ∧ (∀ st,
       isLocallyBanned st = true ↔
         storage_marked (localStorage st) ∨ storage_marked (sessionStorage st)
         ∨ ∃ c, c ∈ cookie_jar st ∧ cookie_reads_banned c = true)
  ∧ (∀ c, contains_char ";" (cookie_text c) = false →
       cookie_reads_banned c
       = startsWith (trim (cookie_text c)) "sp_access_blocked=true")
  ∧ (∀ name value, cookie_ok (name, value) = true →
       (cookie_reads_banned (name, value) = true
        ↔ name = "sp_access_blocked" ∧ startsWith value "true" = true))
  ∧ (∀ value, contains_char ";" value = false →
       cookie_reads_banned ("", value)
       = startsWith (trim value) "sp_access_blocked=true").
Proof.
  split; [|split; [exact isLocallyBanned_iff|split; [|split]]].
  - intros st.
    split; [apply markLocalBan_sets_localStorage|].
    split; [apply markLocalBan_sets_sessionStorage|].
    split; [apply markLocalBan_sets_cookie | apply isLocallyBanned_after_mark].
  - exact cookie_reads_text.
  - exact cookie_reads_named.
  - intros value H. apply (cookie_reads_text ("", value)). exact H.
Qed.

(** A cookie set without a name counts as the marker, and so does a
    cookie whose value only begins with ['true']. *)
Lemma isLocallyBanned_markers_witness :
  cookie_jar nameless_cookie_state = [("", "sp_access_blocked=true")]
  ∧ isLocallyBanned nameless_cookie_state = true
  ∧ cookie_ok ("sp_access_blocked", "truex") = true
  ∧ cookie_reads_banned ("sp_access_blocked", "truex") = true.
Proof.
  destruct isLocallyBanned_markers as (_ & Hiff & _ & Hnamed & Hnameless).
  split; [reflexivity|]. split; [|split; [reflexivity|]].
  - apply Hiff. right. right. exists ("", "sp_access_blocked=true").
    split; [left|]. rewrite Hnameless; reflexivity.
  - apply (Hnamed "sp_access_blocked" "truex"); [reflexivity|].
    split; reflexivity.
Defined.

(** C1 as stated fails: with both storages empty and a cookie
    [sp_access_blocked=truex], no store carries the marker
    ['sp_access_blocked' = 'true'], yet [isLocallyBanned] answers true. *)
Lemma isLocallyBanned_prefix_cookie :
  jar_ok (cookie_jar prefix_cookie_state) = true ∧
  isLocallyBanned prefix_cookie_state = true ∧
  ¬ (storage_marked (localStorage prefix_cookie_state)
     ∨ storage_marked (sessionStorage prefix_cookie_state)
     ∨ jar_marked (cookie_jar prefix_cookie_state)).
Proof.
  split; [reflexivity|]. split; [vm_compute; reflexivity|].
  unfold storage_marked, jar_marked, prefix_cookie_state. simpl.
  intros [H|[H|H]].
  - rewrite lookup_empty in H. discriminate.
  - rewrite lookup_empty in H. discriminate.
  - apply list_elem_of_In in H. destruct H as [H|[]]. discriminate.
Qed.

End IpServiceFacts.

(** ** Running effectful code *)

Module EffectsFacts.
Import Effects.

Lemma run_bind {W A B} (c : M W A) (k : A → M W B) w :
  run (bind c k) w =
  match run c w with
  | (Returned a, w') => run (k a) w'
  | (Thrown e, w') => (Thrown e, w')
  end.
Proof. reflexivity. Qed.

Lemma run_try_catch {W A} (body : M W A) handler w :
  run (try_catch body handler) w =
  match run body w with
  | (Returned a, w') => (Returned a, w')
  | (Thrown e, w') => run (handler e) w'
  end.
Proof. reflexivity. Qed.

Lemma run_or_else {W A} (c : M W (option A)) next w :
  run (or_else c next) w =
  match run c w with
  | (Returned (Some a), w') => (Returned a, w')
  | (Returned None, w') => run next w'
  | (Thrown e, w') => (Thrown e, w')
  end.
Proof. run_effects. destruct (c w) as [[[a|]|e] w']; reflexivity. Qed.

End EffectsFacts.

(** ** ipService: reporting a desktop access *)

Module ReportFacts.
Import JsString Browser IpService Effects EffectsFacts IpServiceEffects IpServiceFacts.

(** C4.  Whatever the POST to [/api/admin/report-desktop-access] does
    (it resolves or it throws), [reportDesktopAccess] returns without
    throwing, and when it returns both localStorage and sessionStorage
    hold ['sp_access_blocked' = 'true']. *)
Theorem reportDesktopAccess_bans_locally dev now href api w :
  ∃ w', run (reportDesktopAccess dev now href api) w = (Returned tt, w')
        ∧ storage_marked (localStorage (store w'))
        ∧ storage_marked (sessionStorage (store w')).
Proof.
  unfold reportDesktopAccess.
  rewrite run_try_catch, !run_bind.
  unfold localStorage_setItem, sessionStorage_setItem, assign_document_cookie,
    apiRequest. run_effects.
  destruct (api _).
  - eexists. split; [reflexivity|]. split; apply lookup_insert_eq.
  - eexists. split; [reflexivity|]. split; apply lookup_insert_eq.
Qed.

End ReportFacts.

(** ** ipService: the ban checks *)

Module BanChecksFacts.
Import JsString Browser IpService Effects IpServiceEffects IpServiceFacts.
Import BanChecks EffectsFacts.

Section Steps.
Variable server : string → fetched reply.
Variable api : request → bool.

Lemma after_nothing w : after w [] false = w.
Proof. destruct w. unfold after. cbn. rewrite app_nil_r. reflexivity. Qed.

Lemma after_after w sent1 sent2 marked :
  after (after w sent1 false) sent2 marked = after w (sent1 ++ sent2) marked.
Proof. unfold after. cbn. rewrite app_assoc. reflexivity. Qed.

Lemma check_device_run deviceId w :
  run (check_device server deviceId) w =
  if device_positive server deviceId
  then (Returned (Some {| isBanned := true; ip := None |}),
        after w (device_requests deviceId) true)
  else (Returned None, after w (device_requests deviceId) false).
Proof.
  unfold check_device, device_positive, device_requests.
  destruct deviceId as [id|]; [|rewrite after_nothing; reflexivity].
  destruct (truthy (Some id)) eqn:Hid; [|rewrite after_nothing; reflexivity].
  cbn [andb].
  unfold fetch, json, property, issue, answer, status_banned, after. run_effects.
  fold (device_url id).
  destruct (server (device_url id)) as [|[] [[|data]|]]; cbn; try reflexivity.
  destruct (bool_decide _); reflexivity.
Qed.

Lemma check_ip_status_run deviceId w :
  run (check_ip_status server api deviceId) w =
  match answer (server ip_status_url) with
  | Some ipData =>
      if status_banned ipData
      then (Returned (Some {| isBanned := true; ip := data_ip ipData |}),
            after w (GET ip_status_url :: registration_requests deviceId) true)
      else (Returned (Some {| isBanned := false; ip := data_ip ipData |}),
            after w [GET ip_status_url] false)
  | None => (Returned None, after w [GET ip_status_url] false)
  end.
Proof.
  unfold check_ip_status, registration_requests, registerDeviceId, apiRequest,
    fetch, json, property, issue, answer, status_banned, after. run_effects.
  fold ip_status_url.
  destruct (server ip_status_url) as [|[] [[|data]|]]; cbn; try reflexivity.
  destruct (bool_decide _); [|reflexivity].
  destruct deviceId as [id|]; [destruct (truthy (Some id))|];
    cbn; rewrite <- ?app_assoc; try reflexivity.
  destruct (api _); reflexivity.
Qed.

Lemma check_legacy_run w :
  run (check_legacy server) w =
  match answer (server legacy_url) with
  | Some data =>
      (Returned (Some {| isBanned := data_isBanned data; ip := data_ip data |}),
       after w [GET legacy_url] (data_isBanned data))
  | None => (Returned None, after w [GET legacy_url] false)
  end.
Proof.
  unfold check_legacy, fetch, json, property, issue, answer, after. run_effects.
  fold legacy_url.
  destruct (server legacy_url) as [|[] [[|data]|]]; cbn; try reflexivity.
  destruct (data_isBanned data); reflexivity.
Qed.

Lemma fallback_run error w :
  run (checkIfBanned_fallback error) w
  = (Returned {| isBanned := isLocallyBanned (store w); ip := None |}, w).
Proof.
  unfold checkIfBanned_fallback, isLocallyBanned_. run_effects.
  destruct (isLocallyBanned (store w)); reflexivity.
Qed.

(** The whole of [checkIfBanned], step by step. *)
Lemma checkIfBanned_run w :
  run (checkIfBanned server api) w =
  if isLocallyBanned (store w)
  then (Returned {| isBanned := true; ip := None |}, w)
  else
    let deviceId := getItem (localStorage (store w)) BANNED_DEVICE_KEY in
    (Returned (remote_verdict server deviceId),
     after w (issued server deviceId) (isBanned (remote_verdict server deviceId))).
Proof.
  unfold checkIfBanned. rewrite run_try_catch, run_bind.
  change (run isLocallyBanned_ w) with (Returned (isLocallyBanned (store w)), w).
  cbv beta iota.
  destruct (isLocallyBanned (store w)) eqn:Hlocal; [reflexivity|].
  rewrite run_bind.
  change (run (localStorage_getItem BANNED_DEVICE_KEY) w)
    with (Returned (getItem (localStorage (store w)) BANNED_DEVICE_KEY), w).
  cbv beta iota zeta.
  set (deviceId := getItem (localStorage (store w)) BANNED_DEVICE_KEY).
  rewrite run_or_else, check_device_run.
  unfold remote_verdict, issued.
  destruct (device_positive server deviceId); [reflexivity|].
  rewrite run_or_else, check_ip_status_run.
  unfold ip_verdict.
  destruct (answer (server ip_status_url)) as [ipData|].
  - destruct (status_banned ipData); cbn [isBanned];
      rewrite after_after; reflexivity.
  - rewrite run_or_else, check_legacy_run.
    destruct (answer (server legacy_url)) as [data|]; cbn [isBanned];
      rewrite !after_after; reflexivity.
Qed.

End Steps.

Lemma device_url_not_legacy id : device_url id ≠ legacy_url.
Proof. unfold device_url, legacy_url. discriminate. Qed.

Lemma legacy_in_device_requests deviceId :
  GET legacy_url ∈ device_requests deviceId → False.
Proof.
  unfold device_requests. destruct deviceId as [id|]; [destruct (truthy _)|].
  - intros H. apply list_elem_of_singleton in H.
    apply (device_url_not_legacy id). congruence.
  - intros H. apply elem_of_nil in H. exact H.
  - intros H. apply elem_of_nil in H. exact H.
Qed.

Lemma legacy_in_registration_requests deviceId :
  GET legacy_url ∈ registration_requests deviceId → False.
Proof.
  unfold registration_requests. destruct deviceId as [id|]; [destruct (truthy _)|].
  - intros H. apply list_elem_of_singleton in H. discriminate.
  - intros H. apply elem_of_nil in H. exact H.
  - intros H. apply elem_of_nil in H. exact H.
Qed.

Lemma filter_GET_device_requests deviceId :
  List.filter is_GET (device_requests deviceId) = device_requests deviceId.
Proof.
  unfold device_requests. destruct deviceId as [id|]; [destruct (truthy _)|]; reflexivity.
Qed.

Lemma filter_GET_registration_requests deviceId :
  List.filter is_GET (registration_requests deviceId) = [].
Proof.
  unfold registration_requests.
  destruct deviceId as [id|]; [destruct (truthy _)|]; reflexivity.
Qed.

(** The endpoints are consulted in the order device, IP status, legacy. *)
Lemma issued_in_order server deviceId :
  List.filter is_GET (issued server deviceId) `prefix_of` check_order deviceId.
Proof.
  unfold issued, check_order.
  destruct (device_positive server deviceId).
  - rewrite filter_GET_device_requests. apply prefix_app_r. reflexivity.
  - rewrite List.filter_app, filter_GET_device_requests.
    apply prefix_app. cbn [List.filter is_GET].
    destruct (answer (server ip_status_url)) as [ipData|].
    + destruct (status_banned ipData).
      * rewrite filter_GET_registration_requests. exists [GET legacy_url]. reflexivity.
      * exists [GET legacy_url]. reflexivity.
    + reflexivity.
Qed.

(** The legacy endpoint is consulted only when the device check found no
    ban and the IP-status endpoint gave no answer. *)
Lemma legacy_consulted server deviceId :
  GET legacy_url ∈ issued server deviceId ↔
  device_positive server deviceId = false ∧ answer (server ip_status_url) = None.
Proof.
  unfold issued. destruct (device_positive server deviceId).
  - split; [|intros [? _]; discriminate].
    intros H. destruct (legacy_in_device_requests _ H).
  - rewrite elem_of_app, elem_of_cons.
    destruct (answer (server ip_status_url)) as [ipData|].
    + split; [|intros [_ ?]; discriminate].
      intros [H|[H|H]].
      * destruct (legacy_in_device_requests _ H).
      * discriminate.
      * destruct (status_banned ipData).
        -- destruct (legacy_in_registration_requests _ H).
        -- apply elem_of_nil in H. destruct H.
    + split; [tauto|]. intros _. right. right. apply list_elem_of_singleton. reflexivity.
Qed.

End BanChecksFacts.

(** ** ipService: the device identifier *)

Module FingerprintFacts.
Import JsString JsStringFacts JsNumber IpServiceEffects.
Local Open Scope Z_scope.

Lemma digits_range fuel radix n :
  0 < radix → Forall (λ d, 0 <= d < radix) (digits fuel radix n).
Proof.
  intros Hr. revert n. induction fuel as [|fuel IH]; intros n; simpl.
  - constructor.
  - destruct (n =? 0); constructor; [apply Z.mod_pos_bound, Hr | apply IH].
Qed.

(** The value of digits given least significant first. *)
Lemma digits_value_sound fuel radix n :
  2 <= radix → 0 <= n < 2 ^ Z.of_nat fuel →
  fold_right (λ d acc, d + radix * acc) 0 (digits fuel radix n) = n.
Proof.
  intros Hr. revert n. induction fuel as [|fuel IH]; intros n Hn.
  - simpl in *. lia.
  - cbn [digits]. destruct (n =? 0) eqn:Hz.
    + apply Z.eqb_eq in Hz. simpl. lia.
    + cbn [fold_right]. rewrite IH.
      * pose proof (Z.div_mod n radix). lia.
      * rewrite Nat2Z.inj_succ, Z.pow_succ_r in Hn by lia.
        split; [apply Z.div_pos; lia|].
        apply Z.div_lt_upper_bound; [lia|]. nia.
Qed.

Lemma digits_of_sound radix n :
  2 <= radix → 0 < n →
  fold_right (λ d acc, d + radix * acc) 0 (digits_of radix n) = n.
Proof.
  intros Hr Hn. unfold digits_of. apply digits_value_sound; [exact Hr|].
  split; [lia|].
  rewrite Nat2Z.inj_succ, Z2Nat.id by apply Z.log2_nonneg.
  apply Z.log2_spec, Hn.
Qed.

Lemma digit_value_char d : 0 <= d < 36 → digit_value (digit_char d) = d.
Proof.
  intros Hd. unfold digit_value, digit_char.
  destruct (d <? 10) eqn:Hlt.
  - apply Z.ltb_lt in Hlt.
    rewrite N_ascii_embedding by lia. rewrite Z2N.id by lia.
    destruct (48 + d <? 58) eqn:H; [lia|]. apply Z.ltb_ge in H. lia.
  - apply Z.ltb_ge in Hlt.
    rewrite N_ascii_embedding by lia. rewrite Z2N.id by lia.
    destruct (87 + d <? 58) eqn:H; [|lia]. apply Z.ltb_lt in H. lia.
Qed.

Lemma digit_char_not_minus d : 0 <= d < 36 → digit_char d ≠ "-"%char.
Proof.
  intros Hd Heq. apply (f_equal N_of_ascii) in Heq.
  unfold digit_char in Heq. rewrite N_ascii_embedding in Heq.
  - change (N_of_ascii "-") with 45%N in Heq. destruct (d <? 10); lia.
  - destruct (d <? 10) eqn:H; [apply Z.ltb_lt in H | apply Z.ltb_ge in H]; lia.
Qed.

Lemma digits_value_string radix ds acc :
  Forall (λ d, 0 <= d < 36) ds →
  fold_left (λ a c, a * radix + digit_value c)
            (String.list_ascii_of_string (string_of_digits ds)) acc
  = fold_left (λ a d, a * radix + d) ds acc.
Proof.
  unfold string_of_digits. rewrite String.list_ascii_of_string_of_list_ascii.
  intros Hds. revert acc. induction Hds as [|d ds Hd _ IH]; intros acc.
  - reflexivity.
  - cbn [map fold_left]. rewrite digit_value_char by exact Hd. apply IH.
Qed.

Lemma fold_left_rev_digits radix ds :
  fold_left (λ a d, a * radix + d) (rev ds) 0
  = fold_right (λ d acc, d + radix * acc) 0 ds.
Proof.
  rewrite <- fold_left_rev_right, rev_involutive.
  induction ds as [|d ds IH]; [reflexivity|].
  cbn [fold_right]. rewrite IH. lia.
Qed.

Lemma parse_digits radix ds :
  Forall (λ d, 0 <= d < 36) ds →
  parseInt radix (string_of_digits ds) = fold_left (λ a d, a * radix + d) ds 0.
Proof.
  intros Hds. unfold parseInt.
  destruct ds as [|d ds]; [reflexivity|].
  pose proof (digits_value_string radix (d :: ds) 0 Hds) as Hval.
  unfold digits_value.
  change (string_of_digits (d :: ds))
    with (String (digit_char d) (string_of_digits ds)) in *.
  apply Forall_cons in Hds as [Hd _].
  pose proof (digit_char_not_minus d Hd) as Hminus.
  destruct (digit_char d) as [[] [] [] [] [] [] [] []]; try exact Hval.
  destruct Hminus. reflexivity.
Qed.

Lemma digits_of_valid radix n :
  2 <= radix <= 36 → Forall (λ d, 0 <= d < 36) (rev (digits_of radix n)).
Proof.
  intros Hr. apply Forall_rev. unfold digits_of.
  eapply Forall_impl; [apply digits_range; lia|].
  cbv beta. intros d Hd. lia.
Qed.

Lemma digits_value_text radix n :
  2 <= radix <= 36 → 0 < n →
  digits_value radix (string_of_digits (rev (digits_of radix n))) = n.
Proof.
  intros Hr Hn. unfold digits_value.
  rewrite digits_value_string by (apply digits_of_valid, Hr).
  rewrite fold_left_rev_digits. apply digits_of_sound; lia.
Qed.

Lemma positive_text radix n :
  2 <= radix <= 36 → 0 < n →
  parseInt radix (string_of_digits (rev (digits_of radix n))) = n.
Proof.
  intros Hr Hn. rewrite parse_digits by (apply digits_of_valid, Hr).
  rewrite fold_left_rev_digits. apply digits_of_sound; lia.
Qed.

(** [parseInt] reads back what [toString] wrote. *)
Lemma parseInt_toString radix n :
  2 <= radix <= 36 → parseInt radix (toString radix n) = n.
Proof.
  intros Hr. unfold toString.
  destruct (n =? 0) eqn:Hz; [apply Z.eqb_eq in Hz; subst; reflexivity|].
  apply Z.eqb_neq in Hz.
  destruct (n <? 0) eqn:Hneg.
  - apply Z.ltb_lt in Hneg. cbn [parseInt].
    rewrite digits_value_text by lia. lia.
  - apply Z.ltb_ge in Hneg. apply positive_text; lia.
Qed.

Lemma toString_injective radix a b :
  2 <= radix <= 36 → toString radix a = toString radix b → a = b.
Proof.
  intros Hr H. apply (f_equal (parseInt radix)) in H.
  rewrite !parseInt_toString in H by exact Hr. exact H.
Qed.

Lemma append_cancel_l s a b : s +:+ a = s +:+ b → a = b.
Proof.
  induction s as [|c s IH]; [trivial|].
  rewrite !append_cons. intros H. injection H as H. exact (IH H).
Qed.

(** C3 (amended).  The identifier is the fingerprint [dev_<hash>], which
    is computed from the device attributes alone, followed by an
    underscore and the call's [Date.now()] in base 36.  For a fixed tuple
    of attributes every call starts with the same fingerprint, and two
    calls return the same identifier exactly when they read the same
    clock value. *)
Theorem generateDeviceId_fingerprint_and_clock d t1 t2 :
  generateDeviceId d t1 = fingerprint d +:+ "_" +:+ toString 36 t1
  ∧ startsWith (generateDeviceId d t1) (fingerprint d) = true
  ∧ startsWith (generateDeviceId d t2) (fingerprint d) = true
  ∧ (generateDeviceId d t1 = generateDeviceId d t2 ↔ t1 = t2).
Proof.
  split; [reflexivity|]. split; [apply startsWith_refl_app|].
  split; [apply startsWith_refl_app|]. split.
  - unfold generateDeviceId. intros H.
    apply append_cancel_l, append_cancel_l in H.
    apply (toString_injective 36); [lia | exact H].
  - intros ->. reflexivity.
Qed.

(** C3 as stated fails: the same device, asked one millisecond apart,
    gets two different identifiers. *)
Lemma generateDeviceId_changes_with_clock :
  generateDeviceId sample_device 1762153200000 = "dev_628529b8_mhisin40"
  ∧ generateDeviceId sample_device 1762153200001 = "dev_628529b8_mhisin41"
  ∧ String.eqb (generateDeviceId sample_device 1762153200000)
               (generateDeviceId sample_device 1762153200001) = false.
Proof. repeat split; vm_compute; reflexivity. Qed.

End FingerprintFacts.

(** ** GeolocationService: the format of a postal code *)

Module PostalCodeFormatFacts.
Import JsString JsStringFacts Regex PostalCodeFormat.

Lemma rep_digit n s :
  remainders (Rep n Digit) s =
  match take_digits n s with Some rest => [rest] | None => [] end.
Proof.
  revert s. induction n as [|n IH]; intros s; [reflexivity|].
  change (remainders (Rep (S n) Digit) s)
    with (flat_map (remainders (Rep n Digit)) (one_char is_digit s)).
  destruct s as [|c rest]; [reflexivity|].
  cbn [one_char take_digits]. destruct (is_digit c); [|reflexivity].
  cbn [flat_map]. rewrite IH, app_nil_r. reflexivity.
Qed.

Lemma all_digits_nil : all_digits EmptyString.
Proof. constructor. Qed.

Lemma all_digits_cons c s :
  all_digits (String c s) ↔ is_digit c = true ∧ all_digits s.
Proof.
  unfold all_digits. cbn [String.list_ascii_of_string].
  split; [intros H; inversion H; auto | intros [Hc Hs]; constructor; assumption].
Qed.

Lemma take_digits_spec n s rest :
  take_digits n s = Some rest ↔
  ∃ ds, String.length ds = n ∧ all_digits ds ∧ s = ds +:+ rest.
Proof.
  revert s. induction n as [|n IH]; intros s.
  - cbn [take_digits]. split.
    + intros [= ->]. exists EmptyString. auto using all_digits_nil.
    + intros (ds & Hlen & _ & ->). destruct ds; [reflexivity | discriminate].
  - cbn [take_digits]. destruct s as [|c s].
    + split; [discriminate|].
      intros ([|d ds] & Hlen & _ & Heq); discriminate.
    + destruct (is_digit c) eqn:Hc.
      * rewrite IH. split.
        -- intros (ds & Hlen & Hds & ->). exists (String c ds).
           split; [cbn; congruence|]. split; [|reflexivity].
           apply all_digits_cons. auto.
        -- intros ([|d ds] & Hlen & Hds & Heq); [discriminate|].
           rewrite append_cons in Heq. injection Heq as <- ->.
           exists ds. apply all_digits_cons in Hds as [_ Hds].
           cbn in Hlen. split; [congruence|]. auto.
      * split; [discriminate|].
        intros ([|d ds] & Hlen & Hds & Heq); [discriminate|].
        rewrite append_cons in Heq. injection Heq as <- ->.
        apply all_digits_cons in Hds as [Hd _]. congruence.
Qed.

Lemma append_empty_r s : s +:+ EmptyString = s.
Proof. induction s as [|c s IH]; [reflexivity|]. rewrite append_cons, IH. reflexivity. Qed.

Lemma length_append a b : String.length (a +:+ b) = (String.length a + String.length b)%nat.
Proof. induction a as [|c a IH]; [reflexivity|]. rewrite append_cons. cbn. rewrite IH. reflexivity. Qed.

Lemma all_digits_app a b : all_digits (a +:+ b) ↔ all_digits a ∧ all_digits b.
Proof.
  induction a as [|c a IH].
  - rewrite append_nil_l. split; [auto using all_digits_nil | intros [_ H]; exact H].
  - rewrite append_cons, !all_digits_cons, IH. tauto.
Qed.

Lemma take_digits_all n s :
  take_digits n s = Some EmptyString ↔ String.length s = n ∧ all_digits s.
Proof.
  rewrite take_digits_spec. split.
  - intros (ds & Hlen & Hds & ->). rewrite append_empty_r. auto.
  - intros [Hlen Hs]. exists s. rewrite append_empty_r. auto.
Qed.

(** The Chilean pattern: exactly seven digits. *)
Lemma test_CL s : test (Rep 7 Digit) s = true ↔ seven_digits s.
Proof.
  unfold test, seven_digits. rewrite rep_digit, <- take_digits_all.
  destruct (take_digits 7 s) as [[|c rest]|]; cbn; split; congruence.
Qed.

(** The Brazilian pattern: five digits, an optional hyphen, three digits. *)
Lemma test_BR s :
  test (Seq (Rep 5 Digit) (Seq (Opt (Chr "-")) (Rep 3 Digit))) s = true ↔ cep_shape s.
Proof.
  unfold test, cep_shape.
  change (remainders (Seq (Rep 5 Digit) (Seq (Opt (Chr "-")) (Rep 3 Digit))) s)
    with (flat_map
            (λ r, flat_map (remainders (Rep 3 Digit)) (one_char (Ascii.eqb "-") r ++ [r]))
            (remainders (Rep 5 Digit) s)).
  rewrite rep_digit. destruct (take_digits 5 s) as [r|] eqn:H5.
  - apply take_digits_spec in H5 as (five & Hlen5 & Hfive & ->).
    cbn [flat_map]. rewrite app_nil_r, flat_map_app. cbn [flat_map].
    rewrite app_nil_r, existsb_app, orb_true_iff, (rep_digit 3 r).
    split.
    + intros [Hhyphen|Hplain].
      * destruct r as [|c r']; [discriminate|]. cbn [one_char] in Hhyphen.
        destruct (Ascii.eqb "-" c) eqn:Hc; [|discriminate].
        apply Ascii.eqb_eq in Hc as <-.
        cbn [flat_map] in Hhyphen. rewrite app_nil_r, rep_digit in Hhyphen.
        destruct (take_digits 3 r') as [[|x rest]|] eqn:H3; try discriminate.
        apply take_digits_all in H3 as [Hlen3 Hthree].
        exists five, r'. auto 10.
      * destruct (take_digits 3 r) as [[|x rest]|] eqn:H3; try discriminate.
        apply take_digits_all in H3 as [Hlen3 Hthree].
        exists five, r. auto 10.
    + intros (five' & three & Hlen5' & Hfive' & Hlen3 & Hthree & Heq).
      assert (Hsame : ∀ x y, five +:+ x = five' +:+ y → five = five' ∧ x = y).
      { clear -Hlen5 Hlen5'. revert five' Hlen5'. rewrite <- Hlen5. clear Hlen5.
        induction five as [|c five IH]; intros [|c' five'] Hlen x y Heq;
          try discriminate; [auto|].
        rewrite !append_cons in Heq. injection Heq as -> Heq.
        cbn in Hlen. destruct (IH five' ltac:(congruence) x y Heq) as [-> ->]. auto. }
      destruct Heq as [Heq|Heq]; apply Hsame in Heq as [-> ->].
      * right. rewrite (proj2 (take_digits_all 3 three)) by auto. reflexivity.
      * left. change ("-" +:+ three) with (String "-" three).
        cbn [one_char]. rewrite Ascii.eqb_refl. cbn [flat_map].
        rewrite app_nil_r, rep_digit, (proj2 (take_digits_all 3 three)) by auto.
        reflexivity.
  - cbn. split; [discriminate|].
    intros (five & three & Hlen5 & Hfive & _ & _ & Heq).
    assert (take_digits 5 s ≠ None) as Hsome; [|congruence].
    destruct Heq as [->| ->];
      [pose proof (proj2 (take_digits_spec 5 (five +:+ three) three)) as H
      |pose proof (proj2 (take_digits_spec 5 (five +:+ "-" +:+ three) ("-" +:+ three))) as H];
      rewrite H; [discriminate | eauto | discriminate | eauto].
Qed.

Lemma eq_ignore_case_upper a b :
  eq_ignore_case a b = true ↔ toUpperCase a = toUpperCase b.
Proof.
  revert b. induction a as [|x a IH]; intros [|y b]; cbn [eq_ignore_case toUpperCase];
    try (split; [discriminate | discriminate]); [tauto|].
  rewrite andb_true_iff, Ascii.eqb_eq, IH. split.
  - intros [-> ->]. reflexivity.
  - intros [= -> ->]. auto.
Qed.

Lemma in_table_upper country :
  in_table country ↔ toUpperCase country ∈ table_countries.
Proof.
  unfold in_table. split.
  - intros (k & Hk & Heq). apply eq_ignore_case_upper in Heq. rewrite Heq.
    apply list_elem_of_In in Hk. apply list_elem_of_In.
    cbn [table_countries In] in *.
    destruct Hk as [<-|[<-|[<-|[<-|[<-|[]]]]]]; cbn; tauto.
  - intros H. exists (toUpperCase country). split; [exact H|].
    apply eq_ignore_case_upper.
    apply list_elem_of_In in H. cbn [table_countries In] in H.
    destruct H as [<-|[<-|[<-|[<-|[<-|[]]]]]]; reflexivity.
Qed.

Lemma patterns_outside_table country :
  ¬ in_table country → patterns !! toUpperCase country = None.
Proof.
  rewrite in_table_upper. intros H.
  apply not_elem_of_list_to_map_1. exact H.
Qed.

Lemma patterns_BR country :
  eq_ignore_case country "BR" = true →
  patterns !! toUpperCase country
  = Some (Seq (Rep 5 Digit) (Seq (Opt (Chr "-")) (Rep 3 Digit))).
Proof. intros H. apply eq_ignore_case_upper in H. rewrite H. reflexivity. Qed.

Lemma patterns_CL country :
  eq_ignore_case country "CL" = true →
  patterns !! toUpperCase country = Some (Rep 7 Digit).
Proof. intros H. apply eq_ignore_case_upper in H. rewrite H. reflexivity. Qed.

Lemma is_white_space_listed c :
  is_white_space c = existsb (Ascii.eqb c) white_space_characters.
Proof. destruct c as [[] [] [] [] [] [] [] []]; reflexivity. Qed.

(** What [replace(/\s/g, '')] leaves: the characters that are none of
    the seven, in their order. *)
Lemma remove_white_space_without code :
  remove_white_space code = without white_space_characters code.
Proof.
  unfold without. induction code as [|c code IH]; [reflexivity|].
  cbn [remove_white_space String.list_ascii_of_string List.filter].
  rewrite <- is_white_space_listed.
  destruct (is_white_space c); cbn [negb String.string_of_list_ascii];
    rewrite IH; reflexivity.
Qed.

Lemma US_not_in_table : ¬ in_table "US".
Proof.
  rewrite in_table_upper. intros H.
  apply list_elem_of_In in H. cbn in H.
  destruct H as [H|[H|[H|[H|[H|[]]]]]]; discriminate.
Qed.



End PostalCodeFormatFacts.

(** ** The Municipios page: the three start dates *)

Module StartDatesFacts.
Import JsString JsStringFacts JsNumber JsDate StartDates.
Local Open Scope Z_scope.

Lemma days_in_month_bounds y m : 28 <= days_in_month y m <= 31.
Proof.
  unfold days_in_month.
  destruct (m =? 1); [destruct (is_leap y); lia|].
  destruct ((m =? 3) || (m =? 5) || (m =? 8) || (m =? 10)); lia.
Qed.

(** A day of the month within its month stays where it is. *)
Lemma carry_forward_within fuel y m n :
  n <= days_in_month y m → carry_forward fuel y m n = Date y m n.
Proof.
  intros Hn. destruct fuel as [|fuel]; [reflexivity|].
  cbn [carry_forward]. destruct (n <=? days_in_month y m) eqn:H; [reflexivity|].
  apply Z.leb_gt in H. lia.
Qed.

(** A day of the month at most 28 days past the end goes to the next
    month, and to January of the next year after December. *)
Lemma carry_forward_once fuel y m n :
  days_in_month y m < n <= days_in_month y m + 28 →
  carry_forward (S fuel) y m n =
  if m =? 11 then Date (y + 1) 0 (n - days_in_month y m)
  else Date y (m + 1) (n - days_in_month y m).
Proof.
  intros Hn. cbn [carry_forward].
  destruct (n <=? days_in_month y m) eqn:H; [apply Z.leb_le in H; lia|].
  destruct (m =? 11); apply carry_forward_within.
  - pose proof (days_in_month_bounds (y + 1) 0). lia.
  - pose proof (days_in_month_bounds y (m + 1)). lia.
Qed.

Lemma setDate_within d i :
  1 <= day d → 0 <= i → day d + i <= days_in_month (year d) (month d) →
  setDate (getDate d + i) d = Date (year d) (month d) (day d + i).
Proof.
  intros Hd Hi Hn. unfold setDate, getDate.
  destruct (1 <=? day d + i) eqn:H; [|apply Z.leb_gt in H; lia].
  apply carry_forward_within, Hn.
Qed.

Lemma setDate_past d i :
  1 <= day d → 0 <= i <= 28 →
  day d <= days_in_month (year d) (month d) < day d + i →
  setDate (getDate d + i) d =
  if month d =? 11
  then Date (year d + 1) 0 (day d + i - days_in_month (year d) (month d))
  else Date (year d) (month d + 1) (day d + i - days_in_month (year d) (month d)).
Proof.
  intros Hd Hi Hn. unfold setDate, getDate.
  destruct (1 <=? day d + i) eqn:H; [|apply Z.leb_gt in H; lia].
  destruct (Z.to_nat (day d + i)) as [|fuel] eqn:Hfuel; [lia|].
  apply carry_forward_once. lia.
Qed.

Lemma next_day_within d :
  day d < days_in_month (year d) (month d) →
  next_day d = Date (year d) (month d) (day d + 1).
Proof.
  intros H. unfold next_day.
  destruct (day d <? _) eqn:Hlt; [reflexivity | apply Z.ltb_ge in Hlt; lia].
Qed.

Lemma next_day_last d :
  days_in_month (year d) (month d) <= day d →
  next_day d = if month d =? 11 then Date (year d + 1) 0 1
               else Date (year d) (month d + 1) 1.
Proof.
  intros H. unfold next_day.
  destruct (day d <? _) eqn:Hlt; [apply Z.ltb_lt in Hlt; lia | reflexivity].
Qed.

(** [setDate(getDate() + 1)] on a date is the next calendar day. *)
Lemma setDate_next_day d :
  valid_date d → setDate (getDate d + 1) d = next_day d.
Proof.
  intros [Hm Hd].
  destruct (Z.lt_ge_cases (day d) (days_in_month (year d) (month d))) as [Hlt|Hge].
  - rewrite setDate_within, next_day_within by lia. reflexivity.
  - rewrite setDate_past, next_day_last by lia.
    replace (day d + 1 - days_in_month (year d) (month d)) with 1 by lia.
    reflexivity.
Qed.

Lemma next_day_valid d : valid_date d → valid_date (next_day d).
Proof.
  intros [Hm Hd]. unfold next_day, valid_date.
  destruct (day d <? _) eqn:Hlt.
  - apply Z.ltb_lt in Hlt. cbn. lia.
  - destruct (month d =? 11) eqn:H11; cbn.
    + pose proof (days_in_month_bounds (year d + 1) 0). lia.
    + apply Z.eqb_neq in H11.
      pose proof (days_in_month_bounds (year d) (month d + 1)). lia.
Qed.

(** Setting the day of the month one further is one more calendar day. *)
Lemma setDate_step d i :
  valid_date d → 0 <= i <= 27 →
  setDate (getDate d + (i + 1)) d = next_day (setDate (getDate d + i) d).
Proof.
  intros [Hm Hd] Hi.
  pose proof (days_in_month_bounds (year d) (month d)) as Hdim.
  destruct (Z.lt_ge_cases (day d + i) (days_in_month (year d) (month d))) as [Hlt|Hge].
  - rewrite (setDate_within d i), (setDate_within d (i + 1)) by lia.
    rewrite next_day_within by (cbn; lia). cbn. f_equal. lia.
  - destruct (Z.eq_dec (day d + i) (days_in_month (year d) (month d))) as [Heq|Hne].
    + rewrite (setDate_within d i), (setDate_past d (i + 1)) by lia.
      rewrite next_day_last by (cbn; lia). cbn.
      replace (day d + (i + 1) - days_in_month (year d) (month d)) with 1 by lia.
      reflexivity.
    + rewrite (setDate_past d i), (setDate_past d (i + 1)) by lia.
      destruct (month d =? 11) eqn:H11.
      * pose proof (days_in_month_bounds (year d + 1) 0).
        rewrite next_day_within by (cbn; lia). cbn. f_equal. lia.
      * pose proof (days_in_month_bounds (year d) (month d + 1)).
        rewrite next_day_within by (cbn; lia). cbn. f_equal. lia.
Qed.

Lemma list_of_append a b :
  String.list_ascii_of_string (a +:+ b)
  = String.list_ascii_of_string a ++ String.list_ascii_of_string b.
Proof.
  induction a as [|c a IH]; [reflexivity|].
  rewrite append_cons. cbn. rewrite IH. reflexivity.
Qed.

Lemma string_of_app l1 l2 :
  String.string_of_list_ascii (l1 ++ l2)
  = String.string_of_list_ascii l1 +:+ String.string_of_list_ascii l2.
Proof.
  induction l1 as [|c l1 IH]; [reflexivity|].
  cbn [app String.string_of_list_ascii]. rewrite IH. reflexivity.
Qed.

Lemma endsWith_append s suffix : endsWith (s +:+ suffix) suffix = true.
Proof.
  unfold endsWith. rewrite list_of_append, rev_app_distr, string_of_app.
  apply startsWith_refl_app.
Qed.

Lemma value_ends_2025 d : endsWith (value (entry_of d)) "/2025" = true.
Proof.
  unfold entry_of. cbn [value].
  assert (Hassoc : ∀ a b c, a +:+ b +:+ c = (a +:+ b) +:+ c).
  { intros a b c. induction a as [|x a IH]; [reflexivity|].
    rewrite !append_cons, IH. reflexivity. }
  rewrite (Hassoc (toString 10 (getDate d))), Hassoc.
  apply endsWith_append.
Qed.

(** The days from 1970 to the first of January grow by the length of
    the year. *)
Lemma day_from_year_next y :
  day_from_year (y + 1) = day_from_year y + (if is_leap y then 366 else 365).
Proof.
  unfold day_from_year, is_leap.
  destruct (y mod 4 =? 0) eqn:H4; destruct (y mod 100 =? 0) eqn:H100;
    destruct (y mod 400 =? 0) eqn:H400; cbn [andb orb negb];
    repeat match goal with
      | H : (_ =? _) = true |- _ => apply Z.eqb_eq in H
      | H : (_ =? _) = false |- _ => apply Z.eqb_neq in H
      end;
    Z.div_mod_to_equations; lia.
Qed.

Lemma days_before_month_next y m :
  0 <= m →
  days_before_month y (Z.to_nat (m + 1))
  = days_before_month y (Z.to_nat m) + days_in_month y m.
Proof.
  intros Hm. replace (Z.to_nat (m + 1)) with (S (Z.to_nat m)) by lia.
  cbn [days_before_month]. rewrite Z2Nat.id by exact Hm. reflexivity.
Qed.

Lemma days_before_december y :
  days_before_month y 11 + days_in_month y 11 = if is_leap y then 366 else 365.
Proof.
  cbn [days_before_month]. unfold days_in_month. cbn.
  destruct (is_leap y); reflexivity.
Qed.

(** The next calendar day is one day further from 1970. *)
Lemma day_number_next_day d :
  valid_date d → day_number (next_day d) = day_number d + 1.
Proof.
  intros [Hm Hd]. unfold day_number.
  destruct (Z.lt_ge_cases (day d) (days_in_month (year d) (month d))) as [Hlt|Hge].
  - rewrite next_day_within by exact Hlt. cbn [year month day]. lia.
  - rewrite next_day_last by exact Hge.
    destruct (month d =? 11) eqn:H11; cbn [year month day].
    + apply Z.eqb_eq in H11. rewrite H11 in *.
      rewrite day_from_year_next.
      pose proof (days_before_december (year d)) as Hdec.
      change (Z.to_nat 11) with 11%nat. change (Z.to_nat 0) with 0%nat.
      cbn [days_before_month] in *. lia.
    + rewrite days_before_month_next by lia. lia.
Qed.

(** The day of the week goes one further with every day. *)
Lemma getDay_next_day d :
  valid_date d → getDay (next_day d) = (getDay d + 1) mod 7.
Proof.
  intros H. unfold getDay. rewrite (day_number_next_day d H).
  rewrite Z.add_mod_idemp_l by lia. f_equal. lia.
Qed.

Lemma item_days w : 0 <= w < 7 → item days w = weekday_name w.
Proof.
  intros H.
  assert (w = 0 ∨ w = 1 ∨ w = 2 ∨ w = 3 ∨ w = 4 ∨ w = 5 ∨ w = 6) as Hw by lia.
  destruct_or!; subst; reflexivity.
Qed.

Lemma item_months m : 0 <= m < 12 → item months m = two_digits (m + 1).
Proof.
  intros H.
  assert (m = 0 ∨ m = 1 ∨ m = 2 ∨ m = 3 ∨ m = 4 ∨ m = 5
          ∨ m = 6 ∨ m = 7 ∨ m = 8 ∨ m = 9 ∨ m = 10 ∨ m = 11) as Hm by lia.
  destruct_or!; subst; reflexivity.
Qed.

(** The entry of a valid date, in plain words. *)
Lemma entry_of_text d :
  valid_date d →
  full (entry_of d) = weekday_name (getDay d) +:+ " " +:+ day_month d
  ∧ value (entry_of d) = day_month d +:+ "/2025".
Proof.
  intros [Hm Hd]. unfold entry_of, day_month, getDate, getMonth. cbn [full value].
  rewrite item_months by exact Hm.
  rewrite item_days by (unfold getDay; apply Z.mod_pos_bound; lia).
  assert (Hassoc : ∀ a b c, a +:+ b +:+ c = (a +:+ b) +:+ c).
  { intros a b c. induction a as [|x a IH]; [reflexivity|].
    rewrite !append_cons, IH. reflexivity. }
  split; [reflexivity|].
  rewrite <- !Hassoc. reflexivity.
Qed.




End StartDatesFacts.

(** ** The Municipios page: the random delivery estimate *)

Module EntregasFacts.
Import JsDouble Entregas.
Local Open Scope Z_scope.

(** Rounding to nearest moves at most half a unit up. *)
Lemma round_shift_upper m k :
  0 <= m → 1 <= k → round_shift m k * 2 ^ k <= m + 2 ^ (k - 1).
Proof.
  intros Hm Hk. unfold round_shift.
  assert (Hpow : 2 ^ k = 2 * 2 ^ (k - 1)).
  { rewrite <- Z.pow_succ_r by lia. f_equal. lia. }
  assert (Hhalf : 0 < 2 ^ (k - 1)) by (apply Z.pow_pos_nonneg; lia).
  pose proof (Z.div_mod m (2 ^ k) ltac:(lia)) as Hdm.
  pose proof (Z.mod_pos_bound m (2 ^ k) ltac:(lia)) as Hr.
  set (q := m / 2 ^ k) in *. set (r := m mod 2 ^ k) in *.
  destruct (r <? 2 ^ (k - 1)) eqn:H1; [lia|]. apply Z.ltb_ge in H1.
  destruct (2 ^ (k - 1) <? r); [lia|].
  destruct (Z.even q); lia.
Qed.

Lemma round_shift_nonneg m k : 0 <= m → 1 <= k → 0 <= round_shift m k.
Proof.
  intros Hm Hk. unfold round_shift.
  assert (0 <= m / 2 ^ k) by (apply Z.div_pos; [lia | apply Z.pow_pos_nonneg; lia]).
  destruct (_ <? _); [lia|]. destruct (_ <? _); [lia|]. destruct (Z.even _); lia.
Qed.

Lemma floor_div m e : e <= 0 → floor (Double m e) = m / 2 ^ (- e).
Proof. intros He. unfold floor. cbn. apply Z.shiftl_div_pow2, He. Qed.

(** The product of a double below 1 with 17 stays below 17 after
    rounding: its integer part is between 0 and 16. *)
Lemma floor_random_times_17 r :
  in_unit_interval r → 0 <= floor (mul r (of_Z 17)) <= 16.
Proof.
  intros [[Hm0 Hm53] [_ Hlt]]. destruct r as [m e]. cbn [mantissa exponent] in *.
  unfold mul, of_Z. cbn [mantissa exponent]. rewrite Z.add_0_r.
  assert (He : e <= 0).
  { destruct (Z.le_gt_cases e 0) as [H|H]; [exact H|].
    rewrite Z.pow_neg_r in Hlt by lia. lia. }
  assert (Hp : 0 < 2 ^ (- e)) by (apply Z.pow_pos_nonneg; lia).
  unfold round53. destruct (m * 17 <? 2 ^ 53) eqn:Hsmall.
  - rewrite floor_div by exact He. split.
    + apply Z.div_pos; lia.
    + apply Z.lt_succ_r, Z.div_lt_upper_bound; lia.
  - apply Z.ltb_ge in Hsmall.
    set (k := Z.log2 (m * 17) - 52).
    assert (Hlog : 53 <= Z.log2 (m * 17) <= 57).
    { split.
      - apply Z.log2_le_pow2; lia.
      - apply Z.lt_succ_r, Z.log2_lt_pow2; [lia|]. change (2 ^ Z.succ 57) with (2 ^ 53 * 32). lia. }
    assert (Hk : 1 <= k <= 5) by (unfold k; lia).
    assert (Hexp : 49 <= - e).
    { destruct (Z.le_gt_cases 49 (- e)) as [H|H]; [exact H|].
      assert (2 ^ (- e) <= 2 ^ 48) by (apply Z.pow_le_mono_r; lia).
      change (2 ^ 53) with (2 ^ 48 * 32) in Hsmall. lia. }
    rewrite floor_div by lia.
    pose proof (round_shift_upper (m * 17) k ltac:(lia) ltac:(lia)) as Hup.
    pose proof (round_shift_nonneg (m * 17) k ltac:(lia) ltac:(lia)) as Hq0.
    set (q := round_shift (m * 17) k) in *.
    assert (HP : 0 < 2 ^ (- (e + k))) by (apply Z.pow_pos_nonneg; lia).
    assert (Hsplit : 2 ^ (- e) = 2 ^ (- (e + k)) * 2 ^ k).
    { rewrite <- Z.pow_add_r by lia. f_equal. lia. }
    set (P := 2 ^ (- (e + k))) in *.
    split; [apply Z.div_pos; lia|].
    apply Z.lt_succ_r, Z.div_lt_upper_bound; [lia|].
    assert (Hcases : k = 1 ∨ k = 2 ∨ k = 3 ∨ k = 4 ∨ k = 5) by lia.
    clearbody k q P.
    destruct Hcases as [->|[->|[->|[->| ->]]]];
      cbn in Hup, Hsplit; lia.
Qed.

(** The estimate of one draw. *)
Lemma getRandomEntregas_range r :
  in_unit_interval r → 32 <= getRandomEntregas r <= 48.
Proof.
  intros Hr. unfold getRandomEntregas.
  change (48 - 32 + 1) with 17.
  pose proof (floor_random_times_17 r Hr). lia.
Qed.

End EntregasFacts.

Module MunicipiosPageFacts.
Import JsDouble Entregas EntregasFacts Geolocation MunicipiosPage.
Local Open Scope Z_scope.

Lemma Forall_imap {A B} (P : B → Prop) (f : nat → A → B) (l : list A) :
  (∀ i x, P (f i x)) → Forall P (imap f l).
Proof.
  revert f. induction l as [|x l IH]; intros f Hf; [constructor|].
  cbn [imap]. constructor; [apply Hf|]. apply IH. intros i y. apply Hf.
Qed.

(** C6.  Whatever the random source returns, every delivery estimate
    attached to a municipality is an integer from 32 to 48: on the static
    path for Brazil, on the path backed by the API, and in what that path
    stores on submit. *)
Theorem entregas_between_32_and_48 (random : nat → double) :
  (∀ i, in_unit_interval (random i)) →
  (∀ names, Forall in_range (municipiosDoEstado names random))
  ∧ (∀ municipalities, Forall in_range (municipiosFormatados municipalities random))
  ∧ (∀ selected nearby,
       Forall (λ m, 32 <= stored_entregas m <= 48)
              (municipiosComEntregas selected nearby random)).
Proof.
  intros Hrandom. split; [|split].
  - intros names. apply Forall_imap. intros i nome.
    unfold in_range. cbn [entregas]. apply getRandomEntregas_range, Hrandom.
  - intros municipalities. apply Forall_imap. intros i municipality.
    unfold in_range. cbn [entregas]. apply getRandomEntregas_range, Hrandom.
  - intros selected nearby. apply Forall_imap. intros i cityName.
    cbn [stored_entregas]. apply getRandomEntregas_range, Hrandom.
Qed.

Lemma one_half_in_unit_interval : in_unit_interval one_half.
Proof. unfold in_unit_interval, one_half. cbn. lia. Qed.

Lemma entregas_between_32_and_48_witness :
  (∀ i : nat, in_unit_interval ((λ _, one_half) i))
  ∧ Forall in_range (municipiosDoEstado ["Campinas"; "Santos"] (λ _, one_half))
  ∧ Forall in_range
      (municipiosFormatados (map to_municipality sample_results) (λ _, one_half)).
Proof.
  pose proof (entregas_between_32_and_48 (λ _, one_half)
                (λ _, one_half_in_unit_interval)) as (Hstatic & Hapi & _).
  split; [intros i; exact one_half_in_unit_interval|].
  split; [apply Hstatic | apply Hapi].
Defined.

End MunicipiosPageFacts.

(** ** Arrays: finding, filtering and sorting *)

Module JsArrayFacts.
Import JsArray.

Section Finding.
Context {A : Type} (p : A → bool).

Lemma findIndex_none l : existsb p l = false → findIndex p l = (-1)%Z.
Proof.
  induction l as [|x l IH]; [reflexivity|].
  cbn [existsb findIndex]. intros H. apply orb_false_iff in H as [Hx Hl].
  rewrite Hx, (IH Hl). reflexivity.
Qed.

Lemma findIndex_range l :
  existsb p l = true → (0 <= findIndex p l < Z.of_nat (length l))%Z.
Proof.
  induction l as [|x l IH]; [discriminate|].
  cbn [existsb findIndex length]. destruct (p x); [lia|].
  cbn [orb]. intros H. specialize (IH H).
  destruct (findIndex p l); lia.
Qed.

(** The element at the end of [before] is found there exactly when
    nothing in [before] satisfies the test. *)
Lemma findIndex_at before x rest :
  p x = true →
  Z.eqb (Z.of_nat (length before)) (findIndex p (before ++ x :: rest))
  = negb (existsb p before).
Proof.
  intros Hx. induction before as [|y before IH].
  - cbn. rewrite Hx. reflexivity.
  - cbn [app length existsb findIndex]. destruct (p y) eqn:Hy.
    + cbn. reflexivity.
    + cbn [orb]. rewrite <- IH.
      assert (Hex : existsb p (before ++ x :: rest) = true).
      { rewrite existsb_app. cbn. rewrite Hx. apply orb_true_iff. right. reflexivity. }
      pose proof (findIndex_range _ Hex) as Hr.
      rewrite Nat2Z.inj_succ.
      destruct (findIndex p (before ++ x :: rest)) as [|i|i]; [| |lia].
      * destruct (Z.eqb_spec (Z.of_nat (length before)) 0) as [Heq|Hne];
          [apply Z.eqb_eq | apply Z.eqb_neq]; lia.
      * destruct (Z.eqb_spec (Z.of_nat (length before)) (Z.pos i)) as [Heq|Hne];
          [apply Z.eqb_eq | apply Z.eqb_neq]; lia.
Qed.

End Finding.

Section Sorting.
Context {A : Type} (cmp : A → A → comparison) (le : A → A → Prop).
Hypothesis cmp_le : ∀ a b, cmp a b ≠ Gt → le a b.
Hypothesis cmp_gt : ∀ a b, cmp a b = Gt → le b a.

Lemma insert_perm x l : insert cmp x l ≡ₚ x :: l.
Proof.
  induction l as [|y l IH]; [reflexivity|].
  cbn [insert]. destruct (cmp x y); try reflexivity.
  rewrite IH. apply Permutation_swap.
Qed.

Lemma sort_perm l : sort cmp l ≡ₚ l.
Proof.
  induction l as [|x l IH]; [reflexivity|].
  cbn [sort fold_right]. fold (sort cmp l). rewrite insert_perm, IH. reflexivity.
Qed.

Lemma insert_HdRel a x l :
  le a x → HdRel le a l → HdRel le a (insert cmp x l).
Proof.
  intros Hax Hal. destruct l as [|y l]; cbn [insert]; [constructor; exact Hax|].
  inversion Hal; subst. destruct (cmp x y); constructor; assumption.
Qed.

Lemma insert_sorted x l : Sorted le l → Sorted le (insert cmp x l).
Proof.
  induction 1 as [|y l Hsorted IH Hhd]; cbn [insert]; [repeat constructor|].
  destruct (cmp x y) eqn:Hxy.
  - constructor; [constructor; assumption|]. constructor. apply cmp_le. congruence.
  - constructor; [constructor; assumption|]. constructor. apply cmp_le. congruence.
  - constructor; [exact IH|]. apply insert_HdRel; [apply cmp_gt, Hxy | exact Hhd].
Qed.

Lemma sort_sorted l : Sorted le (sort cmp l).
Proof.
  induction l as [|x l IH]; [constructor|].
  cbn [sort fold_right]. apply insert_sorted, IH.
Qed.

End Sorting.

(** Two comparators that agree on the elements of a list sort it alike. *)
Lemma insert_ext {A} (cmp cmp' : A → A → comparison) x l :
  (∀ y, y ∈ l → cmp x y = cmp' x y) → insert cmp x l = insert cmp' x l.
Proof.
  induction l as [|y l IH]; intros H; [reflexivity|].
  cbn [insert]. rewrite <- (H y) by (left).
  destruct (cmp x y); try reflexivity.
  f_equal. apply IH. intros z Hz. apply H. right. exact Hz.
Qed.

Lemma sort_ext {A} (cmp cmp' : A → A → comparison) l :
  (∀ x y, x ∈ l → y ∈ l → cmp x y = cmp' x y) → sort cmp l = sort cmp' l.
Proof.
  induction l as [|x l IH]; intros H; [reflexivity|].
  cbn [sort fold_right]. fold (sort cmp l). fold (sort cmp' l).
  rewrite <- IH by (intros a b Ha Hb; apply H; right; assumption).
  apply insert_ext. intros y Hy. apply H; [left|].
  right. rewrite <- (sort_perm cmp l). exact Hy.
Qed.

End JsArrayFacts.

(** ** GeolocationService: nearby municipalities *)

Module NearbyFacts.
Import JsString JsArray JsArrayFacts Effects EffectsFacts Geolocation.

Lemma first_of_each_city_ext seen seen' l :
  (∀ c, existsb (String.eqb c) seen = existsb (String.eqb c) seen') →
  first_of_each_city seen l = first_of_each_city seen' l.
Proof.
  revert seen seen'. induction l as [|m l IH]; intros seen seen' H; [reflexivity|].
  cbn [first_of_each_city]. rewrite (H (city m)).
  destruct (existsb _ seen'); [apply IH, H|].
  f_equal. apply IH. intros c. rewrite !existsb_app, H. reflexivity.
Qed.

Lemma existsb_city m before :
  existsb (λ x, String.eqb (city x) (city m)) before
  = existsb (String.eqb (city m)) (map city before).
Proof.
  induction before as [|x before IH]; [reflexivity|].
  cbn [map existsb]. rewrite IH, String.eqb_sym. reflexivity.
Qed.

Lemma filter_from_first_of_each before rest :
  filter_from
    (λ index municipality,
       Z.eqb (Z.of_nat index)
             (findIndex (λ m, String.eqb (city m) (city municipality)) (before ++ rest)))
    (length before) rest
  = first_of_each_city (map city before) rest.
Proof.
  revert before. induction rest as [|m rest IH]; intros before; [reflexivity|].
  cbn [filter_from first_of_each_city].
  rewrite (findIndex_at (λ x, String.eqb (city x) (city m)) before m rest)
    by apply String.eqb_refl.
  rewrite existsb_city.
  specialize (IH (before ++ [m])).
  rewrite <- app_assoc, length_app, Nat.add_1_r, map_app in IH. cbn [app map] in IH.
  rewrite IH.
  destruct (existsb (String.eqb (city m)) (map city before)) eqn:Hseen; cbn [negb].
  - apply first_of_each_city_ext. intros c. rewrite existsb_app. cbn [existsb].
    rewrite orb_false_r.
    destruct (String.eqb_spec c (city m)) as [->|_]; [|apply orb_false_r].
    rewrite Hseen. reflexivity.
  - reflexivity.
Qed.

(** The filter of the service keeps the first element of each city. *)
Lemma unique_by_city_first l : unique_by_city l = first_of_each_city [] l.
Proof. exact (filter_from_first_of_each [] l). Qed.

Lemma existsb_eqb_elem c seen :
  existsb (String.eqb c) seen = true ↔ c ∈ seen.
Proof.
  rewrite existsb_exists. split.
  - intros (x & Hin & Heq). apply String.eqb_eq in Heq as ->.
    apply list_elem_of_In, Hin.
  - intros H. exists c. split; [apply list_elem_of_In, H | apply String.eqb_refl].
Qed.

Lemma first_of_each_city_fresh seen l m :
  m ∈ first_of_each_city seen l → city m ∉ seen.
Proof.
  revert seen. induction l as [|x l IH]; intros seen; cbn [first_of_each_city].
  - intros H. apply elem_of_nil in H. destruct H.
  - destruct (existsb (String.eqb (city x)) seen) eqn:Hseen; [apply IH|].
    intros H. apply elem_of_cons in H as [->|H].
    + intros Hin. apply existsb_eqb_elem in Hin. congruence.
    + specialize (IH _ H). intros Hin. apply IH, elem_of_app. left. exact Hin.
Qed.

Lemma first_of_each_city_NoDup seen l :
  NoDup (map city (first_of_each_city seen l)).
Proof.
  revert seen. induction l as [|x l IH]; intros seen; cbn [first_of_each_city].
  - constructor.
  - destruct (existsb (String.eqb (city x)) seen); [apply IH|].
    cbn [map]. constructor; [|apply IH].
    intros Hin. apply list_elem_of_fmap in Hin as (m & Hcity & Hm).
    apply first_of_each_city_fresh in Hm. apply Hm.
    rewrite <- Hcity. apply elem_of_app. right. apply list_elem_of_singleton. reflexivity.
Qed.

Lemma first_of_each_city_sublist seen l : sublist (first_of_each_city seen l) l.
Proof.
  revert seen. induction l as [|x l IH]; intros seen; cbn [first_of_each_city].
  - constructor.
  - destruct (existsb _ seen); [apply sublist_cons, IH | apply sublist_skip, IH].
Qed.

(** A kept element is the first of its city in the list. *)
Lemma first_of_each_city_first seen l m :
  m ∈ first_of_each_city seen l →
  ∃ l1 l2, l = l1 ++ m :: l2 ∧ city m ∉ map city l1.
Proof.
  revert seen. induction l as [|x l IH]; intros seen; cbn [first_of_each_city].
  - intros H. apply elem_of_nil in H. destruct H.
  - destruct (existsb (String.eqb (city x)) seen) eqn:Hseen.
    + intros H. pose proof (first_of_each_city_fresh _ _ _ H) as Hfresh.
      destruct (IH _ H) as (l1 & l2 & -> & Hl1).
      exists (x :: l1), l2. split; [reflexivity|].
      cbn [map]. intros Hin. apply elem_of_cons in Hin as [Heq|Hin]; [|exact (Hl1 Hin)].
      apply Hfresh. rewrite Heq. apply existsb_eqb_elem, Hseen.
    + intros H. apply elem_of_cons in H as [->|H].
      * exists [], l. split; [reflexivity|]. cbn. apply not_elem_of_nil.
      * pose proof (first_of_each_city_fresh _ _ _ H) as Hfresh.
        destruct (IH _ H) as (l1 & l2 & -> & Hl1).
        exists (x :: l1), l2. split; [reflexivity|].
        cbn [map]. intros Hin. apply elem_of_cons in Hin as [Heq|Hin]; [|exact (Hl1 Hin)].
        apply Hfresh. rewrite Heq. apply elem_of_app. right.
        apply list_elem_of_singleton. reflexivity.
Qed.

(** Every city of the list is met or kept. *)
Lemma first_of_each_city_covers seen l m :
  m ∈ l → city m ∈ seen ∨ city m ∈ map city (first_of_each_city seen l).
Proof.
  revert seen. induction l as [|x l IH]; intros seen Hm.
  - apply elem_of_nil in Hm. destruct Hm.
  - cbn [first_of_each_city].
    destruct (existsb (String.eqb (city x)) seen) eqn:Hseen.
    + apply elem_of_cons in Hm as [->|Hm]; [|apply IH, Hm].
      left. apply existsb_eqb_elem, Hseen.
    + cbn [map]. apply elem_of_cons in Hm as [->|Hm]; [right; left|].
      destruct (IH (seen ++ [city x]) Hm) as [Hin|Hin]; [|right; right; exact Hin].
      apply elem_of_app in Hin as [Hin|Hin]; [left; exact Hin|].
      apply list_elem_of_singleton in Hin. rewrite Hin. right. left.
Qed.

Lemma by_distance_le a b :
  by_distance a b ≠ Gt → (distance_or_999 a <= distance_or_999 b)%Q.
Proof. unfold by_distance. intros H. apply Qle_alt, H. Qed.

Lemma by_distance_gt a b :
  by_distance a b = Gt → (distance_or_999 b <= distance_or_999 a)%Q.
Proof. unfold by_distance. intros H. apply Qlt_le_weak, Qgt_alt, H. Qed.

(** What [nearby] returns: the first element of each city, put in order
    of the distance that counts zero as 999. *)
Lemma nearby_unique_sorted results :
  let kept := first_of_each_city [] (map to_municipality results) in
  nearby results ≡ₚ kept
  ∧ NoDup (map city (nearby results))
  ∧ non_decreasing distance_or_999 (nearby results).
Proof.
  cbv zeta. unfold nearby. rewrite unique_by_city_first.
  split; [apply sort_perm|]. split.
  - rewrite (sort_perm by_distance). apply first_of_each_city_NoDup.
  - apply (sort_sorted by_distance _ by_distance_le by_distance_gt).
Qed.

Lemma run_getNearbyMunicipalities network postalCode country radius status results urls :
  network (radius_url postalCode country radius)
    = Responded status (Some (RadiusBody (Some results))) →
  ok status = true →
  run (getNearbyMunicipalities network postalCode country radius) urls
  = (Returned (nearby results), urls ++ [radius_url postalCode country radius]).
Proof.
  intros Hnet Hok.
  unfold getNearbyMunicipalities, fetch, json, results_of. run_effects.
  rewrite Hnet. cbn [fst snd]. rewrite Hok. reflexivity.
Qed.

Lemma sort_distance_of_item item :
  no_zero_distance item = true →
  distance_or_999 (to_municipality item) = item_sort_distance item.
Proof.
  unfold no_zero_distance, distance_or_999, to_municipality, item_sort_distance.
  cbn [distance]. destruct (item_distance item) as [d|]; [|reflexivity].
  intros Hd. rewrite Hd. cbn [distance]. unfold parseFloat. rewrite Hd. reflexivity.
Qed.

(** C9 (amended).  For every answer of the radius API with a well-formed
    results array, the list [getNearbyMunicipalities] returns has pairwise
    distinct city names and holds exactly the first element of each city
    of the input (these, taken in input order, are [kept]).  When no item
    has a distance of exactly zero, the list is sorted in non-decreasing
    order of distance, an item without a distance (it is listed with
    distance 0) counting as 999 away. *)
Theorem getNearbyMunicipalities_unique_sorted
    network postalCode country radius status results urls :
  network (radius_url postalCode country radius)
    = Responded status (Some (RadiusBody (Some results))) →
  ok status = true →
  let kept := first_of_each_city [] (map to_municipality results) in
  ∃ out,
    run (getNearbyMunicipalities network postalCode country radius) urls
    = (Returned out, urls ++ [radius_url postalCode country radius])
    ∧ NoDup (map city out)
    ∧ out ≡ₚ kept
    ∧ sublist kept (map to_municipality results)
    ∧ (∀ m, m ∈ kept →
         ∃ l1 l2, map to_municipality results = l1 ++ m :: l2 ∧ city m ∉ map city l1)
    ∧ (∀ m, m ∈ map to_municipality results → city m ∈ map city out)
    ∧ (forallb no_zero_distance results = true →
         non_decreasing distance_or_999 out
         ∧ ∀ m, m ∈ out →
             ∃ item, item ∈ results ∧ m = to_municipality item
                     ∧ distance_or_999 m = item_sort_distance item).
Proof.
  intros Hnet Hok kept. exists (nearby results).
  destruct (nearby_unique_sorted results) as (Hperm & Hnodup & Hsorted).
  split; [apply (run_getNearbyMunicipalities _ _ _ _ status); assumption|].
  split; [exact Hnodup|]. split; [exact Hperm|].
  split; [apply first_of_each_city_sublist|].
  split; [intros m Hm; exact (first_of_each_city_first [] _ m Hm)|].
  split.
  - intros m Hm. rewrite Hperm.
    destruct (first_of_each_city_covers [] _ m Hm) as [Hnil|Hkept]; [|exact Hkept].
    apply elem_of_nil in Hnil. destruct Hnil.
  - intros Hall. split; [exact Hsorted|].
    intros m Hm. rewrite Hperm in Hm.
    apply (λ H, elem_of_sublist _ _ _ H (first_of_each_city_sublist [] _)) in Hm.
    apply list_elem_of_fmap in Hm as (item & -> & Hitem).
    exists item. split; [exact Hitem|]. split; [reflexivity|].
    apply sort_distance_of_item.
    rewrite forallb_forall in Hall. apply Hall, list_elem_of_In, Hitem.
Qed.

Lemma getNearbyMunicipalities_unique_sorted_witness :
  (ok 200 = true ∧ forallb no_zero_distance sample_results = true) ∧
  ∃ out,
    run (getNearbyMunicipalities (sample_network sample_results) "7500000" "CL" 20) []
    = (Returned out, [radius_url "7500000" "CL" 20])
    ∧ NoDup (map city out)
    ∧ non_decreasing distance_or_999 out.
Proof.
  split; [split; reflexivity|].
  destruct (getNearbyMunicipalities_unique_sorted
              (sample_network sample_results) "7500000" "CL" 20 200 sample_results []
              eq_refl eq_refl)
    as (out & Hrun & Hnodup & _ & _ & _ & _ & Hsorted).
  exists out. split; [exact Hrun|]. split; [exact Hnodup|].
  exact (proj1 (Hsorted eq_refl)).
Defined.

(** C9 as stated fails: of two items the first carries no distance and
    the second is 2.5 km away; the result lists the second first and the
    first, with distance 0, after it, so its distances, 2.5 then 0, are
    not in non-decreasing order. *)
Lemma getNearbyMunicipalities_unknown_distance_last :
  run (getNearbyMunicipalities (sample_network sample_results) "7500000" "CL" 20) []
  = (Returned (map to_municipality (rev sample_results)), [radius_url "7500000" "CL" 20])
  ∧ map distance (map to_municipality (rev sample_results)) = [Some (5 # 2); Some 0]%Q
  ∧ ¬ non_decreasing distance_field (map to_municipality (rev sample_results)).
Proof.
  split; [vm_compute; reflexivity|]. split; [reflexivity|].
  intros H. inversion H as [|a l _ Hhd]; subst.
  inversion Hhd as [|b l' Hle]; subst.
  vm_compute in Hle. apply Hle. reflexivity.
Qed.

End NearbyFacts.

(** ** GeolocationService: the two copies of the radius look-up *)

Module CopiesFacts.
Import JsString JsArray JsArrayFacts Effects EffectsFacts Geolocation NearbyFacts.

Section Copies.
Variable localeCompare : string → string → comparison.

Lemma truthy_or_else a b : truthy a = true → or_else_text a b = a.
Proof. unfold or_else_text. intros ->. reflexivity. Qed.

Lemma to_municipality_same item :
  complete_item item = true → to_municipality' item = to_municipality item.
Proof.
  unfold complete_item. intros H.
  repeat (apply andb_true_iff in H as [H ?]).
  destruct item as [code pc cty cname st sname prov dist]. cbn [item_city item_state
    item_postal_code item_distance item_code item_city_name item_state_name
    item_province] in *.
  unfold to_municipality, to_municipality'. cbn [item_city item_state
    item_postal_code item_distance item_code item_city_name item_state_name
    item_province].
  rewrite (truthy_or_else cty cname) by assumption.
  rewrite (truthy_or_else st sname) by assumption.
  rewrite (truthy_or_else st prov) by assumption.
  f_equal.
  - destruct st as [[|c s]|]; try discriminate. reflexivity.
  - unfold or_else_text.
    match goal with Hn : negb _ = true |- _ => apply negb_true_iff in Hn; rewrite Hn end.
    reflexivity.
  - destruct dist as [d|]; [|discriminate].
    match goal with Hd : nonzero d = true |- _ => rewrite Hd end. reflexivity.
Qed.

Lemma map_to_municipality_same results :
  forallb complete_item results = true →
  map to_municipality' results = map to_municipality results.
Proof.
  induction results as [|item results IH]; [reflexivity|].
  cbn [forallb map]. intros H. apply andb_true_iff in H as [Hitem Hrest].
  rewrite (to_municipality_same item Hitem), (IH Hrest). reflexivity.
Qed.

Lemma complete_distance item :
  complete_item item = true →
  ∃ d, distance (to_municipality item) = Some d ∧ nonzero d = true.
Proof.
  unfold complete_item. intros H. apply andb_true_iff in H as [_ H].
  unfold to_municipality. cbn [distance].
  destruct (item_distance item) as [d|]; [|discriminate].
  rewrite H. exists d. auto.
Qed.

(** On municipalities that all have a distance other than zero the two
    comparators are the same. *)
Lemma comparators_agree a b :
  (∃ d, distance a = Some d ∧ nonzero d = true) →
  (∃ d, distance b = Some d ∧ nonzero d = true) →
  by_distance a b = by_distance_or_name localeCompare a b.
Proof.
  intros (x & Hx & Hnx) (y & Hy & Hny).
  unfold by_distance, by_distance_or_name, distance_or_999.
  rewrite Hx, Hy, Hnx, Hny. reflexivity.
Qed.

Lemma nearby_same results :
  forallb complete_item results = true →
  nearby' localeCompare results = nearby results.
Proof.
  intros Hall. unfold nearby, nearby'.
  rewrite (map_to_municipality_same results Hall).
  symmetry. apply sort_ext. intros a b Ha Hb.
  assert (Hdist : ∀ m, m ∈ unique_by_city (map to_municipality results) →
                       ∃ d, distance m = Some d ∧ nonzero d = true).
  { intros m Hm. rewrite unique_by_city_first in Hm.
    apply (λ H, elem_of_sublist _ _ _ H (first_of_each_city_sublist [] _)) in Hm.
    apply list_elem_of_fmap in Hm as (item & -> & Hitem).
    apply complete_distance.
    rewrite forallb_forall in Hall. apply Hall, list_elem_of_In, Hitem. }
  apply comparators_agree; apply Hdist; assumption.
Qed.

Lemma run_copies_no_array network postalCode country radius status urls :
  network (radius_url postalCode country radius)
    = Responded status (Some (RadiusBody None)) →
  ok status = true →
  run (getNearbyMunicipalities network postalCode country radius) urls
  = (Returned [], urls ++ [radius_url postalCode country radius])
  ∧ run (getNearbyMunicipalities' localeCompare network postalCode country radius) urls
    = (Returned [], urls ++ [radius_url postalCode country radius]).
Proof.
  intros Hnet Hok.
  unfold getNearbyMunicipalities, getNearbyMunicipalities', fetch, json, results_of.
  run_effects.
  rewrite Hnet. cbn [fst snd]. rewrite Hok. split; reflexivity.
Qed.

Lemma run_other_copy network postalCode country radius status results urls :
  network (radius_url postalCode country radius)
    = Responded status (Some (RadiusBody (Some results))) →
  ok status = true →
  run (getNearbyMunicipalities' localeCompare network postalCode country radius) urls
  = (Returned (nearby' localeCompare results),
     urls ++ [radius_url postalCode country radius]).
Proof.
  intros Hnet Hok.
  unfold getNearbyMunicipalities', fetch, json, results_of. run_effects.
  rewrite Hnet. cbn [fst snd]. rewrite Hok. reflexivity.
Qed.

Lemma run_copies_failure network postalCode country radius urls :
  no_answer (network (radius_url postalCode country radius)) →
  (∃ error,
     run (getNearbyMunicipalities network postalCode country radius) urls
     = (Thrown error, urls ++ [radius_url postalCode country radius]))
  ∧ run (getNearbyMunicipalities' localeCompare network postalCode country radius) urls
    = (Returned [], urls ++ [radius_url postalCode country radius]).
Proof.
  unfold no_answer, getNearbyMunicipalities, getNearbyMunicipalities',
    fetch, json, results_of. run_effects.
  destruct (network _) as [|status parsed]; [eauto|].
  cbn [fst snd]. destruct (ok status); cbn [negb].
  - intros [Hok|[-> | ->]]; [discriminate| |]; eauto.
  - intros _. eauto.
Qed.

End Copies.

(** C5 (amended).  The two copies of [getNearbyMunicipalities] return the
    same list when the API answers OK and its [results] is missing or is
    not an array (both return the empty list), and when it answers OK with
    a results array whose items all have a city, a state, a distance other
    than zero and no [postal_code] field of their own.  When the fetch
    fails, the status is not OK or the body is not JSON or is [null], the
    copy of the service throws the error on while the other copy returns
    the empty list. *)
Theorem getNearbyMunicipalities_copies
    localeCompare network postalCode country radius urls :
  let url := radius_url postalCode country radius in
  let service := run (getNearbyMunicipalities network postalCode country radius) urls in
  let copy :=
    run (getNearbyMunicipalities' localeCompare network postalCode country radius) urls in
  (∀ status, network url = Responded status (Some (RadiusBody None)) →
     ok status = true →
     service = (Returned [], urls ++ [url]) ∧ copy = service)
  ∧ (∀ status results,
       network url = Responded status (Some (RadiusBody (Some results))) →
       ok status = true → forallb complete_item results = true →
       service = (Returned (nearby results), urls ++ [url]) ∧ copy = service)
  ∧ (no_answer (network url) →
       (∃ error, service = (Thrown error, urls ++ [url]))
       ∧ copy = (Returned [], urls ++ [url])).
Proof.
  cbv zeta. split; [|split].
  - intros status Hnet Hok.
    destruct (run_copies_no_array localeCompare network postalCode country radius
                status urls Hnet Hok) as [Ha Hb].
    rewrite Ha, Hb. auto.
  - intros status results Hnet Hok Hall.
    rewrite (run_getNearbyMunicipalities _ _ _ _ status results urls Hnet Hok).
    rewrite (run_other_copy localeCompare _ _ _ _ status results urls Hnet Hok).
    rewrite (nearby_same localeCompare results Hall). auto.
  - apply run_copies_failure.
Qed.

Lemma getNearbyMunicipalities_copies_witness :
  (ok 200 = true ∧ forallb complete_item complete_results = true)
  ∧ run (getNearbyMunicipalities' (λ _ _, Eq) (sample_network complete_results)
           "7500000" "CL" 20) []
    = run (getNearbyMunicipalities (sample_network complete_results)
             "7500000" "CL" 20) [].
Proof.
  split; [split; reflexivity|].
  exact (proj2 (proj1 (proj2 (getNearbyMunicipalities_copies (λ _ _, Eq)
           (sample_network complete_results) "7500000" "CL" 20%Z []))
           200%Z complete_results eq_refl eq_refl eq_refl)).
Defined.

(** C5 as stated fails: on an answer with status 500 the service throws
    while the copy beside the page returns the empty list. *)
Lemma getNearbyMunicipalities_copies_differ :
  run (getNearbyMunicipalities failing_network "7500000" "CL" 20) []
  = (Thrown "Error: HTTP error! status: 500", [radius_url "7500000" "CL" 20])
  ∧ run (getNearbyMunicipalities' (λ _ _, Eq) failing_network "7500000" "CL" 20) []
    = (Returned [], [radius_url "7500000" "CL" 20]).
Proof. split; vm_compute; reflexivity. Qed.

End CopiesFacts.

(** ** GeolocationService: validating a postal code with the search API *)

Module ValidationFacts.
Import JsString Effects EffectsFacts Geolocation.

Lemma validate_cases network code country urls :
  (∃ first, found network code country first
     ∧ run (validatePostalCodeWithZipcodebase network code country) urls
       = (Returned (valid_result country first), urls ++ [search_url code country]))
  ∨ ((∀ first, ¬ found network code country first)
     ∧ ∃ message,
         run (validatePostalCodeWithZipcodebase network code country) urls
         = (Returned {| isValid := false; country := country; region := None;
                        result_city := None; error := Some message |},
            urls ++ [search_url code country])).
Proof.
  unfold validatePostalCodeWithZipcodebase, found, fetch, json, results_of.
  run_effects.
  destruct (network (search_url code country)) as [|status parsed] eqn:Hnet.
  { right. split; [|eauto]. intros first (s & r & rest & H & _). discriminate. }
  cbn [fst snd]. destruct (ok status) eqn:Hok; cbn [negb].
  2:{ right. split; [|eauto].
      intros first (s & r & rest & H & Hok' & _). congruence. }
  destruct parsed as [[|results|[results|]]|]; cbn [search_results mbind option_bind].
  - right. split; [|eauto]. intros first (s & r & rest & H & _). discriminate.
  - right. split; [|eauto]. intros first (s & r & rest & H & _). discriminate.
  - destruct (results !! code) as [[|first rest]|] eqn:Hcode.
    + right. split; [|eauto].
      intros first (s & r & rest & H & _ & Hr). congruence.
    + left. exists first. split; [|reflexivity]. exists status, results, rest. auto.
    + right. split; [|eauto].
      intros first (s & r & rest & H & _ & Hr). congruence.
  - right. split; [|eauto]. intros first (s & r & rest & H & _). discriminate.
  - right. split; [|eauto]. intros first (s & r & rest & H & _). discriminate.
Qed.

Lemma found_unique network code country first first' :
  found network code country first → found network code country first' → first = first'.
Proof.
  intros (s & r & rest & H & _ & Hr) (s' & r' & rest' & H' & _ & Hr'). congruence.
Qed.

(** C8.  [validatePostalCodeWithZipcodebase] never throws.  It returns
    [isValid: true], with the country (the first result's [country_code],
    or the queried country when that result has none), the region (its
    [state], else its [province]) and the city of the first result, exactly
    when the API answers OK with a result array for the queried code that
    is not empty.  In every other case (an empty or missing result, a
    status that is not OK, a body that is not JSON, no response) it
    returns [isValid: false] with the queried country and an error
    message. *)
Theorem validatePostalCodeWithZipcodebase_result network code queried urls :
  ∃ r,
    run (validatePostalCodeWithZipcodebase network code queried) urls
    = (Returned r, urls ++ [search_url code queried])
    ∧ (isValid r = true ↔ ∃ first, found network code queried first)
    ∧ (∀ first, found network code queried first → r = valid_result queried first)
    ∧ (isValid r = false → country r = queried ∧ is_Some (error r)).
Proof.
  destruct (validate_cases network code queried urls)
    as [(first & Hfound & Hrun)|(Hnone & message & Hrun)].
  - eexists. split; [exact Hrun|]. split; [|split].
    + split; [eauto | reflexivity].
    + intros first' Hfound'. rewrite (found_unique _ _ _ _ _ Hfound' Hfound). reflexivity.
    + discriminate.
  - eexists. split; [exact Hrun|]. split; [|split].
    + split; [discriminate|]. intros [first Hfound]. destruct (Hnone first Hfound).
    + intros first Hfound. destruct (Hnone first Hfound).
    + intros _. cbn. eauto.
Qed.

Lemma validatePostalCodeWithZipcodebase_result_witness :
  found sample_search_network "7510000" "CL" sample_search_item
  ∧ run (validatePostalCodeWithZipcodebase sample_search_network "7510000" "CL") []
    = (Returned (valid_result "CL" sample_search_item), [search_url "7510000" "CL"]).
Proof.
  assert (Hfound : found sample_search_network "7510000" "CL" sample_search_item).
  { exists 200%Z, {[ "7510000" := [sample_search_item] ]}, []. repeat split. }
  split; [exact Hfound|].
  destruct (validatePostalCodeWithZipcodebase_result sample_search_network
              "7510000" "CL" []) as (r & Hrun & _ & Hvalid & _).
  rewrite Hrun, (Hvalid _ Hfound). reflexivity.
Defined.

End ValidationFacts.

(** ** ipService: what the markers and the checks keep *)

Module MarkerFacts.
Import JsString JsStringFacts Browser IpService IpServiceFacts.

Lemma set_ban_cookie jar :
  set_document_cookie ban_cookie jar = jar_put BANNED_KEY "true" jar.
Proof. reflexivity. Qed.

Lemma jar_put_twice name value jar :
  jar_put name value (jar_put name value jar) = jar_put name value jar.
Proof.
  induction jar as [|[n v] jar IH]; cbn [jar_put].
  - rewrite String.eqb_refl. reflexivity.
  - destruct (String.eqb n name) eqn:Hn; cbn [jar_put].
    + rewrite String.eqb_refl. reflexivity.
    + rewrite Hn, IH. reflexivity.
Qed.

Lemma jar_put_other name value jar n v :
  n ≠ name → (n, v) ∈ jar_put name value jar ↔ (n, v) ∈ jar.
Proof.
  intros Hn. induction jar as [|[n' v'] jar IH]; cbn [jar_put].
  - rewrite list_elem_of_singleton. split; [intros [= ? ?]; contradiction|].
    intros H. apply elem_of_nil in H. destruct H.
  - destruct (String.eqb n' name) eqn:Hn'.
    + apply String.eqb_eq in Hn' as ->.
      rewrite !elem_of_cons. split; intros [[= ? ?]|H]; try contradiction; right; exact H.
    + rewrite !elem_of_cons, IH. reflexivity.
Qed.

Lemma jar_put_length name value jar :
  (length jar ≤ length (jar_put name value jar) ≤ S (length jar))%nat.
Proof.
  induction jar as [|[n v] jar IH]; cbn [jar_put length]; [lia|].
  destruct (String.eqb n name); cbn [length]; lia.
Qed.

(** X1.  [markLocalBan] writes the three markers and nothing else: run a
    second time it changes nothing; every other key of localStorage and
    sessionStorage (the stored device identifier among them) keeps its
    value; every cookie of another name stays, and the cookie store grows
    by at most the one marker cookie. *)
Theorem markLocalBan_keeps_the_rest st :
  markLocalBan (markLocalBan st) = markLocalBan st
  ∧ (∀ k, k ≠ BANNED_KEY →
       getItem (localStorage (markLocalBan st)) k = getItem (localStorage st) k
       ∧ getItem (sessionStorage (markLocalBan st)) k = getItem (sessionStorage st) k)
  ∧ (∀ name value, name ≠ BANNED_KEY →
       (name, value) ∈ cookie_jar (markLocalBan st) ↔ (name, value) ∈ cookie_jar st)
  ∧ (length (cookie_jar st) ≤ length (cookie_jar (markLocalBan st))
     ≤ S (length (cookie_jar st)))%nat.
Proof.
  unfold markLocalBan, getItem, setItem. cbn [localStorage sessionStorage cookie_jar].
  rewrite !set_ban_cookie. repeat split.
  - rewrite jar_put_twice, !insert_insert_eq. reflexivity.
  - apply lookup_insert_ne. congruence.
  - apply lookup_insert_ne. congruence.
  - apply jar_put_other. assumption.
  - apply jar_put_other. assumption.
  - apply jar_put_length.
  - apply jar_put_length.
Qed.

Lemma markLocalBan_keeps_the_rest_witness :
  BANNED_DEVICE_KEY ≠ BANNED_KEY
  ∧ getItem (localStorage (markLocalBan DeviceIdText.reported_stores)) BANNED_DEVICE_KEY
    = Some "dev_628529b8_mhisin40"
  ∧ ("session", "abc") ∈ cookie_jar (markLocalBan DeviceIdText.reported_stores).
Proof.
  destruct (markLocalBan_keeps_the_rest DeviceIdText.reported_stores)
    as (_ & Hkeys & Hjar & _).
  split; [discriminate|]. split.
  - rewrite (proj1 (Hkeys BANNED_DEVICE_KEY ltac:(discriminate))). reflexivity.
  - apply Hjar; [discriminate|]. left.
Defined.

End MarkerFacts.

(** ** ipService: the report, the registration and repeated checks *)

Module ReportMoreFacts.
Import JsString JsStringFacts Browser IpService IpServiceFacts.
Import Effects EffectsFacts IpServiceEffects BanChecks BanChecksFacts MarkerFacts.

Lemma reportDesktopAccess_run dev now href api w :
  let deviceId := generateDeviceId dev now in
  let report := POST "/api/admin/report-desktop-access"
                  (DesktopReport deviceId (userAgent dev) (includes href "about:blank")
                     (screen_width dev) (screen_height dev)) in
  run (reportDesktopAccess dev now href api) w
  = (Returned tt,
     {| store :=
          {| localStorage :=
               setItem BANNED_KEY "true"
                 (setItem BANNED_DEVICE_KEY deviceId (localStorage (store w)));
             sessionStorage := setItem BANNED_KEY "true" (sessionStorage (store w));
             cookie_jar := jar_put BANNED_KEY "true" (cookie_jar (store w)) |};
        requests := requests w ++ [report] |}).
Proof.
  cbv zeta. unfold reportDesktopAccess.
  rewrite run_try_catch, !run_bind.
  unfold localStorage_setItem, sessionStorage_setItem, assign_document_cookie,
    apiRequest, issue, on_store. run_effects.
  cbn [store requests localStorage sessionStorage cookie_jar].
  rewrite set_ban_cookie.
  destruct (api _); cbn [store requests localStorage sessionStorage cookie_jar].
  - reflexivity.
  - unfold setItem. rewrite !insert_insert_eq. reflexivity.
Qed.

Lemma issued_length server deviceId : (length (issued server deviceId) ≤ 3)%nat.
Proof.
  unfold issued, device_requests, registration_requests.
  destruct deviceId as [id|]; [destruct (truthy (Some id))|];
    destruct (device_positive _ _); cbn [length app]; try lia;
    destruct (answer (server ip_status_url)) as [data|];
    try destruct (status_banned data); cbn [length app]; lia.
Qed.

Lemma issued_POST server deviceId r :
  r ∈ issued server deviceId → is_GET r = false →
  isBanned (remote_verdict server deviceId) = true.
Proof.
  unfold issued, remote_verdict, ip_verdict, device_requests, registration_requests.
  destruct (device_positive server deviceId); [reflexivity|].
  destruct (answer (server ip_status_url)) as [ipData|].
  - destruct (status_banned ipData); [reflexivity|].
    intros Hin Hget. exfalso.
    destruct deviceId as [id|]; [destruct (truthy (Some id))|];
      cbn [app] in Hin; set_unfold; destruct_or!; subst; discriminate.
  - intros Hin Hget. exfalso.
    destruct deviceId as [id|]; [destruct (truthy (Some id))|];
      cbn [app] in Hin; set_unfold; destruct_or!; subst; discriminate.
Qed.

Lemma negative_check_run server api w r w' :
  run (checkIfBanned server api) w = (Returned r, w') →
  (∃ sent, requests w' = requests w ++ sent ∧ (length sent ≤ 3)%nat
           ∧ (isBanned r = false → Forall (λ q, is_GET q = true) sent))
  ∧ (isBanned r = false → store w' = store w ∧ isLocallyBanned (store w') = false).
Proof.
  rewrite checkIfBanned_run.
  destruct (isLocallyBanned (store w)) eqn:Hlocal.
  - intros [= <- <-]. split.
    + exists []. rewrite app_nil_r. split; [reflexivity|].
      split; [cbn; lia|]. discriminate.
    + discriminate.
  - cbv zeta. set (deviceId := getItem (localStorage (store w)) BANNED_DEVICE_KEY).
    intros [= <- <-]. unfold after. cbn [store requests]. split.
    + exists (issued server deviceId). split; [reflexivity|].
      split; [apply issued_length|].
      intros Hneg. apply Forall_forall. intros q Hq.
      destruct (is_GET q) eqn:Hget; [reflexivity|].
      rewrite (issued_POST server deviceId q Hq Hget) in Hneg. discriminate.
    + intros ->. split; [reflexivity | exact Hlocal].
Qed.

Lemma issued_registration server deviceId q :
  q ∈ issued server deviceId → is_GET q = false →
  ∃ id ipData,
    deviceId = Some id ∧ id ≠ ""
    ∧ q = POST "/api/admin/register-device" (DeviceRegistration id)
    ∧ answer (server ip_status_url) = Some ipData
    ∧ status_banned ipData = true
    ∧ remote_verdict server deviceId = {| isBanned := true; ip := data_ip ipData |}.
Proof.
  unfold issued, remote_verdict, ip_verdict, device_requests, registration_requests.
  destruct (device_positive server deviceId).
  - intros Hin Hget. exfalso.
    destruct deviceId as [[|c id]|]; cbn [truthy] in Hin;
      set_unfold; destruct_or!; subst; discriminate.
  - destruct (answer (server ip_status_url)) as [ipData|].
    + destruct (status_banned ipData) eqn:Hbanned.
      * intros Hin Hget.
        destruct deviceId as [[|c id]|]; cbn [truthy app] in Hin;
          set_unfold; destruct_or!; subst; try discriminate.
        exists (String c id), ipData. repeat split; congruence.
      * intros Hin Hget. exfalso.
        destruct deviceId as [[|c id]|]; cbn [truthy app] in Hin;
          set_unfold; destruct_or!; subst; discriminate.
    + intros Hin Hget. exfalso.
      destruct deviceId as [[|c id]|]; cbn [truthy app] in Hin;
        set_unfold; destruct_or!; subst; discriminate.
Qed.

(** X3.  The registration of the device never gets in the way.
    [registerDeviceId] never throws: whether its request resolves or is
    rejected it returns, having issued the one POST to
    [/api/admin/register-device], and leaves the three stores as they
    were.  So [checkIfBanned] returns the same result and leaves the same
    stores and requests whether or not an API request resolves; and the
    only request other than a GET it ever issues is that registration,
    of the stored identifier, which is not empty, when the IP-status
    endpoint has answered ['banned'] and the result is the ban with the
    address of that answer. *)
Theorem registerDeviceId_swallows_failure server api api' deviceId w :
  run (registerDeviceId api deviceId) w
  = (Returned tt,
     {| store := store w;
        requests := requests w ++
          [POST "/api/admin/register-device" (DeviceRegistration deviceId)] |})
  ∧ run (checkIfBanned server api) w = run (checkIfBanned server api') w
  ∧ ∃ r w' sent,
      run (checkIfBanned server api) w = (Returned r, w')
      ∧ requests w' = requests w ++ sent
      ∧ ∀ q, q ∈ sent → is_GET q = false →
          ∃ id ipData,
            getItem (localStorage (store w)) BANNED_DEVICE_KEY = Some id
            ∧ id ≠ ""
            ∧ q = POST "/api/admin/register-device" (DeviceRegistration id)
            ∧ answer (server ip_status_url) = Some ipData
            ∧ status_banned ipData = true
            ∧ r = {| isBanned := true; ip := data_ip ipData |}.
Proof.
  split; [|split].
  - unfold registerDeviceId, apiRequest, issue. run_effects.
    destruct (api _); reflexivity.
  - rewrite !checkIfBanned_run. reflexivity.
  - rewrite checkIfBanned_run.
    destruct (isLocallyBanned (store w)).
    + exists {| isBanned := true; ip := None |}, w, [].
      split; [reflexivity|]. split; [rewrite app_nil_r; reflexivity|].
      intros q Hq. set_unfold. destruct Hq.
    + cbv zeta. eexists _, _, _. split; [reflexivity|].
      split; [reflexivity|]. apply issued_registration.
Qed.

(** X4.  A check that finds no ban writes nothing: when [checkIfBanned]
    returns [{isBanned: false}] the three stores are exactly as before
    (no marker, the device identifier untouched) and only GET requests
    were issued.  In every case one call issues at most three requests. *)
Theorem checkIfBanned_negative_writes_nothing server api w r w' :
  run (checkIfBanned server api) w = (Returned r, w') →
  (∃ sent, requests w' = requests w ++ sent ∧ (length sent ≤ 3)%nat
           ∧ (isBanned r = false → Forall (λ q, is_GET q = true) sent))
  ∧ (isBanned r = false → store w' = store w ∧ isLocallyBanned (store w') = false).
Proof. apply negative_check_run. Qed.

Lemma checkIfBanned_negative_writes_nothing_witness :
  ∃ r w',
    run (checkIfBanned split_server (λ _, true)) fresh_world = (Returned r, w')
    ∧ isBanned r = false
    ∧ store w' = store fresh_world.
Proof.
  eexists _, _. split; [vm_compute; reflexivity|]. split; [reflexivity|].
  eapply (checkIfBanned_negative_writes_nothing split_server (λ _, true) fresh_world);
    [vm_compute; reflexivity | reflexivity].
Defined.

(** X5.  A ban that was found once is found again without the network:
    when a call of [checkIfBanned] has returned [{isBanned: true}], every
    later call from the state it left (whatever the server would answer
    by then) returns [{isBanned: true}] at once, issues no request and
    changes nothing. *)
Theorem checkIfBanned_ban_sticks server api server' api' w r w' :
  run (checkIfBanned server api) w = (Returned r, w') →
  isBanned r = true →
  run (checkIfBanned server' api') w' = (Returned {| isBanned := true; ip := None |}, w').
Proof.
  rewrite checkIfBanned_run. intros Hrun Hbanned.
  assert (isLocallyBanned (store w') = true) as Hlocal.
  { destruct (isLocallyBanned (store w)) eqn:Hw.
    - injection Hrun as <- <-. exact Hw.
    - cbv zeta in Hrun. injection Hrun as <- <-.
      unfold after. cbn [store]. rewrite Hbanned.
      apply isLocallyBanned_after_mark. }
  rewrite checkIfBanned_run, Hlocal. reflexivity.
Qed.

Lemma checkIfBanned_ban_sticks_witness :
  ∃ r w',
    run (checkIfBanned DeviceIdText.banning_server (λ _, true)) fresh_world = (Returned r, w')
    ∧ isBanned r = true
    ∧ run (checkIfBanned split_server (λ _, false)) w'
      = (Returned {| isBanned := true; ip := None |}, w').
Proof.
  eexists _, _. split; [vm_compute; reflexivity|]. split; [reflexivity|].
  eapply (checkIfBanned_ban_sticks DeviceIdText.banning_server (λ _, true)
            split_server (λ _, false) fresh_world);
    [vm_compute; reflexivity | reflexivity].
Defined.

(** X6.  A device that was reported is banned from then on, whatever the
    server knows: after [reportDesktopAccess] (whether or not its POST
    went through) every [checkIfBanned] returns [{isBanned: true}]
    without a request. *)
Theorem reported_device_is_banned dev now href api server api' w :
  ∃ w',
    run (reportDesktopAccess dev now href api) w = (Returned tt, w')
    ∧ run (checkIfBanned server api') w'
      = (Returned {| isBanned := true; ip := None |}, w').
Proof.
  eexists. split; [apply reportDesktopAccess_run|].
  rewrite checkIfBanned_run.
  rewrite isLocallyBanned_localStorage; [reflexivity|].
  cbn [store localStorage]. apply lookup_insert_eq.
Qed.

End ReportMoreFacts.

(** ** ipService: the hash behind the device identifier *)

Module HashFacts.
Import JsString JsStringFacts JsNumber IpServiceEffects FingerprintFacts DeviceIdText.
Local Open Scope Z_scope.

Lemma to_int32_range z : - 2 ^ 31 <= to_int32 z < 2 ^ 31.
Proof.
  unfold to_int32. pose proof (Z.mod_pos_bound z (2 ^ 32) ltac:(lia)) as Hm.
  destruct (2 ^ 31 <=? z mod 2 ^ 32) eqn:H;
    [apply Z.leb_le in H | apply Z.leb_gt in H]; lia.
Qed.

Lemma to_int32_mod z : to_int32 z mod 2 ^ 32 = z mod 2 ^ 32.
Proof.
  unfold to_int32. destruct (2 ^ 31 <=? z mod 2 ^ 32).
  - rewrite Zminus_mod, Z.mod_same, Z.sub_0_r, !Z.mod_mod by lia. reflexivity.
  - apply Z.mod_mod. lia.
Qed.

Lemma to_int32_congruent a b : a mod 2 ^ 32 = b mod 2 ^ 32 → to_int32 a = to_int32 b.
Proof. unfold to_int32. intros ->. reflexivity. Qed.

Lemma to_int32_shift z : ∃ k, to_int32 z = z + k * 2 ^ 32.
Proof.
  unfold to_int32. pose proof (Z.div_mod z (2 ^ 32) ltac:(lia)) as Hz.
  destruct (2 ^ 31 <=? z mod 2 ^ 32).
  - exists (- (z / 2 ^ 32) - 1). lia.
  - exists (- (z / 2 ^ 32)). lia.
Qed.

(** One turn of the loop multiplies by 31 and adds the code, modulo
    [2 ^ 32]. *)
Lemma hash_step_congruent hash code :
  hash_step hash code mod 2 ^ 32 = (31 * hash + code) mod 2 ^ 32.
Proof.
  unfold hash_step, shl32. rewrite to_int32_mod.
  rewrite Z.shiftl_mul_pow2 by lia.
  destruct (to_int32_shift hash) as [k1 ->].
  destruct (to_int32_shift ((hash + k1 * 2 ^ 32) * 2 ^ 5)) as [k2 ->].
  replace ((hash + k1 * 2 ^ 32) * 2 ^ 5 + k2 * 2 ^ 32 - hash + code)
    with (31 * hash + code + (32 * k1 + k2) * 2 ^ 32) by lia.
  apply Z_mod_plus_full.
Qed.

Lemma fold_hash_step codes h p :
  h mod 2 ^ 32 = p mod 2 ^ 32 →
  fold_left hash_step codes h mod 2 ^ 32
  = fold_left (λ hash code, 31 * hash + code) codes p mod 2 ^ 32.
Proof.
  revert h p. induction codes as [|c codes IH]; intros h p H; cbn [fold_left].
  - exact H.
  - apply IH. rewrite hash_step_congruent.
    rewrite Zplus_mod, Zmult_mod, H, <- Zmult_mod, <- Zplus_mod. reflexivity.
Qed.

Lemma fold_hash_range codes h :
  - 2 ^ 31 <= h < 2 ^ 31 → - 2 ^ 31 <= fold_left hash_step codes h < 2 ^ 31.
Proof.
  revert h. induction codes as [|c codes IH]; intros h H; cbn [fold_left].
  - exact H.
  - apply IH. apply to_int32_range.
Qed.

Lemma to_int32_small z : - 2 ^ 31 <= z < 2 ^ 31 → to_int32 z = z.
Proof.
  intros H. unfold to_int32.
  destruct (Z_lt_le_dec z 0).
  - assert (z mod 2 ^ 32 = z + 2 ^ 32) as ->.
    { symmetry. apply (Z.mod_unique_pos _ _ (-1)); lia. }
    destruct (2 ^ 31 <=? z + 2 ^ 32) eqn:E;
      [apply Z.leb_le in E | apply Z.leb_gt in E]; lia.
  - rewrite Z.mod_small by lia.
    destruct (2 ^ 31 <=? z) eqn:E; [apply Z.leb_le in E | apply Z.leb_gt in E]; lia.
Qed.

Lemma digits_length fuel radix n k :
  2 <= radix → 0 <= n < radix ^ Z.of_nat k → (length (digits fuel radix n) ≤ k)%nat.
Proof.
  intros Hr. revert fuel n. induction k as [|k IH]; intros fuel n Hn.
  - assert (n = 0) as -> by (cbn in Hn; lia).
    destruct fuel; cbn; lia.
  - destruct fuel as [|fuel]; cbn [digits length]; [lia|].
    destruct (n =? 0); cbn [length]; [lia|].
    apply le_n_S, IH.
    rewrite Nat2Z.inj_succ, Z.pow_succ_r in Hn by lia.
    split; [apply Z.div_pos; lia|].
    apply Z.div_lt_upper_bound; lia.
Qed.

Lemma length_string_of_digits ds : String.length (string_of_digits ds) = length ds.
Proof.
  unfold string_of_digits. induction ds as [|d ds IH]; [reflexivity|].
  cbn [map String.string_of_list_ascii String.length]. rewrite IH. reflexivity.
Qed.

(** X7.  The hash of [generateDeviceId] is the polynomial hash with
    multiplier 31 over the character codes, cut to a signed 32-bit
    integer: it lies between [- 2 ^ 31] and [2 ^ 31 - 1], and its absolute
    value is written with one to eight hexadecimal digits. *)
Theorem simple_hash_is_polynomial_int32 str :
  simple_hash str = to_int32 (polynomial_31 (char_codes str))
  ∧ - 2 ^ 31 <= simple_hash str < 2 ^ 31
  ∧ (1 ≤ String.length (toString 16 (Z.abs (simple_hash str))) ≤ 8)%nat.
Proof.
  assert (- 2 ^ 31 <= simple_hash str < 2 ^ 31) as Hrange
    by (apply fold_hash_range; lia).
  split; [|split; [exact Hrange|]].
  - rewrite <- (to_int32_small (simple_hash str)) by exact Hrange.
    apply to_int32_congruent. unfold simple_hash, polynomial_31.
    apply fold_hash_step. reflexivity.
  - unfold toString. destruct (Z.abs (simple_hash str) =? 0) eqn:Hz; [cbn; lia|].
    apply Z.eqb_neq in Hz.
    destruct (Z.abs (simple_hash str) <? 0) eqn:Hneg; [apply Z.ltb_lt in Hneg; lia|].
    rewrite length_string_of_digits, length_rev. split.
    + unfold digits_of. cbn [digits]. apply Z.eqb_neq in Hz. rewrite Hz.
      cbn [length]. lia.
    + unfold digits_of. apply digits_length; [lia|].
      change (16 ^ Z.of_nat 8) with (2 ^ 32). lia.
Qed.

Lemma digit_char_is_id_char d : 0 <= d < 36 → is_id_char (digit_char d) = true.
Proof.
  intros Hd. unfold is_id_char, digit_char.
  destruct (d <? 10) eqn:Hlt; [apply Z.ltb_lt in Hlt | apply Z.ltb_ge in Hlt];
    rewrite N_ascii_embedding by lia.
  - replace ((48 <=? Z.to_N (48 + d))%N) with true by (symmetry; apply N.leb_le; lia).
    replace ((Z.to_N (48 + d) <=? 57)%N) with true by (symmetry; apply N.leb_le; lia).
    reflexivity.
  - replace ((97 <=? Z.to_N (87 + d))%N) with true by (symmetry; apply N.leb_le; lia).
    replace ((Z.to_N (87 + d) <=? 122)%N) with true by (symmetry; apply N.leb_le; lia).
    apply orb_true_iff. left. apply orb_true_r.
Qed.

Lemma id_text_app a b : id_text a → id_text b → id_text (a +:+ b).
Proof.
  unfold id_text. rewrite StartDatesFacts.list_of_append. apply Forall_app_2.
Qed.

Lemma id_text_toString radix n :
  2 <= radix <= 36 → 0 <= n → id_text (toString radix n).
Proof.
  intros Hr Hn. unfold toString.
  destruct (n =? 0); [repeat constructor|].
  destruct (n <? 0) eqn:Hneg; [apply Z.ltb_lt in Hneg; lia|].
  unfold id_text, string_of_digits.
  rewrite String.list_ascii_of_string_of_list_ascii.
  apply Forall_map. eapply Forall_impl; [apply digits_of_valid, Hr|].
  intros d Hd. apply digit_char_is_id_char, Hd.
Qed.

(** X8.  For a clock that is not before 1970 a device identifier consists
    of digits, lower-case letters and underscores only: no slash, question
    mark, semicolon, equals sign or white space, so that it can be put
    into the address [/api/check-device/<id>] and into localStorage as it
    is. *)
Theorem generateDeviceId_is_plain_text d now :
  0 <= now → id_text (generateDeviceId d now).
Proof.
  intros Hnow. unfold generateDeviceId, fingerprint.
  repeat apply id_text_app.
  - repeat constructor.
  - apply id_text_toString; lia.
  - repeat constructor.
  - apply id_text_toString; lia.
Qed.

Lemma generateDeviceId_is_plain_text_witness :
  0 <= 1762153200000 ∧ id_text (generateDeviceId sample_device 1762153200000).
Proof.
  split; [lia|]. apply (generateDeviceId_is_plain_text sample_device 1762153200000). lia.
Defined.

End HashFacts.

(** ** The desktop protection *)

Module RedirectFacts.
Import JsString JsStringFacts Browser IpService IpServiceFacts.
Import Effects EffectsFacts IpServiceEffects MarkerFacts DesktopProtection.

Lemma run_lift {A} (c : M world A) p :
  run (lift c) p = (fst (run c (browser p)), set_browser (snd (run c (browser p))) p).
Proof. unfold run, lift. destruct (c (browser p)). reflexivity. Qed.

Lemma redirectToBlankPage_run refused p :
  run (redirectToBlankPage refused) p
  = (Returned tt, if refused then blanked p else gone p).
Proof.
  unfold redirectToBlankPage, assign_location_href, localStorage_setItem,
    sessionStorage_setItem, assign_document_cookie, lift, gone, blanked. run_effects.
  destruct refused; reflexivity.
Qed.

Lemma browser_after_redirect (refused : bool) p :
  browser (if refused then blanked p else gone p)
  = on_store markLocalBan (browser p).
Proof. destruct refused; reflexivity. Qed.

End RedirectFacts.

Module HookFacts.
Import JsString JsStringFacts Browser IpService IpServiceFacts.
Import Effects EffectsFacts IpServiceEffects BanChecks BanChecksFacts.
Import MarkerFacts ReportMoreFacts DesktopProtection RedirectFacts.

Section Hook.
Variable env : surroundings.

Lemma run_lift_checkIfBanned p :
  run (lift (checkIfBanned (server env) (apiRequest_resolves env))) p
  = (Returned (fst (checked env p)), snd (checked env p)).
Proof.
  rewrite run_lift. unfold checked.
  rewrite checkIfBanned_run.
  destruct (isLocallyBanned (store (browser p))); reflexivity.
Qed.

Lemma run_lift_report p :
  run (lift (reportDesktopAccess (this_device env) (now env) (href p)
               (apiRequest_resolves env))) p
  = (Returned tt, reported env p).
Proof.
  rewrite run_lift. unfold reported. rewrite reportDesktopAccess_run. reflexivity.
Qed.

(** [checkAccess] once the page is neither a development page nor
    framed. *)
Lemma checkAccess_run p :
  isDevelopment env = false → framed env = false →
  run (checkAccess env) p =
  let '(response, p1) := checked env p in
  if isBanned response then run (redirectToBlankPage (refused env)) p1
  else if isIpExempted response then (Returned tt, p1)
  else if isConfirmedDesktop env then
    run (redirectToBlankPage (refused env)) (reported env p1)
  else (Returned tt, p1).
Proof.
  intros Hdev Hframed. unfold checkAccess.
  rewrite run_try_catch, Hdev, Hframed, run_bind, run_lift_checkIfBanned.
  destruct (checked env p) as [response p1]. cbn [fst snd].
  destruct (isBanned response).
  { rewrite redirectToBlankPage_run. reflexivity. }
  destruct (isIpExempted response); [reflexivity|].
  destruct (isConfirmedDesktop env); [|reflexivity].
  rewrite run_bind.
  change (run (λ p0, lift (reportDesktopAccess (this_device env) (now env) (href p0)
                             (apiRequest_resolves env)) p0) p1)
    with (run (lift (reportDesktopAccess (this_device env) (now env) (href p1)
                       (apiRequest_resolves env))) p1).
  rewrite run_lift_report, redirectToBlankPage_run. reflexivity.
Qed.

Lemma checked_of_run p response w1 :
  run (checkIfBanned (server env) (apiRequest_resolves env)) (browser p)
  = (Returned response, w1) →
  checked env p = (response, set_browser w1 p).
Proof. unfold checked. intros ->. reflexivity. Qed.

Lemma set_browser_same p : set_browser (browser p) p = p.
Proof. destruct p. reflexivity. Qed.

Lemma checkAccess_returns p :
  ∃ p', run (checkAccess env) p = (Returned tt, p')
        ∧ intervalCheck p' = intervalCheck p.
Proof.
  destruct (isDevelopment env) eqn:Hdev.
  { exists p. unfold checkAccess. rewrite run_try_catch, Hdev. split; reflexivity. }
  destruct (framed env) eqn:Hframed.
  { unfold checkAccess. rewrite run_try_catch, Hdev, Hframed.
    destruct (top_window env); [|exists p; split; reflexivity].
    unfold assign_top_location_href.
    destruct (top_refused env); [|eexists; split; reflexivity].
    change (run (throw _) p) with (@Thrown unit "SecurityError: the operation is insecure", p).
    cbv beta iota. rewrite run_bind, run_lift.
    change (run isLocallyBanned_ (browser p))
      with (Returned (isLocallyBanned (store (browser p))), browser p).
    cbn [fst snd]. rewrite set_browser_same.
    destruct (isLocallyBanned (store (browser p))).
    - rewrite redirectToBlankPage_run. eexists. split; [reflexivity|].
      destruct (refused env); reflexivity.
    - exists p. split; reflexivity. }
  rewrite checkAccess_run by assumption.
  unfold checked. rewrite checkIfBanned_run.
  destruct (isLocallyBanned (store (browser p))); cbv zeta;
    repeat match goal with
      | |- context [if ?b then _ else _] => destruct b
      end;
    rewrite ?redirectToBlankPage_run; eexists; (split; [reflexivity|]);
    try reflexivity; destruct (refused env); reflexivity.
Qed.

End Hook.

Lemma allowed_domain_is_development env domain :
  domain ∈ allowedDomains → includes (hostname env) domain = true →
  isDevelopment env = true.
Proof.
  intros Hin Hhost. unfold isDevelopment. apply orb_true_iff. right.
  apply existsb_exists. exists domain. split; [apply list_elem_of_In, Hin | exact Hhost].
Qed.

(** X11.  [checkAccess] leaves development pages and framed pages alone.
    When [NODE_ENV] is ['development'], or the host name merely contains
    one of the allowed domains, it does nothing at all: no request, no
    marker, whatever the device.  On a framed page of a device that is
    not locally banned it issues no request and writes no marker either;
    it only assigns the address of the page to the top window, when
    there is one and the assignment is not refused. *)
Theorem checkAccess_spares_development_and_frames env p :
  (isDevelopment env = true → run (checkAccess env) p = (Returned tt, p))
  ∧ (∀ domain, domain ∈ allowedDomains → includes (hostname env) domain = true →
       isDevelopment env = true)
  ∧ (isDevelopment env = false → framed env = true →
     isLocallyBanned (store (browser p)) = false →
       ∃ p', run (checkAccess env) p = (Returned tt, p')
             ∧ browser p' = browser p ∧ href p' = href p
             ∧ (top_window env = true → top_refused env = false →
                  top_href p' = Some (href p))).
Proof.
  split; [|split].
  - intros Hdev. unfold checkAccess. rewrite run_try_catch, Hdev. reflexivity.
  - apply allowed_domain_is_development.
  - intros Hdev Hframed Hlocal.
    unfold checkAccess. rewrite run_try_catch, Hdev, Hframed.
    destruct (top_window env).
    + unfold assign_top_location_href. destruct (top_refused env).
      * change (run (throw _) p)
          with (@Thrown unit "SecurityError: the operation is insecure", p).
        cbv beta iota. rewrite run_bind, run_lift.
        change (run isLocallyBanned_ (browser p))
          with (Returned (isLocallyBanned (store (browser p))), browser p).
        cbn [fst snd]. rewrite set_browser_same, Hlocal.
        exists p. repeat split; discriminate.
      * eexists. split; [reflexivity|]. repeat split.
    + exists p. repeat split; discriminate.
Qed.

Lemma checkAccess_spares_development_and_frames_witness :
  isDevelopment development_visit = true
  ∧ run (checkAccess development_visit) landing = (Returned tt, landing)
  ∧ isDevelopment framed_visit = false
  ∧ ∃ p', run (checkAccess framed_visit) landing = (Returned tt, p')
          ∧ browser p' = browser landing
          ∧ top_href p' = Some (href landing).
Proof.
  destruct (checkAccess_spares_development_and_frames development_visit landing)
    as (Hdev & _ & _).
  destruct (checkAccess_spares_development_and_frames framed_visit landing)
    as (_ & _ & Hframed).
  split; [reflexivity|]. split; [apply Hdev; reflexivity|]. split; [reflexivity|].
  destruct (Hframed eq_refl eq_refl eq_refl) as (p' & Hrun & Hbrowser & _ & Htop).
  exists p'. split; [exact Hrun|]. split; [exact Hbrowser|].
  apply Htop; reflexivity.
Defined.

(** X12.  Visitors that are not found banned and are exempt or not on a
    desktop are left alone: when the page is neither a development page
    nor framed, [checkIfBanned] returns no ban, and the reported address
    contains an address of the exemption list or the device is not a
    confirmed desktop, then [checkAccess] does nothing beyond that check.
    The stores and the address of the page are as before, and only GET
    requests were issued. *)
Theorem checkAccess_spares_exempt_and_mobile env p response w1 :
  isDevelopment env = false → framed env = false →
  run (checkIfBanned (server env) (apiRequest_resolves env)) (browser p)
  = (Returned response, w1) →
  isBanned response = false →
  isIpExempted response = true ∨ isConfirmedDesktop env = false →
  run (checkAccess env) p = (Returned tt, set_browser w1 p)
  ∧ store w1 = store (browser p)
  ∧ isLocallyBanned (store w1) = false
  ∧ ∃ sent, requests w1 = requests (browser p) ++ sent
            ∧ Forall (λ q, is_GET q = true) sent.
Proof.
  intros Hdev Hframed Hrun Hclean Hspared.
  rewrite checkAccess_run by assumption.
  rewrite (checked_of_run env p response w1 Hrun), Hclean.
  destruct (negative_check_run _ _ _ _ _ Hrun)
    as ((sent & Hsent & _ & Hget) & Hstore).
  destruct (Hstore Hclean) as [Hsame Hlocal].
  split; [|split; [exact Hsame|split; [exact Hlocal|]]].
  - destruct Hspared as [-> | Hmobile]; [reflexivity|].
    rewrite Hmobile. destruct (isIpExempted response); reflexivity.
  - exists sent. split; [exact Hsent | apply Hget, Hclean].
Qed.

Lemma checkAccess_spares_exempt_and_mobile_witness :
  (∃ w1, run (checkAccess phone_visit) landing = (Returned tt, set_browser w1 landing)
         ∧ store w1 = store (browser landing))
  ∧ (∃ w1, run (checkAccess exempt_visit) landing = (Returned tt, set_browser w1 landing)
           ∧ store w1 = store (browser landing)).
Proof.
  split.
  - destruct (checkAccess_spares_exempt_and_mobile phone_visit landing
                {| isBanned := false; ip := Some "203.0.113.7" |}
                {| store := store fresh_world; requests := [GET ip_status_url] |})
      as (Hrun & Hstore & _);
      [reflexivity | reflexivity | vm_compute; reflexivity | reflexivity
      | right; reflexivity |].
    eexists. split; [exact Hrun | exact Hstore].
  - destruct (checkAccess_spares_exempt_and_mobile exempt_visit landing
                {| isBanned := false; ip := Some "201.87.251.220" |}
                {| store := store fresh_world; requests := [GET ip_status_url] |})
      as (Hrun & Hstore & _);
      [reflexivity | reflexivity | vm_compute; reflexivity | reflexivity
      | left; vm_compute; reflexivity |].
    eexists. split; [exact Hrun | exact Hstore].
Defined.



End HookFacts.

(** ** Reading numbers back *)

Module ParseFacts.
Import JsString JsStringFacts JsNumber JsParse FingerprintFacts.
Local Open Scope Z_scope.

Lemma decimal_char d :
  0 <= d < 10 →
  is_white_space (digit_char d) = false
  ∧ Ascii.eqb (digit_char d) "-" = false
  ∧ Ascii.eqb (digit_char d) "+" = false
  ∧ Ascii.eqb (digit_char d) "x" = false
  ∧ Ascii.eqb (digit_char d) "X" = false
  ∧ digit_of 10 (digit_char d) = Some d.
Proof.
  intros H.
  assert (d = 0 ∨ d = 1 ∨ d = 2 ∨ d = 3 ∨ d = 4 ∨ d = 5 ∨ d = 6 ∨ d = 7 ∨ d = 8 ∨ d = 9)
    as Hd by lia.
  destruct_or!; subst; repeat split; reflexivity.
Qed.

Lemma string_of_digits_cons d ds :
  string_of_digits (d :: ds) = String (digit_char d) (string_of_digits ds).
Proof. reflexivity. Qed.

Lemma leading_digits_text ds :
  Forall (λ d, 0 <= d < 10) ds → leading_digits 10 (string_of_digits ds) = ds.
Proof.
  induction 1 as [|d ds Hd _ IH]; [reflexivity|].
  rewrite string_of_digits_cons. cbn [leading_digits].
  destruct (decimal_char d Hd) as (_ & _ & _ & _ & _ & ->). rewrite IH. reflexivity.
Qed.

Lemma not_hexadecimal ds :
  Forall (λ d, 0 <= d < 10) ds →
  startsWith (string_of_digits ds) "0x" || startsWith (string_of_digits ds) "0X" = false.
Proof.
  intros Hds. destruct Hds as [|d ds Hd Hds]; [reflexivity|].
  rewrite string_of_digits_cons. cbn [startsWith].
  destruct Hds as [|d' ds' Hd' _].
  - cbn [string_of_digits map String.string_of_list_ascii]. rewrite !andb_false_r. reflexivity.
  - rewrite string_of_digits_cons.
    destruct (decimal_char d' Hd') as (_ & _ & _ & -> & -> & _).
    rewrite !andb_false_r. reflexivity.
Qed.

Lemma startsWith_char c rest x :
  startsWith (String c rest) (String x EmptyString) = Ascii.eqb c x.
Proof. cbn [startsWith]. apply andb_true_r. Qed.

(** A decimal numeral without a sign. *)
Lemma parseInt_decimal d ds :
  Forall (λ d, 0 <= d < 10) (d :: ds) →
  parseInt (string_of_digits (d :: ds))
  = Some (fold_left (λ acc d, acc * 10 + d) (d :: ds) 0).
Proof.
  intros Hds. unfold parseInt.
  pose proof (not_hexadecimal _ Hds) as Hhex.
  pose proof (leading_digits_text _ Hds) as Hlead.
  rewrite string_of_digits_cons in *. cbn [trimStart].
  apply Forall_cons in Hds as [Hd _].
  destruct (decimal_char d Hd) as (-> & Hminus & Hplus & _).
  rewrite !startsWith_char, Hminus, Hplus. cbn [orb].
  rewrite Hhex, Hlead. f_equal. lia.
Qed.

Lemma parseInt_negative_decimal d ds :
  Forall (λ d, 0 <= d < 10) (d :: ds) →
  parseInt (String "-" (string_of_digits (d :: ds)))
  = Some (- fold_left (λ acc d, acc * 10 + d) (d :: ds) 0).
Proof.
  intros Hds. unfold parseInt.
  pose proof (not_hexadecimal _ Hds) as Hhex.
  pose proof (leading_digits_text _ Hds) as Hlead.
  change (trimStart (String "-" (string_of_digits (d :: ds))))
    with (String "-" (string_of_digits (d :: ds))).
  change (startsWith (String "-" (string_of_digits (d :: ds))) "-") with true.
  cbn [orb tail]. rewrite Hhex, Hlead.
  rewrite string_of_digits_cons in *. reflexivity.
Qed.

Lemma decimal_digits n :
  0 < n → ∃ d ds, rev (digits_of 10 n) = d :: ds ∧ Forall (λ d, 0 <= d < 10) (d :: ds).
Proof.
  intros Hn.
  assert (Forall (λ d, 0 <= d < 10) (rev (digits_of 10 n))) as Hall
    by (apply Forall_rev, digits_range; lia).
  destruct (rev (digits_of 10 n)) as [|d ds] eqn:Hrev.
  - exfalso. apply (f_equal (@length Z)) in Hrev. rewrite length_rev in Hrev.
    unfold digits_of in Hrev. cbn [digits] in Hrev.
    destruct (n =? 0) eqn:Hz; [apply Z.eqb_eq in Hz; lia|]. discriminate.
  - exists d, ds. split; [reflexivity | exact Hall].
Qed.

(** [parseInt] reads back every integer that [toString] has written in
    radix 10. *)
Lemma parseInt_reads_toString n : parseInt (toString 10 n) = Some n.
Proof.
  unfold toString.
  destruct (n =? 0) eqn:Hz; [apply Z.eqb_eq in Hz; subst; reflexivity|].
  apply Z.eqb_neq in Hz.
  destruct (n <? 0) eqn:Hneg; [apply Z.ltb_lt in Hneg | apply Z.ltb_ge in Hneg].
  - destruct (decimal_digits (- n)) as (d & ds & Hrev & Hall); [lia|].
    rewrite Hrev, parseInt_negative_decimal by exact Hall.
    rewrite <- Hrev, fold_left_rev_digits, digits_of_sound by lia. f_equal. lia.
  - destruct (decimal_digits n) as (d & ds & Hrev & Hall); [lia|].
    rewrite Hrev, parseInt_decimal by exact Hall.
    rewrite <- Hrev, fold_left_rev_digits, digits_of_sound by lia. reflexivity.
Qed.

End ParseFacts.

(** ** The periodic check of the desktop protection *)

Module IntervalFacts.
Import JsString JsStringFacts JsNumber JsParse Browser IpService IpServiceFacts.
Import Effects EffectsFacts IpServiceEffects BanChecks BanChecksFacts.
Import MarkerFacts DesktopProtection RedirectFacts ParseFacts.
Local Open Scope Z_scope.

Section Tick.
Variable env : surroundings.

Lemma banned_by_effect url p :
  ∃ r p',
    run (banned_by env url) p = (r, p')
    ∧ requests (browser p') = requests (browser p) ++ [GET url]
    ∧ same_session p p'
    ∧ (r = Returned true →
         intervalCheck p' = None ∧ isLocallyBanned (store (browser p')) = true)
    ∧ (r ≠ Returned true →
         store (browser p') = store (browser p) ∧ intervalCheck p' = intervalCheck p)
    ∧ (r = Returned true →
         ∃ data, answer (server env url) = Some data ∧ status_banned data = true).
Proof.
  unfold banned_by, same_session, fetch, json, property, markLocalBan_,
    redirectToBlankPage, assign_location_href, localStorage_setItem,
    sessionStorage_setItem, assign_document_cookie, lift, on_store, issue.
  run_effects.
  assert (∀ (r : outcome bool) q,
            r ≠ Returned true →
            q = set_browser {| store := store (browser p);
                               requests := requests (browser p) ++ [GET url] |} p →
            ∃ r' p', (r, q) = (r', p')
              ∧ requests (browser p') = requests (browser p) ++ [GET url]
              ∧ (∀ k, k ≠ BANNED_KEY →
                   getItem (sessionStorage (store (browser p'))) k
                   = getItem (sessionStorage (store (browser p))) k)
              ∧ (r' = Returned true →
                   intervalCheck p' = None ∧ isLocallyBanned (store (browser p')) = true)
              ∧ (r' ≠ Returned true →
                   store (browser p') = store (browser p)
                   ∧ intervalCheck p' = intervalCheck p)
              ∧ (r' = Returned true →
                   ∃ data, answer (server env url) = Some data
                           ∧ status_banned data = true)) as Hquiet.
  { intros r q Hr ->. eexists r, _. split; [reflexivity|].
    cbn [browser set_browser store requests intervalCheck].
    split; [reflexivity|]. split; [reflexivity|].
    split; [intros ->; destruct Hr; reflexivity|].
    split; [intros _; split; reflexivity | intros ->; destruct Hr; reflexivity]. }
  destruct (server env url) as [|[] [[|data]|]]; cbn [fst snd browser set_browser];
    try (apply Hquiet; [discriminate | reflexivity]).
  destruct (bool_decide (data_status data = Some "banned")) eqn:Hbanned;
    [|apply Hquiet; [discriminate | reflexivity]].
  clear Hquiet.
  destruct (refused env); eexists _, _; (split; [reflexivity|]);
    cbn [browser set_browser set_href set_body add_timeout set_intervalCheck
         store requests intervalCheck localStorage sessionStorage];
    (split; [reflexivity|]);
    (split; [intros k Hk; unfold getItem, markLocalBan;
             cbn [sessionStorage]; unfold setItem;
             rewrite !lookup_insert_ne by congruence; reflexivity|]);
    (split; [intros _; split; [reflexivity|];
             apply isLocallyBanned_localStorage, lookup_insert_eq|]);
    (split; [intros H; destruct H; reflexivity|]);
    intros _; exists data; (split; [reflexivity | exact Hbanned]).
Qed.

Lemma ip_status_in_device_requests deviceId :
  GET ip_status_url ∈ device_requests deviceId → False.
Proof.
  unfold device_requests. destruct deviceId as [id|]; [destruct (truthy _)|].
  - intros H. apply list_elem_of_singleton in H. discriminate.
  - intros H. apply elem_of_nil in H. exact H.
  - intros H. apply elem_of_nil in H. exact H.
Qed.

(** The step of the periodic check that asks for the stored device. *)
Lemma device_step deviceId p :
  ∃ r p1,
    run (match deviceId with
         | Some id =>
             if truthy deviceId then
               try_catch (banned_by env ("/api/check-device/" +:+ id)) (λ err, ret false)
             else ret false
         | None => ret false
         end) p = (Returned r, p1)
    ∧ requests (browser p1) = requests (browser p) ++ device_requests deviceId
    ∧ same_session p p1
    ∧ (r = true → intervalCheck p1 = None ∧ isLocallyBanned (store (browser p1)) = true)
    ∧ (r = false → store (browser p1) = store (browser p)
                   ∧ intervalCheck p1 = intervalCheck p)
    ∧ (device_positive (server env) deviceId = false → r = false).
Proof.
  assert (∃ r p1, run (ret false) p = (Returned r, p1)
            ∧ requests (browser p1) = requests (browser p) ++ []
            ∧ same_session p p1
            ∧ (r = true → intervalCheck p1 = None
                          ∧ isLocallyBanned (store (browser p1)) = true)
            ∧ (r = false → store (browser p1) = store (browser p)
                           ∧ intervalCheck p1 = intervalCheck p)
            ∧ (device_positive (server env) deviceId = false → r = false)) as Hquiet.
  { exists false, p. split; [reflexivity|]. rewrite app_nil_r.
    split; [reflexivity|]. split; [intros k _; reflexivity|].
    split; [discriminate|]. split; [intros _; split; reflexivity | reflexivity]. }
  unfold device_requests.
  destruct deviceId as [id|]; [|exact Hquiet].
  destruct (truthy (Some id)) eqn:Htruthy; [|exact Hquiet]. clear Hquiet.
  rewrite run_try_catch. fold (device_url id).
  destruct (banned_by_effect (device_url id) p)
    as (r & p1 & -> & Hsent & Hsession & Hbanned & Hclean & Hanswer).
  destruct r as [[]|error].
  - exists true, p1. split; [reflexivity|]. split; [exact Hsent|].
    split; [exact Hsession|]. split; [intros _; apply Hbanned; reflexivity|].
    split; [discriminate|].
    destruct (Hanswer eq_refl) as (data & Hdata & Hstatus).
    unfold device_positive. rewrite Htruthy, Hdata, Hstatus. discriminate.
  - exists false, p1. split; [reflexivity|]. split; [exact Hsent|].
    split; [exact Hsession|]. split; [discriminate|].
    split; [intros _; apply Hclean; discriminate | reflexivity].
  - exists false, p1. split; [reflexivity|]. split; [exact Hsent|].
    split; [exact Hsession|]. split; [discriminate|].
    split; [intros _; apply Hclean; discriminate | reflexivity].
Qed.

Lemma run_sessionStorage_setItem k v w :
  run (sessionStorage_setItem k v) w
  = (Returned tt,
     {| store := {| localStorage := localStorage (store w);
                    sessionStorage := setItem k v (sessionStorage (store w));
                    cookie_jar := cookie_jar (store w) |};
        requests := requests w |}).
Proof. reflexivity. Qed.

Lemma last_ip_check_not_marker : last_ip_check ≠ BANNED_KEY.
Proof. discriminate. Qed.

(** One periodic check, with all it can lead to. *)
Lemma intervalCallback_effect p :
  ∃ p' sent,
    run (intervalCallback env) p = (Returned tt, p')
    ∧ sent_between p p' sent
    ∧ (isLocallyBanned (store (browser p)) = true →
         sent = [] ∧ intervalCheck p' = None
         ∧ isLocallyBanned (store (browser p')) = true
         ∧ (refused env = false → href p' = "about:blank"))
    ∧ (GET ip_status_url ∈ sent →
         ip_check_due env p = true
         ∧ getItem (sessionStorage (store (browser p'))) last_ip_check
           = Some (toString 10 (now env)))
    ∧ (GET ip_status_url ∉ sent →
         getItem (sessionStorage (store (browser p'))) last_ip_check
         = getItem (sessionStorage (store (browser p))) last_ip_check)
    ∧ (isLocallyBanned (store (browser p)) = false →
       device_positive (server env)
         (getItem (localStorage (store (browser p))) BANNED_DEVICE_KEY) = false →
       ip_check_due env p = true →
         GET ip_status_url ∈ sent).
Proof.
  unfold intervalCallback, sent_between.
  rewrite run_try_catch, run_bind, run_lift.
  change (run isLocallyBanned_ (browser p))
    with (Returned (isLocallyBanned (store (browser p))), browser p).
  cbn [fst snd]. rewrite HookFacts.set_browser_same.
  destruct (isLocallyBanned (store (browser p))) eqn:Hlocal.
  { rewrite run_bind, redirectToBlankPage_run.
    eexists _, []. split; [reflexivity|].
    cbn [browser set_intervalCheck intervalCheck].
    rewrite browser_after_redirect. cbn [requests store on_store].
    split; [rewrite app_nil_r; reflexivity|].
    split; [intros _; split; [reflexivity|]; split; [reflexivity|];
            split; [apply isLocallyBanned_after_mark|]; intros ->; reflexivity|].
    split; [intros H; apply elem_of_nil in H; destruct H|].
    split; [intros _; unfold getItem, markLocalBan, setItem; cbn [sessionStorage];
            apply lookup_insert_ne; discriminate|].
    discriminate. }
  rewrite run_bind, run_lift.
  change (run (localStorage_getItem "sp_device_id") (browser p))
    with (Returned (getItem (localStorage (store (browser p))) BANNED_DEVICE_KEY),
          browser p).
  cbn [fst snd]. rewrite HookFacts.set_browser_same.
  set (deviceId := getItem (localStorage (store (browser p))) BANNED_DEVICE_KEY).
  rewrite run_bind.
  destruct (device_step deviceId p)
    as (r & p1 & -> & Hsent1 & Hsession1 & Hbanned1 & Hclean1 & Hpositive).
  destruct r.
  { exists p1, (device_requests deviceId). split; [reflexivity|].
    split; [exact Hsent1|]. split; [discriminate|].
    split; [intros H; destruct (ip_status_in_device_requests _ H)|].
    split; [intros _; apply Hsession1, last_ip_check_not_marker|].
    intros _ Hneg. discriminate (Hpositive Hneg). }
  rewrite run_bind, run_lift.
  change (run (read (λ w, getItem (sessionStorage (store w)) last_ip_check)) (browser p1))
    with (Returned (getItem (sessionStorage (store (browser p1))) last_ip_check),
          browser p1).
  cbn [fst snd]. rewrite HookFacts.set_browser_same.
  rewrite (Hsession1 last_ip_check last_ip_check_not_marker).
  fold (ip_check_due env p).
  destruct (ip_check_due env p) eqn:Hdue.
  - rewrite run_bind, run_lift, run_sessionStorage_setItem. cbn [fst snd].
    set (p2 := set_browser _ p1).
    destruct (banned_by_effect ip_status_url p2)
      as (r & p3 & Hrun & Hsent3 & Hsession3 & _).
    fold ip_status_url. rewrite run_bind, Hrun.
    assert (getItem (sessionStorage (store (browser p3))) last_ip_check
            = Some (toString 10 (now env))) as Hstored.
    { rewrite (Hsession3 last_ip_check last_ip_check_not_marker).
      unfold p2. cbn [browser set_browser store sessionStorage].
      apply lookup_insert_eq. }
    assert (requests (browser p3)
            = requests (browser p) ++ (device_requests deviceId ++ [GET ip_status_url]))
      as Hsent.
    { rewrite Hsent3. unfold p2. cbn [browser set_browser requests].
      rewrite Hsent1, app_assoc. reflexivity. }
    assert (GET ip_status_url ∈ device_requests deviceId ++ [GET ip_status_url]) as Hin.
    { apply elem_of_app. right. apply list_elem_of_singleton. reflexivity. }
    exists p3, (device_requests deviceId ++ [GET ip_status_url]).
    split; [destruct r as [[]|]; reflexivity|].
    split; [exact Hsent|]. split; [discriminate|].
    split; [intros _; split; [reflexivity | exact Hstored]|].
    split; [intros Hnot; destruct (Hnot Hin) | intros _ _ _; exact Hin].
  - exists p1, (device_requests deviceId). split; [reflexivity|].
    split; [exact Hsent1|]. split; [discriminate|].
    split; [intros H; destruct (ip_status_in_device_requests _ H)|].
    split; [intros _; apply Hsession1, last_ip_check_not_marker|].
    discriminate.
Qed.

End Tick.

Lemma toString_not_empty radix n : toString radix n ≠ "".
Proof.
  unfold toString. destruct (n =? 0) eqn:Hz; [discriminate|].
  destruct (n <? 0); [discriminate|].
  intros Heq. apply (f_equal String.length) in Heq.
  rewrite HashFacts.length_string_of_digits, length_rev in Heq.
  unfold digits_of in Heq. cbn [digits] in Heq. rewrite Hz in Heq. discriminate.
Qed.

Lemma stored_time_is_read n :
  parseInt (Geolocation.or_default (Some (toString 10 n)) "0") = Some n.
Proof.
  unfold Geolocation.or_default, Geolocation.or_else_text, truthy.
  pose proof (toString_not_empty 10 n) as Hn.
  destruct (toString 10 n) eqn:Htext; [contradiction|].
  rewrite <- Htext. apply parseInt_reads_toString.
Qed.

Lemma tick_effect env p :
  run (intervalCallback env) p = (Returned tt, tick env p).
Proof.
  unfold tick. destruct (intervalCallback_effect env p) as (p' & sent & -> & _).
  reflexivity.
Qed.

(** X15.  The periodic check asks for the status of the IP at most once a
    minute.  A step never throws, and it records the reading of the clock
    under ['last_ip_check'] before it issues the request to
    [/api/check-ip-status]; a later step whose clock reads at most 60000
    ms more issues no such request, whatever happened to the first
    request and whatever else the steps did. *)
Theorem ip_status_is_asked_once_a_minute env1 env2 p sent1 sent2 :
  sent_between p (tick env1 p) sent1 →
  sent_between (tick env1 p) (tick env2 (tick env1 p)) sent2 →
  GET ip_status_url ∈ sent1 →
  now env2 - now env1 <= 60000 →
  run (intervalCallback env1) p = (Returned tt, tick env1 p)
  ∧ run (intervalCallback env2) (tick env1 p) = (Returned tt, tick env2 (tick env1 p))
  ∧ getItem (sessionStorage (store (browser (tick env1 p)))) last_ip_check
    = Some (toString 10 (now env1))
  ∧ GET ip_status_url ∉ sent2.
Proof.
  intros Hsent1 Hsent2 Hasked Hsoon.
  split; [apply tick_effect|]. split; [apply tick_effect|].
  assert (getItem (sessionStorage (store (browser (tick env1 p)))) last_ip_check
          = Some (toString 10 (now env1))) as Hstored.
  { destruct (intervalCallback_effect env1 p) as (p1 & sent & Hrun & Hsent & _ & Hip & _).
    unfold tick in *. rewrite Hrun in *. cbn [snd] in *.
    unfold sent_between in *. rewrite Hsent1 in Hsent.
    apply app_inv_head in Hsent as <-. apply Hip, Hasked. }
  split; [exact Hstored|].
  destruct (intervalCallback_effect env2 (tick env1 p))
    as (p2 & sent & Hrun & Hsent & _ & Hip & _).
  rewrite tick_effect in Hrun. injection Hrun as <-.
  unfold sent_between in *. rewrite Hsent2 in Hsent.
  apply app_inv_head in Hsent as <-.
  intros Hin. destruct (Hip Hin) as [Hdue _].
  unfold ip_check_due in Hdue. rewrite Hstored, stored_time_is_read in Hdue.
  unfold exceeds in Hdue. apply Z.ltb_lt in Hdue. lia.
Qed.

Lemma ip_status_is_asked_once_a_minute_witness :
  sent_between landing (tick phone_visit landing) [GET ip_status_url]
  ∧ sent_between (tick phone_visit landing)
      (tick (later 12000 phone_visit) (tick phone_visit landing)) []
  ∧ GET ip_status_url ∉ ([] : list request).
Proof.
  assert (sent_between landing (tick phone_visit landing) [GET ip_status_url]) as H1
    by (vm_compute; reflexivity).
  assert (sent_between (tick phone_visit landing)
            (tick (later 12000 phone_visit) (tick phone_visit landing)) []) as H2
    by (vm_compute; reflexivity).
  split; [exact H1|]. split; [exact H2|].
  apply (ip_status_is_asked_once_a_minute phone_visit (later 12000 phone_visit) landing
           [GET ip_status_url] [] H1 H2).
  - left.
  - vm_compute. discriminate.
Defined.



End IntervalFacts.

(** ** GeolocationService: the example codes and the other shapes *)

Module PostalExamplesFacts.
Import JsString JsStringFacts Regex PostalCodeFormat PostalCodeFormatFacts PostalExamples.

Lemma examples_outside_table country :
  toUpperCase country ∉ table_countries → examples !! toUpperCase country = None.
Proof. intros H. apply not_elem_of_list_to_map_1. exact H. Qed.

Lemma patterns_not_listed country :
  toUpperCase country ∉ table_countries → patterns !! toUpperCase country = None.
Proof. intros H. apply not_elem_of_list_to_map_1. exact H. Qed.

(** X17.  The example of every country passes the format check of that
    country: for each country of the table, written in any letter case,
    [getPostalCodeExample] returns a code that [validatePostalCodeFormat]
    accepts for it; for every other country the example is ['00000'],
    which is accepted as every code is. *)
Theorem getPostalCodeExample_is_valid country :
  validatePostalCodeFormat (getPostalCodeExample country) country = true
  ∧ (¬ in_table country → getPostalCodeExample country = "00000").
Proof.
  unfold validatePostalCodeFormat, getPostalCodeExample.
  destruct (decide (toUpperCase country ∈ table_countries)) as [Hin|Hout].
  - split.
    + apply list_elem_of_In in Hin. cbn [table_countries In] in Hin.
      destruct Hin as [<-|[<-|[<-|[<-|[<-|[]]]]]]; vm_compute; reflexivity.
    + intros Hno. apply in_table_upper in Hin. contradiction.
  - rewrite (patterns_not_listed country Hout), (examples_outside_table country Hout).
    split; reflexivity.
Qed.

Lemma getPostalCodeExample_is_valid_witness :
  ¬ in_table "US" ∧ getPostalCodeExample "US" = "00000"
  ∧ validatePostalCodeFormat (getPostalCodeExample "ar") "ar" = true.
Proof.
  split; [exact US_not_in_table|]. split.
  - apply (proj2 (getPostalCodeExample_is_valid "US")). exact US_not_in_table.
  - apply (proj1 (getPostalCodeExample_is_valid "ar")).
Defined.

Lemma rep_range lo hi n s :
  remainders (Rep n (Range lo hi)) s =
  match take_chars (in_range lo hi) n s with Some rest => [rest] | None => [] end.
Proof.
  revert s. induction n as [|n IH]; intros s; [reflexivity|].
  change (remainders (Rep (S n) (Range lo hi)) s)
    with (flat_map (remainders (Rep n (Range lo hi))) (one_char (in_range lo hi) s)).
  destruct s as [|c rest]; [reflexivity|].
  cbn [one_char take_chars]. destruct (in_range lo hi c); [|reflexivity].
  cbn [flat_map]. rewrite IH, app_nil_r. reflexivity.
Qed.

Lemma all_upper_cons c s : all_upper (String c s) ↔ is_upper c = true ∧ all_upper s.
Proof.
  unfold all_upper. cbn [String.list_ascii_of_string].
  split; [intros H; inversion H; auto | intros [Hc Hs]; constructor; assumption].
Qed.

Lemma take_upper_all n s :
  take_chars is_upper n s = Some EmptyString ↔ String.length s = n ∧ all_upper s.
Proof.
  revert s. induction n as [|n IH]; intros s; cbn [take_chars].
  - destruct s; split.
    + intros _. split; [reflexivity | constructor].
    + reflexivity.
    + discriminate.
    + intros [H _]. discriminate.
  - destruct s as [|c s].
    + split; [discriminate | intros [H _]; discriminate].
    + rewrite all_upper_cons. destruct (is_upper c).
      * rewrite IH. cbn [String.length]. split.
        -- intros [<- H]. auto.
        -- intros [[= <-] [_ H]]. auto.
      * split; [discriminate | intros [_ [H _]]; discriminate].
Qed.

Lemma test_five_digits s : test (Rep 5 Digit) s = true ↔ five_digits s.
Proof.
  unfold test, five_digits. rewrite rep_digit, <- take_digits_all.
  destruct (take_digits 5 s) as [[|c rest]|]; cbn; split; congruence.
Qed.

(** The Argentine pattern. *)
Lemma test_AR s :
  test (Seq (Range "A" "Z") (Seq (Rep 4 Digit) (Rep 3 (Range "A" "Z")))) s = true
  ↔ argentine_shape s.
Proof.
  unfold test, argentine_shape.
  change (remainders (Seq (Range "A" "Z") (Seq (Rep 4 Digit) (Rep 3 (Range "A" "Z")))) s)
    with (flat_map
            (λ r, flat_map (remainders (Rep 3 (Range "A" "Z"))) (remainders (Rep 4 Digit) r))
            (one_char (in_range "A" "Z") s)).
  destruct s as [|letter rest].
  { cbn. split; [discriminate | intros (? & ? & ? & ? & _); discriminate]. }
  cbn [one_char]. fold (is_upper letter).
  destruct (is_upper letter) eqn:Hletter.
  - cbn [flat_map]. rewrite app_nil_r, rep_digit.
    destruct (take_digits 4 rest) as [r|] eqn:H4.
    + apply take_digits_spec in H4 as (four & Hlen4 & Hfour & ->).
      cbn [flat_map]. rewrite app_nil_r, rep_range.
      change (in_range "A" "Z") with is_upper.
      destruct (take_chars is_upper 3 r) as [[|x tail]|] eqn:H3.
      * apply take_upper_all in H3 as [Hlen3 Hthree].
        split; [intros _|reflexivity].
        exists letter, four, r. auto 10.
      * cbn. split; [discriminate|].
        intros (letter' & four' & three & Heq & _ & Hlen4' & _ & Hlen3 & Hthree).
        injection Heq as <- Heq.
        assert (four = four' ∧ r = three) as [<- <-].
        { clear -Hlen4 Hlen4' Heq. revert four' Hlen4' Heq. rewrite <- Hlen4. clear Hlen4.
          induction four as [|c four IH]; intros [|c' four'] Hlen Heq;
            try discriminate; [auto|].
          rewrite !append_cons in Heq. injection Heq as -> Heq.
          cbn in Hlen. destruct (IH four' ltac:(congruence) Heq) as [-> ->]. auto. }
        rewrite (proj2 (take_upper_all 3 r)) in H3 by auto. discriminate.
      * cbn. split; [discriminate|].
        intros (letter' & four' & three & Heq & _ & Hlen4' & _ & Hlen3 & Hthree).
        injection Heq as <- Heq.
        assert (four = four' ∧ r = three) as [<- <-].
        { clear -Hlen4 Hlen4' Heq. revert four' Hlen4' Heq. rewrite <- Hlen4. clear Hlen4.
          induction four as [|c four IH]; intros [|c' four'] Hlen Heq;
            try discriminate; [auto|].
          rewrite !append_cons in Heq. injection Heq as -> Heq.
          cbn in Hlen. destruct (IH four' ltac:(congruence) Heq) as [-> ->]. auto. }
        rewrite (proj2 (take_upper_all 3 r)) in H3 by auto. discriminate.
    + cbn. split; [discriminate|].
      intros (letter' & four & three & Heq & _ & Hlen4 & Hfour & _).
      injection Heq as <- ->.
      rewrite (proj2 (take_digits_spec 4 (four +:+ three) three)) in H4;
        [discriminate | eauto].
  - cbn. split; [discriminate|].
    intros (letter' & four & three & Heq & Hl & _). injection Heq as <- _. congruence.
Qed.

Lemma patterns_of country key pattern :
  eq_ignore_case country key = true → patterns !! key = Some pattern →
  patterns !! toUpperCase country = Some pattern.
Proof.
  intros H Hkey. apply eq_ignore_case_upper in H. rewrite H.
  destruct (decide (key ∈ table_countries)) as [Hin|Hout].
  - apply list_elem_of_In in Hin. cbn [table_countries In] in Hin.
    destruct Hin as [<-|[<-|[<-|[<-|[<-|[]]]]]]; exact Hkey.
  - unfold patterns in Hkey. rewrite not_elem_of_list_to_map_1 in Hkey by exact Hout.
    discriminate.
Qed.



End PostalExamplesFacts.

(** ** GeolocationService: the country of the visitor *)

Module CountryDetectionFacts.
Import JsString JsStringFacts Effects EffectsFacts CountryDetection.

Section Engine.
Variable upper : string → string.

Lemma ask_run network url urls :
  run (ask upper network url) urls = (Returned (told upper network url), urls ++ [url]).
Proof.
  unfold ask, told, fetch, json, country_of. run_effects.
  destruct (network url) as [|status [[|fields]|]]; cbn [fst snd]; try reflexivity;
    destruct (Geolocation.ok status); cbn [negb]; try reflexivity.
  destruct (or_value _ _) as [| |b|q|[|c s]|]; reflexivity.
Qed.

Lemma detect_run network apis urls :
  ∃ code asked,
    run (detect upper network apis) urls = (Returned code, urls ++ asked)
    ∧ ((code = "BR" ∧ asked = apis ∧ Forall (λ url, told upper network url = None) apis)
       ∨ (∃ before url after,
            apis = before ++ url :: after ∧ asked = before ++ [url]
            ∧ told upper network url = Some code
            ∧ Forall (λ url, told upper network url = None) before)).
Proof.
  revert urls. induction apis as [|url apis IH]; intros urls.
  - exists "BR", []. split; [rewrite app_nil_r; reflexivity|]. left. auto.
  - cbn [detect]. rewrite run_or_else, ask_run.
    destruct (told upper network url) as [code|] eqn:Htold.
    + exists code, [url]. split; [reflexivity|]. right.
      exists [], url, apis. auto.
    + destruct (IH (urls ++ [url])) as (code & asked & Hrun & Hcases).
      exists code, (url :: asked). split.
      { rewrite Hrun, <- app_assoc. reflexivity. }
      destruct Hcases as [(-> & -> & Hnone)
                         |(before & url' & after & -> & -> & Hsome & Hnone)].
      * left. auto.
      * right. exists (url :: before), url', after. auto.
Qed.

(** What a service tells is what the engine makes of a text that is not
    empty, held by the first true one of the three properties of an OK
    answer. *)
Lemma told_text network url code :
  told upper network url = Some code ↔
  ∃ status fields text,
    network url = Responded status (Some (Data fields))
    ∧ Geolocation.ok status = true
    ∧ or_value (or_value (data_country_code fields) (data_country fields))
               (data_countryCode fields) = Text text
    ∧ text ≠ "" ∧ code = upper text.
Proof.
  unfold told. split.
  - destruct (network url) as [|status [[|fields]|]]; try discriminate.
    destruct (Geolocation.ok status) eqn:Hok; [|discriminate].
    destruct (or_value _ _) as [| |b|q|[|c s]|] eqn:Hvalue; try discriminate.
    intros [= <-]. exists status, fields, (String c s).
    split; [reflexivity|]. split; [exact Hok|]. split; [exact Hvalue|].
    split; [discriminate | reflexivity].
  - intros (status & fields & text & -> & -> & -> & Htext & ->).
    destruct text; [contradiction | reflexivity].
Qed.

(** X19.  [detectCountryByIP] never throws and asks the three services
    in their order, one request each, until one tells a country: it
    returns what [toUpperCase] makes of the text of the first service
    whose answer is OK, is JSON other than [null], and holds a text that
    is not empty in the first of [country_code], [country] and
    [countryCode] that holds a true value; the services after that one
    are not asked.  When no service tells a country, all three have been
    asked and the result is ['BR']. *)
Theorem detectCountryByIP_first_answer network urls :
  ∃ code asked,
    run (detectCountryByIP upper network) urls = (Returned code, urls ++ asked)
    ∧ asked `prefix_of` geolocationAPIs
    ∧ ((code = "BR" ∧ asked = geolocationAPIs
        ∧ Forall (λ url, told upper network url = None) geolocationAPIs)
       ∨ (∃ before url after status fields text,
            geolocationAPIs = before ++ url :: after ∧ asked = before ++ [url]
            ∧ Forall (λ url, told upper network url = None) before
            ∧ network url = Responded status (Some (Data fields))
            ∧ Geolocation.ok status = true
            ∧ or_value (or_value (data_country_code fields) (data_country fields))
                       (data_countryCode fields) = Text text
            ∧ text ≠ "" ∧ code = upper text)).
Proof.
  unfold detectCountryByIP.
  destruct (detect_run network geolocationAPIs urls) as (code & asked & Hrun & Hcases).
  exists code, asked. split; [exact Hrun|].
  destruct Hcases as [(-> & -> & Hnone)
                     |(before & url & after & Hapis & -> & Hsome & Hnone)].
  - split; [reflexivity|]. left. auto.
  - split; [exists after; rewrite Hapis, <- app_assoc; reflexivity|]. right.
    apply told_text in Hsome as (status & fields & text & Hnet & Hok & Hvalue & Htext & ->).
    exists before, url, after, status, fields, text. auto 10.
Qed.

(** X20.  What one service is asked and how its answer is read.  The
    loop issues one request to the service and never throws on it: a
    request that fails, a status that is not OK, a body that is not JSON
    and the body [null] all pass on to the next service.  From an OK
    answer the first of [country_code], [country] and [countryCode] that
    holds a true value decides alone: a text gives what [toUpperCase]
    makes of it, and any other true value (a number, an object, [true])
    passes on to the next service even when a later property holds a
    text; an empty text is not a true value. *)
Theorem ask_reads_the_first_true_property network url urls :
  (∃ code, run (ask upper network url) urls = (Returned code, urls ++ [url]))
  ∧ (∀ status fields,
       network url = Responded status (Some (Data fields)) →
       Geolocation.ok status = true →
       let asked v :=
         run (ask upper network url) urls = (Returned (code_of upper v), urls ++ [url]) in
       (truthy_value (data_country_code fields) = true →
          asked (data_country_code fields))
       ∧ (truthy_value (data_country_code fields) = false →
          truthy_value (data_country fields) = true →
            asked (data_country fields))
       ∧ (truthy_value (data_country_code fields) = false →
          truthy_value (data_country fields) = false →
          truthy_value (data_countryCode fields) = true →
            asked (data_countryCode fields))
       ∧ (truthy_value (data_country_code fields) = false →
          truthy_value (data_country fields) = false →
          truthy_value (data_countryCode fields) = false →
            run (ask upper network url) urls = (Returned None, urls ++ [url])))
  ∧ (∀ status, network url = Rejected ∨ network url = Responded status None
               ∨ network url = Responded status (Some NullBody)
               ∨ (∃ parsed, network url = Responded status parsed
                            ∧ Geolocation.ok status = false) →
       run (ask upper network url) urls = (Returned None, urls ++ [url]))
  ∧ (∀ text, code_of upper (Text text) = Some (upper text))
  ∧ (∀ v, (∀ text, v ≠ Text text) → code_of upper v = None).
Proof.
  split; [eexists; apply ask_run|]. split; [|split; [|split]].
  - intros status fields Hnet Hok. cbv zeta. rewrite ask_run. unfold told.
    rewrite Hnet, Hok. unfold or_value.
    assert (∀ v, truthy_value v = true →
              match v with
              | Text (String c s) => Some (upper (String c s))
              | _ => None
              end = code_of upper v) as Htrue.
    { intros [| |b|q|[|c s]|]; try reflexivity. discriminate. }
    assert (∀ v, truthy_value v = false →
              match v with
              | Text (String c s) => Some (upper (String c s))
              | _ => None
              end = None) as Hfalse.
    { intros [| |b|q|[|c s]|]; try reflexivity. discriminate. }
    split; [|split; [|split]].
    + intros H1. rewrite H1. cbn [truthy_value]. rewrite H1, (Htrue _ H1). reflexivity.
    + intros H1 H2. rewrite H1, H2, (Htrue _ H2). reflexivity.
    + intros H1 H2 H3. rewrite H1, H2, (Htrue _ H3). reflexivity.
    + intros H1 H2 H3. rewrite H1, H2, (Hfalse _ H3). reflexivity.
  - intros status H. rewrite ask_run. unfold told.
    destruct H as [-> | [-> | [-> | (parsed & -> & Hok)]]]; try reflexivity.
    rewrite Hok. destruct parsed as [[|fields]|]; reflexivity.
  - reflexivity.
  - intros [| |b|q|text|] H; try reflexivity. destruct (H text eq_refl).
Qed.

End Engine.

Lemma ask_reads_the_first_true_property_witness :
  truthy_value (data_country_code numeric_first) = true
  ∧ run (ask PostalCodeFormat.toUpperCase
           (answering "https://ipapi.co/json/" numeric_first) "https://ipapi.co/json/") []
    = (Returned None, ["https://ipapi.co/json/"])
  ∧ run (detectCountryByIP PostalCodeFormat.toUpperCase
           (answering "https://ipapi.co/json/" numeric_first)) []
    = (Returned "BR", geolocationAPIs).
Proof.
  split; [reflexivity|]. split.
  - destruct (ask_reads_the_first_true_property PostalCodeFormat.toUpperCase
                (answering "https://ipapi.co/json/" numeric_first)
                "https://ipapi.co/json/" []) as (_ & Hread & _).
    destruct (Hread 200%Z numeric_first eq_refl eq_refl) as (Hfirst & _).
    apply (Hfirst eq_refl).
  - vm_compute. reflexivity.
Defined.

Lemma detectCountryByIP_first_answer_witness :
  ∃ code asked,
    run (detectCountryByIP PostalCodeFormat.toUpperCase
           (answering "https://ipinfo.io/json"
              {| data_country_code := Undefined; data_country := Text "cl";
                 data_countryCode := Undefined |})) []
    = (Returned code, [] ++ asked)
    ∧ code = "CL" ∧ asked = geolocationAPIs.
Proof.
  destruct (detectCountryByIP_first_answer PostalCodeFormat.toUpperCase
              (answering "https://ipinfo.io/json"
                 {| data_country_code := Undefined; data_country := Text "cl";
                    data_countryCode := Undefined |}) [])
    as (code & asked & Hrun & _).
  exists code, asked. split; [exact Hrun|].
  vm_compute in Hrun. injection Hrun as <- <-. split; reflexivity.
Defined.

End CountryDetectionFacts.

(** ** GeolocationService: what the radius look-ups return *)

Module NearbyMoreFacts.
Import JsString JsArray JsArrayFacts Effects EffectsFacts Geolocation NearbyFacts.
Import NearbyFields.

Lemma or_default_not_empty a default : default ≠ "" → or_default a default ≠ "".
Proof.
  intros Hd. unfold or_default, or_else_text, truthy.
  destruct a as [[|c s]|]; try exact Hd. discriminate.
Qed.

Lemma to_municipality_filled item : filled (to_municipality item).
Proof.
  unfold filled, to_municipality. cbn [city state distance].
  split; [apply or_default_not_empty; discriminate|].
  split; [eauto|].
  destruct (item_distance item) as [d|]; [destruct (nonzero d)|]; eauto.
Qed.

Lemma nearby_elements results m :
  m ∈ nearby results → ∃ item, item ∈ results ∧ m = to_municipality item.
Proof.
  unfold nearby. rewrite (sort_perm by_distance), unique_by_city_first.
  intros Hm.
  apply (λ H, elem_of_sublist _ _ _ H (first_of_each_city_sublist [] _)) in Hm.
  apply list_elem_of_fmap in Hm as (item & -> & Hitem). eauto.
Qed.

Lemma nearby_length results : (length (nearby results) ≤ length results)%nat.
Proof.
  unfold nearby. rewrite (sort_perm by_distance), unique_by_city_first.
  rewrite <- (length_map to_municipality results).
  apply sublist_length, first_of_each_city_sublist.
Qed.

(** X21.  Whenever [getNearbyMunicipalities] returns, it has fetched the
    one radius address, and every municipality of the list has a city
    that is not empty (['Ciudad Desconocida'] when the item names none),
    a state that is a text and a distance that is a number: this copy
    leaves none of the optional fields undefined.  Every municipality
    comes from an item of the answer, so that the list is no longer than
    the results array, and an empty array gives an empty list. *)
Theorem getNearbyMunicipalities_fills_the_fields
    network postalCode country radius urls out urls' :
  run (getNearbyMunicipalities network postalCode country radius) urls
  = (Returned out, urls') →
  urls' = urls ++ [radius_url postalCode country radius]
  ∧ Forall filled out
  ∧ ∃ status data,
      network (radius_url postalCode country radius) = Responded status (Some data)
      ∧ ok status = true
      ∧ match radius_results data with
        | Some results =>
            (length out ≤ length results)%nat
            ∧ Forall (λ m, ∃ item, item ∈ results ∧ m = to_municipality item) out
        | None => out = []
        end.
Proof.
  unfold getNearbyMunicipalities, fetch, json, results_of. run_effects.
  destruct (network (radius_url postalCode country radius)) as [|status parsed] eqn:Hnet;
    [discriminate|].
  cbn [fst snd]. destruct (ok status) eqn:Hok; cbn [negb]; [|discriminate].
  destruct parsed as [data|]; [|discriminate].
  destruct data as [|results|results]; [discriminate| |].
  - cbn [radius_results]. destruct results as [results|].
    + intros [= <- <-]. split; [reflexivity|]. split.
      * apply Forall_forall. intros m Hm.
        apply nearby_elements in Hm as (item & _ & ->). apply to_municipality_filled.
      * exists status, (RadiusBody (Some results)).
        split; [reflexivity|]. split; [exact Hok|]. cbn [radius_results].
        split; [apply nearby_length|].
        apply Forall_forall. intros m Hm. apply nearby_elements, Hm.
    + intros [= <- <-]. split; [reflexivity|]. split; [constructor|].
      exists status, (RadiusBody None). cbn [radius_results]. auto.
  - cbn [radius_results]. intros [= <- <-]. split; [reflexivity|].
    split; [constructor|]. exists status, (SearchBody results).
    cbn [radius_results]. auto.
Qed.

Lemma getNearbyMunicipalities_fills_the_fields_witness :
  ∃ out,
    run (getNearbyMunicipalities (sample_network sample_results) "7500000" "CL" 20) []
    = (Returned out, [radius_url "7500000" "CL" 20])
    ∧ Forall filled out.
Proof.
  eexists. split; [vm_compute; reflexivity|].
  eapply (getNearbyMunicipalities_fills_the_fields
            (sample_network sample_results) "7500000" "CL" 20 []).
  vm_compute. reflexivity.
Defined.

Section OtherCopy.
Variable localeCompare : string → string → comparison.

Lemma to_municipality'_city item : city (to_municipality' item) ≠ "".
Proof.
  unfold to_municipality'. cbn [city]. apply or_default_not_empty. discriminate.
Qed.

Lemma nearby'_elements results m :
  m ∈ nearby' localeCompare results →
  ∃ item, item ∈ results ∧ m = to_municipality' item.
Proof.
  unfold nearby'. rewrite (sort_perm (by_distance_or_name localeCompare)).
  rewrite unique_by_city_first. intros Hm.
  apply (λ H, elem_of_sublist _ _ _ H (first_of_each_city_sublist [] _)) in Hm.
  apply list_elem_of_fmap in Hm as (item & -> & Hitem). eauto.
Qed.

Lemma with_distance_field item :
  with_distance item = true →
  distance (to_municipality' item) = Some (distance_field (to_municipality' item)).
Proof.
  unfold with_distance, distance_field, to_municipality'. cbn [distance].
  destruct (item_distance item) as [d|]; [|discriminate].
  intros ->. reflexivity.
Qed.

Lemma nearby'_sorted results :
  forallb with_distance results = true →
  non_decreasing distance_field (nearby' localeCompare results).
Proof.
  intros Hall. unfold nearby', non_decreasing.
  rewrite (sort_ext _ (λ a b, Qcompare (distance_field a) (distance_field b))).
  - apply (sort_sorted _ (λ a b, (distance_field a <= distance_field b)%Q)).
    + intros a b H. apply Qle_alt, H.
    + intros a b H. apply Qlt_le_weak, Qgt_alt, H.
  - assert (∀ m, m ∈ unique_by_city (map to_municipality' results) →
                 distance m = Some (distance_field m)) as Hdist.
    { intros m Hm. rewrite unique_by_city_first in Hm.
      apply (λ H, elem_of_sublist _ _ _ H (first_of_each_city_sublist [] _)) in Hm.
      apply list_elem_of_fmap in Hm as (item & -> & Hitem).
      apply with_distance_field.
      rewrite forallb_forall in Hall. apply Hall, list_elem_of_In, Hitem. }
    intros a b Ha Hb. unfold by_distance_or_name.
    rewrite (Hdist a Ha), (Hdist b Hb). reflexivity.
Qed.

End OtherCopy.

(** X22.  The copy of the radius look-up kept beside the Municipios page
    never throws: for every answer of the network it returns a list,
    having fetched the one radius address; the list is empty when there
    is no usable answer or no results array.  For a results array the
    list holds the first municipality of each city, so that its cities
    are pairwise distinct and none is empty; and when every item carries
    a distance other than zero the list is in non-decreasing order of
    distance, whatever the collation of the engine. *)
Theorem other_copy_never_throws localeCompare network postalCode country radius urls :
  ∃ out,
    run (getNearbyMunicipalities' localeCompare network postalCode country radius) urls
    = (Returned out, urls ++ [radius_url postalCode country radius])
    ∧ NoDup (map city out)
    ∧ Forall (λ m, city m ≠ "") out
    ∧ (no_answer (network (radius_url postalCode country radius)) → out = [])
    ∧ (∀ status results,
         network (radius_url postalCode country radius)
         = Responded status (Some (RadiusBody (Some results))) →
         ok status = true →
         out ≡ₚ first_of_each_city [] (map (to_municipality') results)
         ∧ (forallb with_distance results = true → non_decreasing distance_field out)).
Proof.
  set (url := radius_url postalCode country radius).
  destruct (network url) as [|status parsed] eqn:Hnet.
  { exists []. split.
    - unfold getNearbyMunicipalities', fetch. run_effects. fold url.
      rewrite Hnet. reflexivity.
    - split; [constructor|]. split; [constructor|]. split; [reflexivity|].
      intros ? ? [=]. }
  destruct (ok status) eqn:Hok.
  2:{ exists []. split.
      - unfold getNearbyMunicipalities', fetch. run_effects. fold url.
        rewrite Hnet. cbn [fst]. rewrite Hok. reflexivity.
      - split; [constructor|]. split; [constructor|]. split; [reflexivity|].
        intros ? ? [= -> ->] H. rewrite Hok in H. discriminate. }
  destruct parsed as [[|[results|]|results]|].
  - exists []. split.
    + unfold getNearbyMunicipalities', fetch, json, results_of. run_effects. fold url.
      rewrite Hnet. cbn [fst snd]. rewrite Hok. reflexivity.
    + split; [constructor|]. split; [constructor|]. split; [reflexivity|].
      intros ? ? [=].
  - exists (nearby' localeCompare results). split.
    + apply (CopiesFacts.run_other_copy localeCompare network postalCode country radius status);
        assumption.
    + assert (nearby' localeCompare results
              ≡ₚ first_of_each_city [] (map to_municipality' results)) as Hperm.
      { unfold nearby'. rewrite unique_by_city_first. apply sort_perm. }
      split; [rewrite Hperm; apply first_of_each_city_NoDup|].
      split.
      { apply Forall_forall. intros m Hm.
        apply nearby'_elements in Hm as (item & _ & ->). apply to_municipality'_city. }
      split.
      { unfold no_answer. rewrite Hok. intros [H|[H|H]]; discriminate. }
      intros status' results' [= <- <-] _.
      split; [exact Hperm | apply nearby'_sorted].
  - exists []. split.
    + unfold getNearbyMunicipalities', fetch, json, results_of. run_effects. fold url.
      rewrite Hnet. cbn [fst snd]. rewrite Hok. reflexivity.
    + split; [constructor|]. split; [constructor|]. split; [reflexivity|].
      intros ? ? [=].
  - exists []. split.
    + unfold getNearbyMunicipalities', fetch, json, results_of. run_effects. fold url.
      rewrite Hnet. cbn [fst snd]. rewrite Hok. reflexivity.
    + split; [constructor|]. split; [constructor|]. split; [reflexivity|].
      intros ? ? [=].
  - exists []. split.
    + unfold getNearbyMunicipalities', fetch, json, results_of. run_effects. fold url.
      rewrite Hnet. cbn [fst snd]. rewrite Hok. reflexivity.
    + split; [constructor|]. split; [constructor|]. split; [reflexivity|].
      intros ? ? [=].
Qed.

Lemma other_copy_never_throws_witness :
  ∃ out,
    run (getNearbyMunicipalities' (λ _ _, Eq) (sample_network complete_results)
           "7500000" "CL" 20) []
    = (Returned out, [radius_url "7500000" "CL" 20])
    ∧ non_decreasing distance_field out.
Proof.
  destruct (other_copy_never_throws (λ _ _, Eq) (sample_network complete_results)
              "7500000" "CL" 20 []) as (out & Hrun & _ & _ & _ & Hsorted).
  exists out. split; [exact Hrun|].
  apply (Hsorted 200%Z complete_results); reflexivity.
Defined.

End NearbyMoreFacts.

(** ** The Municipios page: selecting *)

Module SelectionFacts.
Import JsString JsDouble Entregas Geolocation MunicipiosPage Effects MunicipiosHandlers.
Local Open Scope Z_scope.

Lemma with_selecionado_same m : with_selecionado (selecionado m) m = m.
Proof. destruct m. reflexivity. Qed.

Lemma with_selecionado_twice a b m :
  with_selecionado a (with_selecionado b m) = with_selecionado a m.
Proof. reflexivity. Qed.

(** X23.  [toggleMunicipio(index)] inverts the selection of the one
    municipality at the index: the others, the names and the estimates
    stay, and doing it again gives the list back.  For an index outside
    the list it throws. *)
Theorem toggleMunicipio_flips_one index municipios :
  (∀ m, municipios !! index = Some m →
     ∃ toggled,
       toggleMunicipio index municipios = Returned toggled
       ∧ toggled !! index = Some (with_selecionado (negb (selecionado m)) m)
       ∧ (∀ j, j ≠ index → toggled !! j = municipios !! j)
       ∧ map nome toggled = map nome municipios
       ∧ map entregas toggled = map entregas municipios
       ∧ toggleMunicipio index toggled = Returned municipios)
  ∧ ((length municipios ≤ index)%nat →
       ∃ error, toggleMunicipio index municipios = Thrown error).
Proof.
  split.
  - intros m Hm. unfold toggleMunicipio. rewrite Hm.
    assert (index < length municipios)%nat as Hlt by (eapply lookup_lt_Some, Hm).
    eexists. split; [reflexivity|].
    split; [apply list_lookup_insert_eq, Hlt|].
    split; [intros j Hj; apply list_lookup_insert_ne; congruence|].
    split; [|split].
    + rewrite list_fmap_insert. cbn [nome with_selecionado].
      apply list_insert_id. rewrite list_lookup_fmap, Hm. reflexivity.
    + rewrite list_fmap_insert. cbn [entregas with_selecionado].
      apply list_insert_id. rewrite list_lookup_fmap, Hm. reflexivity.
    + rewrite list_lookup_insert_eq by exact Hlt.
      rewrite list_insert_insert_eq. cbn [selecionado with_selecionado].
      rewrite with_selecionado_twice, negb_involutive, with_selecionado_same.
      f_equal. apply list_insert_id, Hm.
  - intros Hout. unfold toggleMunicipio.
    rewrite (lookup_ge_None_2 municipios index Hout). eauto.
Qed.

Lemma toggleMunicipio_flips_one_witness :
  municipios static_state !! 1%nat = Some (municipio "Santos" false 33)
  ∧ toggleMunicipio 1 (municipios static_state)
    = Returned [municipio "Campinas" true 40; municipio "Santos" true 33;
                municipio "Sorocaba" true 48]
  ∧ (length (municipios static_state) ≤ 3)%nat
  ∧ ∃ error, toggleMunicipio 3 (municipios static_state) = Thrown error.
Proof.
  split; [reflexivity|]. split; [reflexivity|]. split; [cbn; lia|].
  apply (proj2 (toggleMunicipio_flips_one 3 (municipios static_state))). cbn. lia.
Defined.

Lemma forallb_with_selecionado b l :
  l ≠ [] → forallb selecionado (map (with_selecionado b) l) = b.
Proof.
  destruct l as [|m l]; [contradiction|]. intros _.
  cbn [map forallb selecionado with_selecionado].
  destruct b; [|reflexivity]. cbn [andb].
  induction l as [|m' l IH]; [reflexivity|]. cbn. exact IH.
Qed.

Lemma toggle_uniform b l :
  l ≠ [] →
  toggleAllMunicipios (map (with_selecionado b) l) = map (with_selecionado (negb b)) l.
Proof.
  intros Hl. unfold toggleAllMunicipios.
  rewrite (forallb_with_selecionado b l Hl), List.map_map. reflexivity.
Qed.

(** X24.  [toggleAllMunicipios] leaves the names and the estimates alone
    and makes the selection uniform: every municipality is selected
    when some were not, and none is when all were.  On a list that is not
    empty the label of the button (whether all are selected) therefore
    changes with every press, and from the first press on two presses
    give the list back. *)
Theorem toggleAllMunicipios_makes_uniform municipios :
  let toggled := toggleAllMunicipios municipios in
  map nome toggled = map nome municipios
  ∧ map entregas toggled = map entregas municipios
  ∧ Forall (λ m, selecionado m = negb (forallb selecionado municipios)) toggled
  ∧ (municipios ≠ [] →
       forallb selecionado toggled = negb (forallb selecionado municipios))
  ∧ toggleAllMunicipios (toggleAllMunicipios toggled) = toggled.
Proof.
  cbv zeta. unfold toggleAllMunicipios at 1 2 3 4.
  set (b := negb (forallb selecionado municipios)).
  split; [rewrite List.map_map; reflexivity|].
  split; [rewrite List.map_map; reflexivity|].
  split; [apply Forall_map, Forall_forall; intros m _; reflexivity|].
  split; [apply forallb_with_selecionado|].
  destruct municipios as [|m l]; [reflexivity|].
  change (toggleAllMunicipios (m :: l)) with (map (with_selecionado b) (m :: l)).
  rewrite !toggle_uniform by discriminate.
  rewrite negb_involutive. reflexivity.
Qed.

Lemma toggleAllMunicipios_makes_uniform_witness :
  municipios static_state ≠ []
  ∧ forallb selecionado (toggleAllMunicipios (municipios static_state)) = true.
Proof.
  split; [discriminate|].
  rewrite (proj1 (proj2 (proj2 (proj2
             (toggleAllMunicipios_makes_uniform (municipios static_state)))))
             ltac:(discriminate)).
  reflexivity.
Defined.

Lemma is_selected_app selected extra city :
  is_selected (selected ++ extra) city = is_selected selected city || is_selected extra city.
Proof. apply existsb_app. Qed.

Lemma is_selected_filter selected city other :
  is_selected (List.filter (λ m, negb (String.eqb m city)) selected) other
  = is_selected selected other && negb (String.eqb other city).
Proof.
  unfold is_selected. induction selected as [|m selected IH]; [reflexivity|].
  cbn [List.filter existsb].
  destruct (String.eqb m city) eqn:Hm; cbn [negb existsb]; rewrite IH.
  - apply String.eqb_eq in Hm as ->.
    destruct (String.eqb other city) eqn:Ho; cbn [orb andb negb].
    + rewrite !andb_false_r. reflexivity.
    + reflexivity.
  - destruct (String.eqb other m) eqn:Ho; cbn [orb andb]; [|reflexivity].
    apply String.eqb_eq in Ho as ->. rewrite Hm. reflexivity.
Qed.

Lemma filter_absent selected city :
  is_selected selected city = false →
  List.filter (λ m, negb (String.eqb m city)) selected = selected.
Proof.
  unfold is_selected. induction selected as [|m selected IH]; [reflexivity|].
  cbn [existsb List.filter]. intros H. apply orb_false_iff in H as [Hm Hrest].
  rewrite String.eqb_sym, Hm. cbn [negb]. rewrite (IH Hrest). reflexivity.
Qed.

Lemma all_cities_selected nearby :
  forallb (λ m, is_selected (map city nearby) (city m)) nearby = true.
Proof.
  apply forallb_forall. intros m Hm. unfold is_selected.
  apply existsb_exists. exists (city m).
  split; [apply in_map, Hm | apply String.eqb_refl].
Qed.

(** X25.  Selecting cities of the list the API returned.  Checking a city
    makes it selected and unchecking it makes it not selected, even when
    it was listed more than once; neither changes whether another city is
    selected; unchecking a city that was just checked gives the
    selection back when the city was not in it.  The button for all
    cities selects exactly the cities of the list, in its order, when
    some city was not selected, and a second press clears the selection. *)
Theorem city_selection_round_trip nearby selected city :
  is_selected (onCheckedChange true city selected) city = true
  ∧ is_selected (onCheckedChange false city selected) city = false
  ∧ (∀ other, other ≠ city →
       is_selected (onCheckedChange true city selected) other = is_selected selected other
       ∧ is_selected (onCheckedChange false city selected) other
         = is_selected selected other)
  ∧ (is_selected selected city = false →
       onCheckedChange false city (onCheckedChange true city selected) = selected)
  ∧ (forallb (λ m, is_selected selected (Geolocation.city m)) nearby = false →
       toggleAllCities nearby selected = map Geolocation.city nearby
       ∧ toggleAllCities nearby (toggleAllCities nearby selected) = [])
  ∧ (forallb (λ m, is_selected selected (Geolocation.city m)) nearby = true →
       toggleAllCities nearby selected = []).
Proof.
  unfold onCheckedChange. split; [|split; [|split; [|split; [|split]]]].
  - rewrite is_selected_app. unfold is_selected at 2. cbn [existsb].
    rewrite String.eqb_refl. apply orb_true_iff. right. reflexivity.
  - rewrite is_selected_filter, String.eqb_refl. apply andb_false_r.
  - intros other Hother.
    assert (String.eqb other city = false) as Hneq by (apply String.eqb_neq, Hother).
    split.
    + rewrite is_selected_app. unfold is_selected at 2. cbn [existsb].
      rewrite Hneq. cbn [orb]. apply orb_false_r.
    + rewrite is_selected_filter, Hneq. apply andb_true_r.
  - intros Habsent. rewrite List.filter_app. cbn [List.filter].
    rewrite String.eqb_refl. cbn [negb]. rewrite app_nil_r.
    apply filter_absent, Habsent.
  - intros Hsome. unfold toggleAllCities. rewrite Hsome.
    split; [reflexivity|]. rewrite all_cities_selected. reflexivity.
  - intros Hall. unfold toggleAllCities. rewrite Hall. reflexivity.
Qed.

Lemma city_selection_round_trip_witness :
  is_selected ["Santiago"] "Providencia" = false
  ∧ onCheckedChange false "Providencia" (onCheckedChange true "Providencia" ["Santiago"])
    = ["Santiago"]
  ∧ toggleAllCities (nearby sample_results) ["Santiago"] = ["Providencia"; "Santiago"].
Proof.
  destruct (city_selection_round_trip (nearby sample_results) ["Santiago"] "Providencia")
    as (_ & _ & _ & Hback & Hall & _).
  split; [reflexivity|]. split; [apply Hback; reflexivity|].
  rewrite (proj1 (Hall ltac:(vm_compute; reflexivity))). vm_compute. reflexivity.
Defined.

End SelectionFacts.

(** ** The Municipios page: submitting and loading *)

Module SubmitFacts.
Import JsString JsDouble Entregas EntregasFacts Geolocation MunicipiosPage.
Import MunicipiosPageFacts Effects EffectsFacts MunicipiosHandlers.
Local Open Scope Z_scope.

Lemma total_from acc l :
  fold_left (λ acc m, acc + stored_entregas m) l acc = acc + total l.
Proof.
  unfold total. revert acc. induction l as [|m l IH]; intros acc; cbn [fold_left]; [lia|].
  rewrite (IH (acc + stored_entregas m)), (IH (0 + stored_entregas m)). lia.
Qed.

Lemma total_range l :
  Forall (λ m, 32 <= stored_entregas m <= 48) l →
  32 * Z.of_nat (length l) <= total l <= 48 * Z.of_nat (length l).
Proof.
  induction 1 as [|m l Hm _ IH]; [cbn; lia|].
  unfold total. cbn [fold_left]. rewrite total_from.
  rewrite length_cons, Nat2Z.inj_succ. lia.
Qed.

Lemma map_imap_const {A B C} (f : nat → A → B) (g : B → C) (h : A → C) (l : list A) :
  (∀ i x, g (f i x) = h x) → map g (imap f l) = map h l.
Proof.
  revert f. induction l as [|x l IH]; intros f Hf; [reflexivity|].
  cbn [imap map]. rewrite Hf. f_equal. apply IH. intros i y. apply Hf.
Qed.

Lemma stored_names selected nearby random :
  map stored_nome (municipiosComEntregas selected nearby random) = selected.
Proof.
  unfold municipiosComEntregas.
  rewrite (map_imap_const _ stored_nome (λ x, x)) by reflexivity.
  apply map_id.
Qed.

Section Submit.
Variable candidate : Type.
Variable JSON_parse : string → option candidate.
Variable JSON_stringify : dadosCompletos candidate → string.
Variable random : nat → double.

(** The municipalities a submission is about. *)
Lemma handleSubmit_cases s :
  let chosen :=
    if (0 <? length (nearbyMunicipalities s))%nat then selectedMunicipios s
    else map nome (List.filter selecionado (municipios s)) in
  let stored :=
    if (0 <? length (nearbyMunicipalities s))%nat
    then municipiosComEntregas (selectedMunicipios s) (nearbyMunicipalities s) random
    else map stored_of (List.filter selecionado (municipios s)) in
  handleSubmit candidate JSON_parse JSON_stringify random s =
  match chosen with
  | [] => show_toast nothing_selected s
  | _ :: _ =>
      match JSON_parse (or_default (localStorage s !! "candidato_data") "{}") with
      | Some c =>
          setShowLoadingModal true
            (localStorage_setItem "candidato_data_completo"
               (JSON_stringify {| candidato := c; dados_municipios := stored;
                                  totalEntregas := total stored |})
               (setSubmitting true s))
      | None => setSubmitting false (show_toast registration_failed s)
      end
  end.
Proof.
  cbv zeta. unfold handleSubmit.
  destruct (if (0 <? length (nearbyMunicipalities s))%nat then selectedMunicipios s
            else map nome (List.filter selecionado (municipios s))) as [|x chosen];
    [reflexivity|].
  cbn [length Nat.eqb setSubmitting localStorage nearbyMunicipalities
       selectedMunicipios municipios].
  destruct (JSON_parse _); reflexivity.
Qed.

End Submit.



End SubmitFacts.

Module LoadFacts.
Import StorageState.
Import JsString JsDouble Entregas EntregasFacts Geolocation MunicipiosPage.
Import MunicipiosPageFacts Effects EffectsFacts MunicipiosHandlers SubmitFacts.
Local Open Scope Z_scope.

Lemma set_urls_same s : set_urls (urls s) s = s.
Proof. destruct s. reflexivity. Qed.

Lemma run_lift_urls {A} (c : M (list string) A) s :
  run (lift c) s = (fst (run c (urls s)), set_urls (snd (run c (urls s))) s).
Proof. unfold run, lift. destruct (c (urls s)). reflexivity. Qed.

Lemma formatted_names municipalities random :
  map nome (municipiosFormatados municipalities random) = map city municipalities
  ∧ Forall (λ m, selecionado m = false) (municipiosFormatados municipalities random).
Proof.
  unfold municipiosFormatados. split.
  - apply map_imap_const. reflexivity.
  - apply Forall_imap. reflexivity.
Qed.

Lemma getNearbyMunicipalities_fetches network postalCode country radius fetched :
  snd (run (getNearbyMunicipalities network postalCode country radius) fetched)
  = fetched ++ [radius_url postalCode country radius].
Proof.
  unfold getNearbyMunicipalities, fetch, json, results_of. run_effects.
  destruct (network _) as [|status [[|results|results]|]]; cbn [fst snd]; try reflexivity;
    destruct (ok status); cbn [negb snd]; try reflexivity.
  destruct results; reflexivity.
Qed.

(** X27.  Unless storage is blocked, [loadNearbyMunicipalities] never
    throws, and it never writes to localStorage or changes the selection.
    For Brazil (also when no country is stored) or without a stored
    postal code it does nothing.  Otherwise it fetches the one radius
    address, for the stored code and country with a radius of 20: when
    the service returns a list, the list becomes the nearby
    municipalities, and the page lists a municipality for each of them in
    the same order, none selected; when the service throws, the page
    shows one toast and keeps its lists.  The two reads of localStorage
    stand before the [try]: when storage is blocked the function throws
    at the first of them, without a request and without a toast. *)
Theorem loadNearbyMunicipalities_never_throws network random s :
  (∀ storage, reads_throw storage = false →
   ∃ s',
    run (loadNearbyMunicipalities storage network random) s = (Returned tt, s')
    ∧ localStorage s' = localStorage s
    ∧ selectedMunicipios s' = selectedMunicipios s
    ∧ ((localStorage s !! "user_cep" = None ∨ localStorage s !! "user_cep" = Some ""
        ∨ or_default (localStorage s !! "user_country") "BR" = "BR") → s' = s)
    ∧ (∀ cep, localStorage s !! "user_cep" = Some cep → cep ≠ "" →
       let country := or_default (localStorage s !! "user_country") "BR" in
       country ≠ "BR" →
         urls s' = urls s ++ [radius_url cep country 20]
         ∧ (∀ out fetched,
              run (getNearbyMunicipalities network cep country 20) (urls s)
              = (Returned out, fetched) →
              nearbyMunicipalities s' = out
              ∧ municipios s' = municipiosFormatados out random
              ∧ map nome (municipios s') = map city out
              ∧ Forall (λ m, selecionado m = false) (municipios s')
              ∧ toasts s' = toasts s)
         ∧ (∀ error fetched,
              run (getNearbyMunicipalities network cep country 20) (urls s)
              = (Thrown error, fetched) →
              nearbyMunicipalities s' = nearbyMunicipalities s
              ∧ municipios s' = municipios s
              ∧ toasts s' = toasts s ++ [loading_failed])))
  ∧ run (loadNearbyMunicipalities Blocked network random) s = (Thrown SecurityError, s).
Proof.
  split; [|reflexivity].
  intros storage Hreads.
  unfold loadNearbyMunicipalities, localStorage_getItem. rewrite Hreads, !run_bind.
  change (run (read (λ s, localStorage s !! "user_cep")) s)
    with (Returned (localStorage s !! "user_cep"), s).
  cbv beta iota. rewrite run_bind.
  change (run (read (λ s, localStorage s !! "user_country")) s)
    with (Returned (localStorage s !! "user_country"), s).
  cbv beta iota zeta.
  set (country := or_default (localStorage s !! "user_country") "BR").
  destruct (localStorage s !! "user_cep") as [cep|] eqn:Hcep.
  2:{ exists s. split; [reflexivity|]. repeat split; try discriminate. }
  destruct (String.eqb country "BR") eqn:Hcountry.
  { apply String.eqb_eq in Hcountry. exists s. split; [reflexivity|].
    split; [reflexivity|]. split; [reflexivity|]. split; [reflexivity|].
    intros cep' _ _ Hne. contradiction. }
  apply String.eqb_neq in Hcountry.
  destruct cep as [|c cep].
  { exists s. split; [reflexivity|].
    split; [reflexivity|]. split; [reflexivity|]. split; [reflexivity|].
    intros cep' [= <-] Hne. contradiction. }
  cbn [negb andb truthy].
  rewrite run_try_catch, run_bind.
  pose proof (getNearbyMunicipalities_fetches network (String c cep) country 20 (urls s))
    as Hfetched.
  rewrite run_lift_urls.
  destruct (run (getNearbyMunicipalities network (String c cep) country 20) (urls s))
    as [[out|error] fetched] eqn:Hrun; cbn [fst snd] in *; subst fetched.
  - eexists. split; [reflexivity|].
    cbn [localStorage selectedMunicipios setMunicipios setNearbyMunicipalities set_urls
         urls nearbyMunicipalities municipios toasts].
    split; [reflexivity|]. split; [reflexivity|].
    split; [intros [H|[H|H]]; [discriminate | discriminate | contradiction]|].
    intros cep' [= <-] _ _. split; [reflexivity|]. split.
    + intros out' fetched' Heq. assert (out = out') as <- by congruence.
      destruct (formatted_names out random) as [Hnames Hnone].
      repeat split; assumption.
    + intros error' fetched' Heq. congruence.
  - eexists. split; [reflexivity|].
    cbn [localStorage selectedMunicipios show_toast set_urls
         urls nearbyMunicipalities municipios toasts].
    split; [reflexivity|]. split; [reflexivity|].
    split; [intros [H|[H|H]]; [discriminate | discriminate | contradiction]|].
    intros cep' [= <-] _ _. split; [reflexivity|]. split.
    + intros out' fetched' Heq. congruence.
    + intros error' fetched' _. repeat split.
Qed.

Lemma loadNearbyMunicipalities_never_throws_witness :
  (∃ s',
     run (loadNearbyMunicipalities Working failing_network (λ _, one_half)) chilean_state
     = (Returned tt, s')
     ∧ municipios s' = municipios chilean_state
     ∧ toasts s' = [loading_failed])
  ∧ run (loadNearbyMunicipalities Blocked failing_network (λ _, one_half)) chilean_state
    = (Thrown SecurityError, chilean_state).
Proof.
  destruct (loadNearbyMunicipalities_never_throws failing_network (λ _, one_half)
              chilean_state) as (Hworks & Hblocked).
  split; [|exact Hblocked].
  destruct (Hworks Working eq_refl) as (s' & Hrun & _ & _ & _ & Hloaded).
  exists s'. split; [exact Hrun|].
  destruct (Hloaded "7500000" eq_refl ltac:(discriminate) ltac:(discriminate))
    as (_ & _ & Hfailed).
  destruct (Hfailed "Error: HTTP error! status: 500"
              [radius_url "7500000" "CL" 20] ltac:(vm_compute; reflexivity))
    as (_ & Hmunicipios & Htoasts).
  split; [exact Hmunicipios | exact Htoasts].
Defined.

End LoadFacts.

(** ** The Municipios page: telling the three start dates apart *)

Module StartDatesMoreFacts.
Import JsString JsStringFacts JsNumber JsDate StartDates StartDatesFacts.
Import FingerprintFacts DeviceIdText HashFacts.
Local Open Scope Z_scope.

Lemma three_next_days today fresh :
  valid_date today → (∀ i, fresh i = today) →
  getNextThreeDays today fresh =
  [ entry_of (next_day today);
    entry_of (next_day (next_day today));
    entry_of (next_day (next_day (next_day today))) ].
Proof.
  intros Hvalid Hfresh.
  unfold getNextThreeDays. cbn [map]. rewrite !Hfresh.
  assert (H1 : setDate (getDate today + 1) today = next_day today)
    by (apply setDate_next_day, Hvalid).
  assert (H2 : setDate (getDate today + 2) today = next_day (next_day today))
    by (rewrite <- H1; apply (setDate_step today 1 Hvalid); lia).
  assert (H3 : setDate (getDate today + 3) today
               = next_day (next_day (next_day today)))
    by (rewrite <- H2; apply (setDate_step today 2 Hvalid); lia).
  rewrite H1, H2, H3. reflexivity.
Qed.

Lemma cut_at_slash a b x y :
  contains_char "/" a = false → contains_char "/" b = false →
  a +:+ String "/" x = b +:+ String "/" y → a = b ∧ x = y.
Proof.
  revert b. induction a as [|c a IH]; intros [|c' b] Ha Hb Heq.
  - rewrite !append_nil_l in Heq. injection Heq as ->. auto.
  - rewrite append_nil_l, append_cons in Heq. injection Heq as <- _.
    cbn in Hb. discriminate.
  - rewrite append_nil_l, append_cons in Heq. injection Heq as -> _.
    cbn in Ha. discriminate.
  - rewrite !append_cons in Heq. injection Heq as -> Heq.
    cbn [contains_char] in Ha, Hb.
    apply orb_false_iff in Ha as [_ Ha]. apply orb_false_iff in Hb as [_ Hb].
    destruct (IH b Ha Hb Heq) as [-> ->]. auto.
Qed.

Lemma id_text_no_slash s : id_text s → contains_char "/" s = false.
Proof.
  unfold id_text. induction s as [|c s IH]; [reflexivity|].
  cbn [String.list_ascii_of_string contains_char]. intros H.
  apply Forall_cons in H as [Hc Hs]. rewrite (IH Hs), orb_false_r.
  destruct (Ascii.eqb c "/") eqn:Heq; [|reflexivity].
  apply Ascii.eqb_eq in Heq. subst c. discriminate.
Qed.

Lemma month_text m :
  0 <= m < 12 →
  m = 0 ∨ m = 1 ∨ m = 2 ∨ m = 3 ∨ m = 4 ∨ m = 5
  ∨ m = 6 ∨ m = 7 ∨ m = 8 ∨ m = 9 ∨ m = 10 ∨ m = 11.
Proof. lia. Qed.

Lemma month_no_slash m : 0 <= m < 12 → contains_char "/" (item months m) = false.
Proof. intros H. apply month_text in H. destruct_or!; subst; reflexivity. Qed.

Lemma month_injective m m' :
  0 <= m < 12 → 0 <= m' < 12 → item months m = item months m' → m = m'.
Proof.
  intros H H'. apply month_text in H, H'.
  destruct_or!; subst; cbn; intros Heq; try reflexivity; discriminate.
Qed.

(** The value of an entry tells the day and the month of its date. *)
Lemma value_injective d d' :
  valid_date d → valid_date d' →
  value (entry_of d) = value (entry_of d') →
  day d = day d' ∧ month d = month d'.
Proof.
  intros [Hm Hd] [Hm' Hd']. unfold entry_of, getDate, getMonth. cbn [value].
  change ("/" +:+ item months (month d) +:+ "/2025")
    with (String "/" (item months (month d) +:+ String "/" "2025")).
  change ("/" +:+ item months (month d') +:+ "/2025")
    with (String "/" (item months (month d') +:+ String "/" "2025")).
  intros Heq.
  apply cut_at_slash in Heq as [Hday Hrest];
    [|apply id_text_no_slash, id_text_toString; lia..].
  apply cut_at_slash in Hrest as [Hmonth _]; [|apply month_no_slash; lia..].
  split.
  - apply (toString_injective 10); [lia | exact Hday].
  - apply month_injective; assumption.
Qed.

Lemma next_day_differs d :
  valid_date d →
  (day (next_day d) ≠ day d ∨ month (next_day d) ≠ month d)
  ∧ (day (next_day (next_day d)) ≠ day d ∨ month (next_day (next_day d)) ≠ month d).
Proof.
  intros [Hm Hd]. destruct d as [y m n]. cbn [year month day] in *.
  destruct (Z.lt_ge_cases n (days_in_month y m)) as [Hlt|Hge].
  - rewrite (next_day_within (Date y m n)) by exact Hlt. cbn [year month day].
    split; [left; lia|].
    destruct (Z.lt_ge_cases (n + 1) (days_in_month y m)) as [Hlt'|Hge'].
    + rewrite (next_day_within (Date y m (n + 1))) by exact Hlt'.
      cbn [day]. left. lia.
    + rewrite (next_day_last (Date y m (n + 1))) by exact Hge'. cbn [year month day].
      destruct (m =? 11) eqn:H11;
        [apply Z.eqb_eq in H11 | apply Z.eqb_neq in H11]; cbn [month]; right; lia.
  - rewrite (next_day_last (Date y m n)) by exact Hge. cbn [year month day].
    destruct (m =? 11) eqn:H11; [apply Z.eqb_eq in H11 | apply Z.eqb_neq in H11].
    + cbn [month]. split; [right; lia|].
      pose proof (days_in_month_bounds (y + 1) 0) as Hdim.
      rewrite (next_day_within (Date (y + 1) 0 1)) by (cbn [year month day]; lia).
      cbn [month]. right. lia.
    + cbn [month]. split; [right; lia|].
      pose proof (days_in_month_bounds y (m + 1)) as Hdim.
      rewrite (next_day_within (Date y (m + 1) 1)) by (cbn [year month day]; lia).
      cbn [month]. right. lia.
Qed.

(** X28.  The three start dates can be told apart: for every valid
    current date the values of the three entries are pairwise different,
    and none of them is ['outro'], the value of the button for another
    day; so that a stored choice marks exactly one button. *)
Theorem getNextThreeDays_values_differ today fresh :
  valid_date today → (∀ i, fresh i = today) →
  NoDup (map value (getNextThreeDays today fresh))
  ∧ Forall (λ e, value e ≠ "outro") (getNextThreeDays today fresh).
Proof.
  intros Hvalid Hfresh. split.
  - rewrite (three_next_days today fresh Hvalid Hfresh). cbn [map].
    pose proof (next_day_valid today Hvalid) as H1.
    pose proof (next_day_valid _ H1) as H2.
    pose proof (next_day_valid _ H2) as H3.
    destruct (next_day_differs _ H1) as [H12 H13].
    destruct (next_day_differs _ H2) as [H23 _].
    repeat constructor; rewrite ?not_elem_of_cons; repeat split;
      try apply not_elem_of_nil;
      intros Heq; apply value_injective in Heq as [Hday Hmonth];
      try assumption; lia.
  - apply Forall_forall. intros e He Hvalue.
    assert (endsWith (value e) "/2025" = true) as Hends.
    { unfold getNextThreeDays in He. cbn [map] in He. set_unfold.
      destruct_or!; subst e; apply value_ends_2025. }
    rewrite Hvalue in Hends. discriminate.
Qed.

Lemma getNextThreeDays_values_differ_witness :
  valid_date (Date 2024 11 30)
  ∧ map value (getNextThreeDays (Date 2024 11 30) (λ _, Date 2024 11 30))
    = ["31/12/2025"; "1/01/2025"; "2/01/2025"]
  ∧ NoDup (map value (getNextThreeDays (Date 2024 11 30) (λ _, Date 2024 11 30))).
Proof.
  assert (Hvalid : valid_date (Date 2024 11 30))
    by (repeat split; vm_compute; discriminate).
  split; [exact Hvalid|]. split; [vm_compute; reflexivity|].
  apply (getNextThreeDays_values_differ (Date 2024 11 30) (λ _, Date 2024 11 30) Hvalid).
  reflexivity.
Defined.

End StartDatesMoreFacts.

(** ** The page with the delivery radius *)

Module DeliveryZoneFacts.
Import JsString JsDouble Entregas EntregasFacts Geolocation MunicipiosPage.
Import MunicipiosPageFacts MunicipiosHandlers DeliveryZone.
Local Open Scope Z_scope.

(** The product of a double below 1 with a small integer [n] that is not
    a power of two stays below [n] after rounding. *)
Lemma floor_random_times r n K :
  in_unit_interval r → 1 <= K <= 5 → 2 ^ (K - 1) < n < 2 ^ K →
  0 <= floor (mul r (of_Z n)) <= n - 1.
Proof.
  intros [[Hm0 Hm53] [_ Hlt]] HK Hn. destruct r as [m e]. cbn [mantissa exponent] in *.
  unfold mul, of_Z. cbn [mantissa exponent]. rewrite Z.add_0_r.
  assert (0 < 2 ^ (K - 1)) as HpK by (apply Z.pow_pos_nonneg; lia).
  assert (2 ^ K = 2 * 2 ^ (K - 1)) as HK2.
  { rewrite <- Z.pow_succ_r by lia. f_equal. lia. }
  assert (He : e <= 0).
  { destruct (Z.le_gt_cases e 0) as [H|H]; [exact H|].
    rewrite Z.pow_neg_r in Hlt by lia. lia. }
  assert (Hp : 0 < 2 ^ (- e)) by (apply Z.pow_pos_nonneg; lia).
  unfold round53. destruct (m * n <? 2 ^ 53) eqn:Hsmall.
  - rewrite floor_div by exact He. split.
    + apply Z.div_pos; nia.
    + apply Z.lt_succ_r. replace (Z.succ (n - 1)) with n by lia.
      apply Z.div_lt_upper_bound; nia.
  - apply Z.ltb_ge in Hsmall.
    set (k := Z.log2 (m * n) - 52).
    assert (m * n < 2 ^ 53 * 2 ^ K) as Hbig by nia.
    assert (Hlog : 53 <= Z.log2 (m * n) <= 52 + K).
    { split.
      - apply Z.log2_le_pow2; lia.
      - apply Z.lt_succ_r, Z.log2_lt_pow2; [lia|].
        replace (Z.succ (52 + K)) with (53 + K) by lia.
        rewrite Z.pow_add_r by lia. exact Hbig. }
    assert (Hk : 1 <= k <= K) by (unfold k; lia).
    assert (Hexp : 53 - K < - e).
    { destruct (Z.lt_ge_cases (53 - K) (- e)) as [H|H]; [exact H|].
      assert (2 ^ (- e) <= 2 ^ (53 - K)) by (apply Z.pow_le_mono_r; lia).
      assert (2 ^ 53 = 2 ^ (53 - K) * 2 ^ K) as Hsplit53.
      { rewrite <- Z.pow_add_r by lia. f_equal. lia. }
      assert (0 < 2 ^ (53 - K)) by (apply Z.pow_pos_nonneg; lia).
      nia. }
    rewrite floor_div by lia.
    pose proof (round_shift_upper (m * n) k ltac:(nia) ltac:(lia)) as Hup.
    pose proof (round_shift_nonneg (m * n) k ltac:(nia) ltac:(lia)) as Hq0.
    set (q := round_shift (m * n) k) in *.
    assert (HP : 0 < 2 ^ (- (e + k))) by (apply Z.pow_pos_nonneg; lia).
    assert (HT : 0 < 2 ^ k) by (apply Z.pow_pos_nonneg; lia).
    assert (Hsplit : 2 ^ (- e) = 2 ^ (- (e + k)) * 2 ^ k).
    { rewrite <- Z.pow_add_r by lia. f_equal. lia. }
    assert (Hhalf : 2 ^ (k - 1) <= 2 ^ (K - 1)) by (apply Z.pow_le_mono_r; lia).
    set (P := 2 ^ (- (e + k))) in *. set (T := 2 ^ k) in *.
    set (h := 2 ^ (k - 1)) in *.
    split; [apply Z.div_pos; lia|].
    apply Z.lt_succ_r. replace (Z.succ (n - 1)) with n by lia.
    apply Z.div_lt_upper_bound; [lia|].
    assert ((m + 1) * n <= P * T * n) as Hmn
      by (apply Z.mul_le_mono_nonneg_r; lia).
    apply (Z.mul_lt_mono_pos_r T); [lia|]. clearbody P T h q. nia.
Qed.



End DeliveryZoneFacts.

(** ** ipService and the hook over a storage that may refuse *)

Module StorageFaultsFacts.
Import JsString JsStringFacts Browser IpService IpServiceFacts.
Import Effects EffectsFacts IpServiceEffects BanChecks BanChecksFacts.
Import MarkerFacts ReportMoreFacts DesktopProtection RedirectFacts HookFacts.
Import StorageState.

Lemma run_detached {W A} (c : M W A) w :
  run (StorageFaults.detached c) w = (Returned tt, snd (run c w)).
Proof. reflexivity. Qed.

Lemma isLocallyBanned_run storage w :
  run (StorageFaults.isLocallyBanned storage) w =
  if reads_throw storage then (Thrown SecurityError, w)
  else (Returned (isLocallyBanned (store w)), w).
Proof.
  unfold StorageFaults.isLocallyBanned, StorageFaults.localStorage_getItem,
    StorageFaults.sessionStorage_getItem, isLocallyBanned.
  destruct (reads_throw storage); [reflexivity|]. run_effects.
  destruct (bool_decide _); [reflexivity|].
  destruct (bool_decide _); reflexivity.
Qed.

Lemma markLocalBan_run storage w :
  run (StorageFaults.markLocalBan storage) w =
  if writes_throw storage then (Thrown (write_error storage), w)
  else (Returned tt, on_store markLocalBan w).
Proof.
  unfold StorageFaults.markLocalBan, StorageFaults.localStorage_setItem,
    StorageFaults.sessionStorage_setItem.
  destruct (writes_throw storage); reflexivity.
Qed.

Lemma reportDesktopAccess_storage_run storage dev now href api w :
  run (StorageFaults.reportDesktopAccess storage dev now href api) w =
  if writes_throw storage then (Thrown (write_error storage), w)
  else run (reportDesktopAccess dev now href api) w.
Proof.
  unfold StorageFaults.reportDesktopAccess, StorageFaults.localStorage_setItem,
    StorageFaults.sessionStorage_setItem.
  destruct (writes_throw storage); reflexivity.
Qed.

Section Steps.
Variable storage : storage_state.
Variable server : string → fetched reply.
Variable api : request → bool.

Lemma check_device_storage_run deviceId w :
  run (StorageFaults.check_device storage server deviceId) w =
  if writes_throw storage
  then (Returned None, after w (device_requests deviceId) false)
  else run (check_device server deviceId) w.
Proof.
  destruct (writes_throw storage) eqn:Hwrites.
  - unfold StorageFaults.check_device, device_requests.
    destruct deviceId as [id|]; [|rewrite after_nothing; reflexivity].
    destruct (truthy (Some id)); [|rewrite after_nothing; reflexivity].
    rewrite run_try_catch, run_bind.
    unfold fetch, json, property, issue, after. run_effects.
    fold (device_url id).
    destruct (server (device_url id)) as [|[] [[|data]|]]; cbn; try reflexivity.
    destruct (bool_decide _); [|reflexivity].
    change (StorageFaults.markLocalBan storage ?w)
      with (run (StorageFaults.markLocalBan storage) w).
    rewrite markLocalBan_run, Hwrites. reflexivity.
  - unfold StorageFaults.check_device, check_device,
      StorageFaults.markLocalBan, StorageFaults.localStorage_setItem,
      StorageFaults.sessionStorage_setItem.
    rewrite Hwrites. reflexivity.
Qed.

Lemma check_ip_status_storage_run deviceId w :
  run (StorageFaults.check_ip_status storage server api deviceId) w =
  if writes_throw storage
  then match answer (server ip_status_url) with
       | Some ipData =>
           if status_banned ipData
           then (Returned None, after w [GET ip_status_url] false)
           else (Returned (Some {| isBanned := false; ip := data_ip ipData |}),
                 after w [GET ip_status_url] false)
       | None => (Returned None, after w [GET ip_status_url] false)
       end
  else run (check_ip_status server api deviceId) w.
Proof.
  destruct (writes_throw storage) eqn:Hwrites.
  - unfold StorageFaults.check_ip_status.
    rewrite run_try_catch, run_bind.
    unfold fetch, json, property, issue, answer, status_banned, after. run_effects.
    fold ip_status_url.
    destruct (server ip_status_url) as [|[] [[|data]|]]; cbn; try reflexivity.
    destruct (bool_decide _); [|reflexivity].
    change (StorageFaults.markLocalBan storage ?w)
      with (run (StorageFaults.markLocalBan storage) w).
    rewrite markLocalBan_run, Hwrites. reflexivity.
  - unfold StorageFaults.check_ip_status, check_ip_status,
      StorageFaults.markLocalBan, StorageFaults.localStorage_setItem,
      StorageFaults.sessionStorage_setItem.
    rewrite Hwrites. reflexivity.
Qed.

Lemma check_legacy_storage_run w :
  run (StorageFaults.check_legacy storage server) w =
  if writes_throw storage
  then match answer (server legacy_url) with
       | Some data =>
           if data_isBanned data
           then (Returned None, after w [GET legacy_url] false)
           else (Returned (Some {| isBanned := false; ip := data_ip data |}),
                 after w [GET legacy_url] false)
       | None => (Returned None, after w [GET legacy_url] false)
       end
  else run (check_legacy server) w.
Proof.
  destruct (writes_throw storage) eqn:Hwrites.
  - unfold StorageFaults.check_legacy.
    rewrite run_try_catch, run_bind.
    unfold fetch, json, property, issue, answer, after. run_effects.
    fold legacy_url.
    destruct (server legacy_url) as [|[] [[|data]|]]; cbn; try reflexivity.
    destruct (data_isBanned data); [|reflexivity].
    change (StorageFaults.markLocalBan storage ?w)
      with (run (StorageFaults.markLocalBan storage) w).
    rewrite markLocalBan_run, Hwrites. reflexivity.
  - unfold StorageFaults.check_legacy, check_legacy,
      StorageFaults.markLocalBan, StorageFaults.localStorage_setItem,
      StorageFaults.sessionStorage_setItem.
    rewrite Hwrites. reflexivity.
Qed.

Lemma getItem_storage_run k w :
  run (StorageFaults.localStorage_getItem storage k) w =
  if reads_throw storage then (Thrown SecurityError, w)
  else (Returned (getItem (localStorage (store w)) k), w).
Proof.
  unfold StorageFaults.localStorage_getItem.
  destruct (reads_throw storage); reflexivity.
Qed.

End Steps.

(** The whole of [checkIfBanned] for each state of the storage. *)
Lemma checkIfBanned_storage_run storage server api w :
  run (StorageFaults.checkIfBanned storage server api) w =
  match storage with
  | Working => run (checkIfBanned server api) w
  | Blocked => (Thrown SecurityError, w)
  | NoQuota =>
      if isLocallyBanned (store w)
      then (Returned {| isBanned := true; ip := None |}, w)
      else
        let deviceId := getItem (localStorage (store w)) BANNED_DEVICE_KEY in
        (Returned {| isBanned := false; ip := StorageFaults.ip_unmarked server |},
         after w (StorageFaults.issued_unmarked server deviceId) false)
  end.
Proof.
  unfold StorageFaults.checkIfBanned, StorageFaults.checkIfBanned_fallback.
  rewrite run_try_catch, run_bind, isLocallyBanned_run.
  destruct storage; cbn [reads_throw]; cbv beta iota.
  - rewrite checkIfBanned_run.
    destruct (isLocallyBanned (store w)) eqn:Hlocal; [reflexivity|].
    rewrite run_bind, getItem_storage_run. cbn [reads_throw]. cbv beta iota zeta.
    set (deviceId := getItem (localStorage (store w)) BANNED_DEVICE_KEY).
    rewrite run_or_else, check_device_storage_run. cbn [writes_throw].
    rewrite check_device_run.
    unfold remote_verdict, issued.
    destruct (device_positive server deviceId); [reflexivity|].
    rewrite run_or_else, check_ip_status_storage_run. cbn [writes_throw].
    rewrite check_ip_status_run.
    unfold ip_verdict.
    destruct (answer (server ip_status_url)) as [ipData|].
    + destruct (status_banned ipData); cbn [isBanned];
        rewrite after_after; reflexivity.
    + rewrite run_or_else, check_legacy_storage_run. cbn [writes_throw].
      rewrite check_legacy_run.
      destruct (answer (server legacy_url)) as [data|]; cbn [isBanned];
        rewrite !after_after; reflexivity.
  - destruct (isLocallyBanned (store w)) eqn:Hlocal; [reflexivity|].
    rewrite run_bind, getItem_storage_run. cbn [reads_throw]. cbv beta iota zeta.
    set (deviceId := getItem (localStorage (store w)) BANNED_DEVICE_KEY).
    rewrite run_or_else, check_device_storage_run. cbn [writes_throw].
    rewrite run_or_else, check_ip_status_storage_run. cbn [writes_throw].
    unfold StorageFaults.ip_unmarked, StorageFaults.issued_unmarked.
    destruct (answer (server ip_status_url)) as [ipData|].
    + destruct (status_banned ipData).
      * rewrite run_or_else, check_legacy_storage_run. cbn [writes_throw].
        destruct (answer (server legacy_url)) as [data|];
          [destruct (data_isBanned data)|]; rewrite !after_after; reflexivity.
      * rewrite after_after. reflexivity.
    + rewrite run_or_else, check_legacy_storage_run. cbn [writes_throw].
      destruct (answer (server legacy_url)) as [data|];
        [destruct (data_isBanned data)|]; rewrite !after_after; reflexivity.
  - rewrite run_bind, isLocallyBanned_run. reflexivity.
Qed.

Lemma device_url_injective id id' : device_url id = device_url id' → id = id'.
Proof. unfold device_url. apply FingerprintFacts.append_cancel_l. Qed.

(** The device endpoint is asked exactly for a stored identifier that is
    not empty. *)
Lemma device_consulted server deviceId id :
  GET (device_url id) ∈ issued server deviceId ↔ deviceId = Some id ∧ id ≠ "".
Proof.
  assert (Hdevice : GET (device_url id) ∈ device_requests deviceId
                    ↔ deviceId = Some id ∧ id ≠ "").
  { unfold device_requests. destruct deviceId as [[|c rest]|]; cbn [truthy].
    - rewrite elem_of_nil. split; [tauto|]. intros [[= <-] H]. congruence.
    - rewrite list_elem_of_singleton. split.
      + intros H.
        assert (Hurl : device_url id = device_url (String c rest)) by congruence.
        apply device_url_injective in Hurl as ->. split; [reflexivity|discriminate].
      + intros [[= <-] _]. reflexivity.
    - rewrite elem_of_nil. split; [tauto|]. intros [H _]. discriminate. }
  assert (Hrest : ∀ l, GET (device_url id) ∈ GET ip_status_url :: l →
                       GET (device_url id) ∈ l).
  { intros l H. apply elem_of_cons in H as [H|H]; [discriminate | exact H]. }
  unfold issued. destruct (device_positive server deviceId); [exact Hdevice|].
  rewrite elem_of_app, Hdevice. split; [|tauto].
  intros [H|H]; [exact H|]. exfalso. apply Hrest in H.
  destruct (answer (server ip_status_url)) as [ipData|].
  - destruct (status_banned ipData); [|apply elem_of_nil in H; exact H].
    unfold registration_requests in H.
    destruct deviceId as [id'|]; [destruct (truthy _)|];
      set_unfold; destruct_or!; discriminate.
  - apply list_elem_of_singleton in H.
    apply (device_url_not_legacy id). congruence.
Qed.

(** The IP-status endpoint is asked unless the device endpoint has found
    the ban. *)
Lemma ip_status_consulted server deviceId :
  GET ip_status_url ∈ issued server deviceId ↔ device_positive server deviceId = false.
Proof.
  assert (Hdevice : GET ip_status_url ∈ device_requests deviceId → False).
  { unfold device_requests. destruct deviceId as [id|]; [destruct (truthy _)|];
      set_unfold; intros; destruct_or!; discriminate. }
  unfold issued. destruct (device_positive server deviceId).
  - split; [intros H; destruct (Hdevice H) | discriminate].
  - split; [reflexivity|]. intros _. apply elem_of_app. right. left.
Qed.

Lemma issued_unmarked_GET server deviceId :
  Forall (λ q, is_GET q = true) (StorageFaults.issued_unmarked server deviceId).
Proof.
  unfold StorageFaults.issued_unmarked, device_requests.
  apply Forall_app. split.
  - destruct deviceId as [id|]; [destruct (truthy _)|]; repeat constructor.
  - destruct (answer (server ip_status_url)) as [ipData|];
      [destruct (status_banned ipData)|]; repeat constructor.
Qed.

(** C2 (amended).  With a storage that works [checkIfBanned] never
    throws.  When the device is locally banned it returns
    [{isBanned: true}] and issues no request.  Otherwise the endpoints
    decide, in the order device id, IP status, legacy: the device
    endpoint is asked exactly when a device id that is not empty is
    stored, the IP-status endpoint unless the device endpoint has found
    the ban, and the legacy endpoint only when the IP-status endpoint
    gave no answer.  A ban found by the device endpoint or by the first
    of the two IP endpoints that answers gives [{isBanned: true}] and
    marks the local ban; the IP-status endpoint, when it answers without
    a ban, gives [{isBanned: false}] at once.  Nothing in the [try] block
    throws then, and the [catch] block, run by itself, returns the result
    of the local check.

    When storage is blocked the first read of the [try] block throws, the
    read of the [catch] block throws again, and the call rejects without
    a request.  When writes are refused the call returns, but a ban an
    endpoint reports cannot be marked and is not returned: the result is
    a ban only for a device that is locally banned already, and the
    legacy endpoint is asked also after the IP-status endpoint has
    answered ['banned']. *)
Theorem checkIfBanned_by_storage server api w :
  (∃ r w',
     run (StorageFaults.checkIfBanned Working server api) w = (Returned r, w')
     ∧ (isLocallyBanned (store w) = true →
          r = {| isBanned := true; ip := None |} ∧ w' = w)
     ∧ (isLocallyBanned (store w) = false →
          let deviceId := getItem (localStorage (store w)) BANNED_DEVICE_KEY in
          r = remote_verdict server deviceId
          ∧ ∃ sent, requests w' = requests w ++ sent
              ∧ List.filter is_GET sent `prefix_of` check_order deviceId
              ∧ (∀ id, GET (device_url id) ∈ sent ↔ deviceId = Some id ∧ id ≠ "")
              ∧ (GET ip_status_url ∈ sent ↔ device_positive server deviceId = false)
              ∧ (GET legacy_url ∈ sent ↔
                   device_positive server deviceId = false
                   ∧ answer (server ip_status_url) = None))
     ∧ (isBanned r = true → isLocallyBanned (store w') = true)
     ∧ (∀ error, run (StorageFaults.checkIfBanned_fallback Working error) w
          = (Returned {| isBanned := isLocallyBanned (store w); ip := None |}, w)))
  ∧ (run (StorageFaults.checkIfBanned Blocked server api) w = (Thrown SecurityError, w)
     ∧ ∀ error, run (StorageFaults.checkIfBanned_fallback Blocked error) w
         = (Thrown SecurityError, w))
  ∧ (∃ r w',
       run (StorageFaults.checkIfBanned NoQuota server api) w = (Returned r, w')
       ∧ store w' = store w
       ∧ isBanned r = isLocallyBanned (store w)
       ∧ ∃ sent, requests w' = requests w ++ sent
           ∧ Forall (λ q, is_GET q = true) sent
           ∧ (isLocallyBanned (store w) = false →
              ∀ ipData, answer (server ip_status_url) = Some ipData →
                status_banned ipData = true → GET legacy_url ∈ sent)).
Proof.
  assert (Hfallback : ∀ storage error,
            run (StorageFaults.checkIfBanned_fallback storage error) w
            = if reads_throw storage then (Thrown SecurityError, w)
              else (Returned {| isBanned := isLocallyBanned (store w); ip := None |}, w)).
  { intros storage error. unfold StorageFaults.checkIfBanned_fallback.
    rewrite run_bind, isLocallyBanned_run.
    destruct (reads_throw storage); [reflexivity|].
    destruct (isLocallyBanned (store w)); reflexivity. }
  rewrite !checkIfBanned_storage_run. split; [|split].
  - rewrite checkIfBanned_run.
    destruct (isLocallyBanned (store w)) eqn:Hlocal.
    + eexists _, _. split; [reflexivity|].
      split; [intros _; split; reflexivity|]. split; [discriminate|].
      split; [intros _; exact Hlocal|].
      intros error. rewrite Hfallback. reflexivity.
    + cbv zeta. eexists _, _. split; [reflexivity|].
      split; [discriminate|]. split; [|split].
      * intros _. split; [reflexivity|].
        exists (issued server (getItem (localStorage (store w)) BANNED_DEVICE_KEY)).
        split; [reflexivity|]. split; [apply issued_in_order|].
        split; [intros id; apply device_consulted|].
        split; [apply ip_status_consulted | apply legacy_consulted].
      * intros Hbanned. unfold after. cbn [store]. rewrite Hbanned.
        apply isLocallyBanned_after_mark.
      * intros error. rewrite Hfallback. reflexivity.
  - split; [reflexivity|]. intros error. rewrite Hfallback. reflexivity.
  - destruct (isLocallyBanned (store w)) eqn:Hlocal.
    + eexists _, _. split; [reflexivity|]. split; [reflexivity|].
      split; [reflexivity|]. exists []. rewrite app_nil_r.
      split; [reflexivity|]. split; [constructor | discriminate].
    + cbv zeta. eexists _, _. split; [reflexivity|]. split; [reflexivity|].
      split; [reflexivity|]. eexists. split; [reflexivity|].
      split; [apply issued_unmarked_GET|].
      intros _ ipData Hanswer Hbanned. unfold StorageFaults.issued_unmarked.
      rewrite Hanswer, Hbanned. apply elem_of_app. right. right. left.
Qed.

(** The server reports the IP as banned.  With a storage that works the
    ban is returned and marked; when writes are refused it is neither
    marked nor returned. *)
Lemma checkIfBanned_by_storage_witness :
  isLocallyBanned (store fresh_world) = false
  ∧ (∃ r w', run (StorageFaults.checkIfBanned Working DeviceIdText.banning_server
                    (λ _, true)) fresh_world = (Returned r, w')
             ∧ isBanned r = true ∧ isLocallyBanned (store w') = true)
  ∧ (∃ r w', run (StorageFaults.checkIfBanned NoQuota DeviceIdText.banning_server
                    (λ _, true)) fresh_world = (Returned r, w')
             ∧ isBanned r = false ∧ store w' = store fresh_world).
Proof.
  destruct (checkIfBanned_by_storage DeviceIdText.banning_server (λ _, true) fresh_world)
    as ((r & w' & Hrun & _ & Hremote & Hmarked & _) & _
        & (r' & w'' & Hrun' & Hstore & Hresult & _)).
  split; [reflexivity|]. split.
  - exists r, w'. split; [exact Hrun|].
    destruct (Hremote eq_refl) as [Hr _].
    assert (isBanned r = true) as Hbanned by (rewrite Hr; reflexivity).
    split; [exact Hbanned | apply Hmarked, Hbanned].
  - exists r', w''. split; [exact Hrun'|]. split; [exact Hresult | exact Hstore].
Defined.

(** C2 as stated fails twice.  The device is not locally banned, the
    IP-status endpoint answers without a ban, and [checkIfBanned] returns
    [{isBanned: false}] after that single request, although the legacy
    endpoint, which is never asked, reports a ban.  And with storage
    blocked the same call throws. *)
Lemma checkIfBanned_skips_legacy_and_throws :
  isLocallyBanned (store fresh_world) = false
  ∧ run (StorageFaults.checkIfBanned Working split_server (λ _, true)) fresh_world
    = (Returned {| isBanned := false; ip := Some "203.0.113.7" |},
       {| store := store fresh_world; requests := [GET ip_status_url] |})
  ∧ (answer (split_server legacy_url)
     = Some {| data_status := None; data_isBanned := true;
               data_ip := Some "203.0.113.7" |})
  ∧ run (StorageFaults.checkIfBanned Blocked split_server (λ _, true)) fresh_world
    = (Thrown SecurityError, fresh_world).
Proof. repeat split; vm_compute; reflexivity. Qed.

(** X2.  With a storage that works [reportDesktopAccess] returns, having
    issued exactly one request: the POST to
    [/api/admin/report-desktop-access] that carries the identifier it has
    just stored under ['sp_device_id'], the user agent, whether the
    address of the page contains ['about:blank'], and the screen size;
    the marker cookie is set as well, so that [isLocallyBanned] answers
    true afterwards.  When writes are refused the first write of the
    [try] block throws, the first write of the [catch] block throws
    again, and the call rejects: nothing is stored and no request is
    sent. *)
Theorem reportDesktopAccess_reports_stored_id dev now href api w :
  (∃ w' deviceId,
     run (StorageFaults.reportDesktopAccess Working dev now href api) w = (Returned tt, w')
     ∧ deviceId = generateDeviceId dev now
     ∧ getItem (localStorage (store w')) BANNED_DEVICE_KEY = Some deviceId
     ∧ requests w' = requests w ++
         [POST "/api/admin/report-desktop-access"
            (DesktopReport deviceId (userAgent dev) (includes href "about:blank")
               (screen_width dev) (screen_height dev))]
     ∧ jar_marked (cookie_jar (store w'))
     ∧ isLocallyBanned (store w') = true)
  ∧ (∀ storage, writes_throw storage = true →
       run (StorageFaults.reportDesktopAccess storage dev now href api) w
       = (Thrown (write_error storage), w)).
Proof.
  split.
  - rewrite reportDesktopAccess_storage_run. cbn [writes_throw].
    eexists _, _. split; [apply reportDesktopAccess_run|].
    split; [reflexivity|]. cbn [store requests localStorage cookie_jar].
    split; [|split; [reflexivity|split]].
    + unfold getItem, setItem.
      rewrite lookup_insert_ne by discriminate. apply lookup_insert_eq.
    + apply jar_put_elem.
    + apply isLocallyBanned_localStorage. apply lookup_insert_eq.
  - intros storage Hwrites. rewrite reportDesktopAccess_storage_run, Hwrites.
    reflexivity.
Qed.

(** In a private window whose quota is zero the report is never sent. *)
Lemma reportDesktopAccess_reports_stored_id_witness :
  writes_throw NoQuota = true
  ∧ run (StorageFaults.reportDesktopAccess NoQuota sample_device 1762153200000
           "https://envios.example.com/" (λ _, true)) fresh_world
    = (Thrown QuotaExceededError, fresh_world)
  ∧ ∃ w', run (StorageFaults.reportDesktopAccess Working sample_device 1762153200000
                 "https://envios.example.com/" (λ _, false)) fresh_world
          = (Returned tt, w')
          ∧ isLocallyBanned (store w') = true.
Proof.
  destruct (reportDesktopAccess_reports_stored_id sample_device 1762153200000
              "https://envios.example.com/" (λ _, true) fresh_world) as (_ & Hrefused).
  destruct (reportDesktopAccess_reports_stored_id sample_device 1762153200000
              "https://envios.example.com/" (λ _, false) fresh_world)
    as ((w' & deviceId & Hrun & _ & _ & _ & _ & Hlocal) & _).
  split; [reflexivity|]. split; [apply (Hrefused NoQuota); reflexivity|].
  exists w'. split; [exact Hrun | exact Hlocal].
Defined.

Lemma redirectToBlankPage_storage_run storage refused p :
  run (StorageFaults.redirectToBlankPage storage refused) p =
  if writes_throw storage then (Thrown (write_error storage), p)
  else run (redirectToBlankPage refused) p.
Proof.
  unfold StorageFaults.redirectToBlankPage, StorageFaults.localStorage_setItem,
    StorageFaults.sessionStorage_setItem.
  destruct (writes_throw storage); [|reflexivity].
  rewrite run_bind, run_lift. cbn [fst snd run throw].
  rewrite set_browser_same. reflexivity.
Qed.

(** X9.  With a storage that works [redirectToBlankPage] never throws
    and leaves the ban behind: the three markers are written before the
    redirect is tried, no request is issued, and [isLocallyBanned]
    answers true afterwards.  When the browser accepts the assignment the
    address is ['about:blank'] and the document is left alone; when it
    refuses, the address stays, the body is emptied and painted black,
    and exactly one retry is scheduled after 500 ms, which does not throw
    either.  The writes stand before the [try]: when they are refused the
    function throws at the first of them, and the page is neither marked
    nor redirected. *)
Theorem redirectToBlankPage_always_bans refused p :
  (∃ p',
     run (StorageFaults.redirectToBlankPage Working refused) p = (Returned tt, p')
     ∧ store (browser p') = markLocalBan (store (browser p))
     ∧ requests (browser p') = requests (browser p)
     ∧ isLocallyBanned (store (browser p')) = true
     ∧ intervalCheck p' = intervalCheck p
     ∧ (refused = false →
          href p' = "about:blank" ∧ timeouts p' = timeouts p
          ∧ body_innerHTML p' = body_innerHTML p
          ∧ body_backgroundColor p' = body_backgroundColor p)
     ∧ (refused = true →
          href p' = href p ∧ timeouts p' = timeouts p ++ [(500%Z, RetryRedirect)]
          ∧ body_innerHTML p' = "" ∧ body_backgroundColor p' = "#000"
          ∧ ∀ refused' q, ∃ q', run (retry_redirect refused') q = (Returned tt, q')))
  ∧ (∀ storage, writes_throw storage = true →
       run (StorageFaults.redirectToBlankPage storage refused) p
       = (Thrown (write_error storage), p)).
Proof.
  split.
  - rewrite redirectToBlankPage_storage_run. cbn [writes_throw].
    eexists. split; [apply redirectToBlankPage_run|].
    rewrite browser_after_redirect. cbn [store requests on_store].
    split; [reflexivity|]. split; [reflexivity|].
    split; [apply isLocallyBanned_after_mark|].
    split; [destruct refused; reflexivity|].
    split; intros ->.
    + repeat split.
    + repeat split. intros refused' q.
      unfold retry_redirect, assign_location_href. run_effects.
      destruct refused'; eexists; reflexivity.
  - intros storage Hwrites. rewrite redirectToBlankPage_storage_run, Hwrites.
    reflexivity.
Qed.

Lemma redirectToBlankPage_always_bans_witness :
  (∃ p',
     run (StorageFaults.redirectToBlankPage Working true)
         (opened fresh_world "https://example.org/")
     = (Returned tt, p')
     ∧ href p' = "https://example.org/"
     ∧ body_innerHTML p' = ""
     ∧ timeouts p' = [(500%Z, RetryRedirect)])
  ∧ run (StorageFaults.redirectToBlankPage Blocked false)
        (opened fresh_world "https://example.org/")
    = (Thrown SecurityError, opened fresh_world "https://example.org/").
Proof.
  destruct (redirectToBlankPage_always_bans true
              (opened fresh_world "https://example.org/"))
    as ((p' & Hrun & _ & _ & _ & _ & _ & Hrefused) & _).
  destruct (redirectToBlankPage_always_bans false
              (opened fresh_world "https://example.org/")) as (_ & Hthrows).
  split; [|apply (Hthrows Blocked); reflexivity].
  exists p'. split; [exact Hrun|].
  destruct (Hrefused eq_refl) as (Hhref & Htimeouts & Hbody & _).
  split; [exact Hhref|]. split; [exact Hbody | exact Htimeouts].
Defined.

Section Hook.
Variable env : surroundings.

Lemma run_lift_isLocallyBanned storage p :
  run (lift (StorageFaults.isLocallyBanned storage)) p =
  if reads_throw storage then (Thrown SecurityError, p)
  else (Returned (isLocallyBanned (store (browser p))), p).
Proof.
  rewrite run_lift, isLocallyBanned_run.
  destruct (reads_throw storage); cbn [fst snd]; rewrite set_browser_same; reflexivity.
Qed.

(** The [catch] block of [checkAccess]. *)
Lemma handler_run storage p :
  run (let* banned := lift (StorageFaults.isLocallyBanned storage) in
       if banned then StorageFaults.redirectToBlankPage storage (refused env)
       else ret tt)%effect p =
  if reads_throw storage then (Thrown SecurityError, p)
  else if isLocallyBanned (store (browser p))
       then run (StorageFaults.redirectToBlankPage storage (refused env)) p
       else (Returned tt, p).
Proof.
  rewrite run_bind, run_lift_isLocallyBanned.
  destruct (reads_throw storage); [reflexivity|].
  destruct (isLocallyBanned (store (browser p))); reflexivity.
Qed.

(** With a storage that works the check is the one of
    [DesktopProtection]. *)
Lemma checkAccess_working p :
  run (StorageFaults.checkAccess Working env) p = run (checkAccess env) p.
Proof.
  unfold StorageFaults.checkAccess, checkAccess.
  rewrite !run_try_catch.
  destruct (isDevelopment env); [reflexivity|].
  destruct (framed env).
  { destruct (run _ p) as [[[]|e] p1]; [reflexivity|].
    rewrite handler_run. cbn [reads_throw].
    rewrite run_bind, run_lift.
    change (run isLocallyBanned_ (browser p1))
      with (Returned (isLocallyBanned (store (browser p1))), browser p1).
    cbn [fst snd]. rewrite set_browser_same.
    destruct (isLocallyBanned (store (browser p1))); [|reflexivity].
    rewrite redirectToBlankPage_storage_run. reflexivity. }
  rewrite !run_bind, !run_lift, checkIfBanned_storage_run.
  destruct (run (checkIfBanned (server env) (apiRequest_resolves env)) (browser p))
    as [[response|e] w1] eqn:Hcheck; cbn [fst snd].
  - destruct (isBanned response).
    { rewrite redirectToBlankPage_storage_run, redirectToBlankPage_run. reflexivity. }
    destruct (isIpExempted response); [reflexivity|].
    destruct (isConfirmedDesktop env); [|reflexivity].
    rewrite !run_bind.
    change (run (λ p0, lift (StorageFaults.reportDesktopAccess Working (this_device env)
                               (now env) (href p0) (apiRequest_resolves env)) p0)
                (set_browser w1 p))
      with (run (lift (StorageFaults.reportDesktopAccess Working (this_device env)
                         (now env) (href (set_browser w1 p)) (apiRequest_resolves env)))
                (set_browser w1 p)).
    change (run (λ p0, lift (reportDesktopAccess (this_device env) (now env) (href p0)
                               (apiRequest_resolves env)) p0) (set_browser w1 p))
      with (run (lift (reportDesktopAccess (this_device env) (now env)
                         (href (set_browser w1 p)) (apiRequest_resolves env)))
                (set_browser w1 p)).
    rewrite !run_lift, reportDesktopAccess_storage_run. cbn [writes_throw].
    rewrite reportDesktopAccess_run. cbn [fst snd].
    rewrite redirectToBlankPage_storage_run, redirectToBlankPage_run. reflexivity.
  - rewrite checkIfBanned_run in Hcheck.
    destruct (isLocallyBanned (store (browser p))); discriminate.
Qed.

(** X14.  With a storage that works [checkAccess] returns without
    throwing, whatever its surroundings, and leaves the periodic check as
    it was; and when the page is neither a development page nor framed
    and [checkIfBanned] reports a ban, the page is redirected with the
    markers set, on a phone as on a desktop, and nothing is reported.  A
    development page returns at once whatever the storage.  On any other
    page that is not framed the storage decides: when it is blocked
    [checkIfBanned] throws, the read of the [catch] block throws again
    and [checkAccess] rejects with the page untouched; when writes are
    refused, a device that is locally banned cannot be redirected, as
    [redirectToBlankPage] throws in the [try] block and again in the
    [catch] block, and any other device is let through: nothing is
    stored, the address stays, and only GET requests were issued, even
    for a confirmed desktop. *)
Theorem checkAccess_never_throws p :
  (∃ p',
     run (StorageFaults.checkAccess Working env) p = (Returned tt, p')
     ∧ intervalCheck p' = intervalCheck p
     ∧ (∀ response w1,
          isDevelopment env = false → framed env = false →
          run (StorageFaults.checkIfBanned Working (server env) (apiRequest_resolves env))
              (browser p)
          = (Returned response, w1) →
          isBanned response = true →
            isLocallyBanned (store (browser p')) = true
            ∧ requests (browser p') = requests w1
            ∧ (refused env = false → href p' = "about:blank")))
  ∧ (isDevelopment env = true →
       ∀ storage, run (StorageFaults.checkAccess storage env) p = (Returned tt, p))
  ∧ (isDevelopment env = false → framed env = false →
       run (StorageFaults.checkAccess Blocked env) p = (Thrown SecurityError, p)
       ∧ (isLocallyBanned (store (browser p)) = true →
            run (StorageFaults.checkAccess NoQuota env) p = (Thrown QuotaExceededError, p))
       ∧ (isLocallyBanned (store (browser p)) = false →
            ∃ p' sent,
              run (StorageFaults.checkAccess NoQuota env) p = (Returned tt, p')
              ∧ store (browser p') = store (browser p)
              ∧ href p' = href p
              ∧ requests (browser p') = requests (browser p) ++ sent
              ∧ Forall (λ q, is_GET q = true) sent)).
Proof.
  split; [|split].
  - rewrite checkAccess_working.
    destruct (checkAccess_returns env p) as (p' & Hrun & Hinterval).
    exists p'. split; [exact Hrun|]. split; [exact Hinterval|].
    intros response w1 Hdev Hframed Hcheck Hbanned.
    rewrite checkIfBanned_storage_run in Hcheck.
    rewrite checkAccess_run in Hrun by assumption.
    rewrite (checked_of_run env p response w1 Hcheck) in Hrun.
    rewrite Hbanned, redirectToBlankPage_run in Hrun. injection Hrun as <-.
    rewrite browser_after_redirect. cbn [store requests on_store browser set_browser].
    split; [apply isLocallyBanned_after_mark|]. split; [reflexivity|].
    intros ->. reflexivity.
  - intros Hdev storage. unfold StorageFaults.checkAccess.
    rewrite run_try_catch, Hdev. reflexivity.
  - intros Hdev Hframed. unfold StorageFaults.checkAccess.
    split; [|split].
    + rewrite run_try_catch, Hdev, Hframed, run_bind, run_lift,
        checkIfBanned_storage_run.
      cbn [fst snd]. rewrite set_browser_same. cbv beta iota.
      rewrite handler_run. reflexivity.
    + intros Hlocal.
      rewrite run_try_catch, Hdev, Hframed, run_bind, run_lift,
        checkIfBanned_storage_run, Hlocal.
      cbn [fst snd isBanned]. rewrite set_browser_same.
      rewrite redirectToBlankPage_storage_run. cbn [writes_throw]. cbv beta iota.
      rewrite handler_run. cbn [reads_throw]. rewrite Hlocal.
      rewrite redirectToBlankPage_storage_run. reflexivity.
    + intros Hlocal.
      rewrite run_try_catch, Hdev, Hframed, run_bind, run_lift,
        checkIfBanned_storage_run, Hlocal.
      cbv zeta. cbn [fst snd isBanned].
      set (w1 := after (browser p) _ false).
      assert (Hquiet : isLocallyBanned (store (browser (set_browser w1 p))) = false)
        by exact Hlocal.
      exists (set_browser w1 p), (StorageFaults.issued_unmarked (server env)
                (getItem (localStorage (store (browser p))) BANNED_DEVICE_KEY)).
      split.
      * destruct (isIpExempted _); [reflexivity|].
        destruct (isConfirmedDesktop env); [|reflexivity].
        rewrite run_bind.
        change (run (λ p0, lift (StorageFaults.reportDesktopAccess NoQuota (this_device env)
                                   (now env) (href p0) (apiRequest_resolves env)) p0)
                    (set_browser w1 p))
          with (run (lift (StorageFaults.reportDesktopAccess NoQuota (this_device env)
                             (now env) (href (set_browser w1 p))
                             (apiRequest_resolves env)))
                    (set_browser w1 p)).
        rewrite run_lift, reportDesktopAccess_storage_run.
        cbn [writes_throw fst snd]. rewrite set_browser_same. cbv beta iota.
        rewrite handler_run. cbn [reads_throw]. rewrite Hquiet. reflexivity.
      * split; [reflexivity|]. split; [reflexivity|].
        split; [reflexivity | apply issued_unmarked_GET].
Qed.

(** X10.  The effect of the hook.  With a storage that works it never
    throws: mounted on a device that is locally banned it redirects at
    once, without a request and without scheduling the periodic check;
    mounted on any other device it runs the check and schedules the
    periodic check every 12000 ms.  Its first statement reads the stores
    outside any [try]: when storage is blocked the effect throws there
    and sets nothing up.  When writes are refused, the effect throws for
    a device that is locally banned, which cannot be redirected, and for
    any other device it schedules the periodic check whatever becomes of
    the check it started. *)
Theorem useDesktopProtection_mounts p :
  (∃ p',
     run (StorageFaults.useDesktopProtection Working env) p = (Returned tt, p')
     ∧ (isLocallyBanned (store (browser p)) = true →
          requests (browser p') = requests (browser p)
          ∧ intervalCheck p' = intervalCheck p
          ∧ isLocallyBanned (store (browser p')) = true
          ∧ (refused env = false → href p' = "about:blank"))
     ∧ (isLocallyBanned (store (browser p)) = false →
          intervalCheck p' = Some 12000%Z
          ∧ ∃ p1, run (StorageFaults.checkAccess Working env) p = (Returned tt, p1)
                  ∧ p' = set_intervalCheck (Some 12000%Z) p1))
  ∧ run (StorageFaults.useDesktopProtection Blocked env) p = (Thrown SecurityError, p)
  ∧ (isLocallyBanned (store (browser p)) = true →
       run (StorageFaults.useDesktopProtection NoQuota env) p
       = (Thrown QuotaExceededError, p))
  ∧ (isLocallyBanned (store (browser p)) = false →
       ∃ p', run (StorageFaults.useDesktopProtection NoQuota env) p = (Returned tt, p')
             ∧ intervalCheck p' = Some 12000%Z).
Proof.
  unfold StorageFaults.useDesktopProtection.
  rewrite !run_bind, !run_lift_isLocallyBanned. cbn [reads_throw].
  split; [|split; [reflexivity|split]].
  - destruct (isLocallyBanned (store (browser p))) eqn:Hlocal.
    + rewrite redirectToBlankPage_storage_run, redirectToBlankPage_run.
      eexists. split; [reflexivity|].
      split; [|discriminate]. intros _.
      rewrite browser_after_redirect. cbn [requests store on_store].
      split; [reflexivity|]. split; [destruct (refused env); reflexivity|].
      split; [apply isLocallyBanned_after_mark|]. intros ->. reflexivity.
    + destruct (checkAccess_returns env p) as (p1 & Hrun & Hinterval).
      rewrite <- checkAccess_working in Hrun.
      rewrite run_bind, run_detached, Hrun. eexists. split; [reflexivity|].
      split; [discriminate|]. intros _. split; [reflexivity|].
      exists p1. split; reflexivity.
  - intros ->. rewrite redirectToBlankPage_storage_run. reflexivity.
  - intros ->. rewrite run_bind. eexists. split; reflexivity.
Qed.

End Hook.

(** A phone whose address the server reports as banned is redirected
    when storage works; with storage blocked the check rejects and the
    page stays. *)
Lemma checkAccess_never_throws_witness :
  isDevelopment banned_phone_visit = false ∧ framed banned_phone_visit = false
  ∧ (∃ p', run (StorageFaults.checkAccess Working banned_phone_visit) landing
           = (Returned tt, p')
           ∧ isLocallyBanned (store (browser p')) = true
           ∧ href p' = "about:blank")
  ∧ run (StorageFaults.checkAccess Blocked banned_phone_visit) landing
    = (Thrown SecurityError, landing)
  ∧ ∃ p' sent, run (StorageFaults.checkAccess NoQuota desktop_visit) landing
               = (Returned tt, p')
               ∧ href p' = href landing
               ∧ requests (browser p') = requests (browser landing) ++ sent.
Proof.
  destruct (checkAccess_never_throws banned_phone_visit landing)
    as ((p' & Hrun & _ & Hbanned) & _ & Hstorage).
  destruct (Hstorage eq_refl eq_refl) as (Hblocked & _).
  destruct (checkAccess_never_throws desktop_visit landing) as (_ & _ & Hdesktop).
  destruct (Hdesktop eq_refl eq_refl) as (_ & _ & Hfull).
  destruct (Hfull eq_refl) as (q & sent & Hq & _ & Hhref & Hsent & _).
  split; [reflexivity|]. split; [reflexivity|]. split; [|split; [exact Hblocked|]].
  - exists p'. split; [exact Hrun|].
    destruct (Hbanned {| isBanned := true; ip := Some "203.0.113.7" |}
                {| store := markLocalBan (store fresh_world);
                   requests := [GET ip_status_url] |})
      as (Hlocal & _ & Hhref');
      [reflexivity | reflexivity | vm_compute; reflexivity | reflexivity |].
    split; [exact Hlocal | apply Hhref'; reflexivity].
  - exists q, sent. split; [exact Hq|]. split; [exact Hhref | exact Hsent].
Defined.

Lemma useDesktopProtection_mounts_witness :
  isLocallyBanned (store (browser landing)) = false
  ∧ (∃ p', run (StorageFaults.useDesktopProtection Working phone_visit) landing
           = (Returned tt, p')
           ∧ intervalCheck p' = Some 12000%Z)
  ∧ run (StorageFaults.useDesktopProtection Blocked phone_visit) landing
    = (Thrown SecurityError, landing).
Proof.
  split; [reflexivity|].
  destruct (useDesktopProtection_mounts phone_visit landing)
    as ((p' & Hrun & _ & Hclean) & Hblocked & _).
  split; [|exact Hblocked].
  exists p'. split; [exact Hrun|]. apply Hclean. reflexivity.
Defined.

End StorageFaultsFacts.
